(** * Certificate-Auth: the steganographic verification codec

    A shallow embedding of the backend of the repository:

    - [services/stegoService.js]  (LSB embedding and extraction),
    - [utils/hash.js]             (the hash helpers and what the module exports),
    - [services/cryptoService.js] (signature check),
    - [services/blockchainService.js] (the anchor check),
    - [routes/verify.js] and [routes/issue.js] (the two request handlers).

    Further down come the other helpers of [utils/hash.js], the lookup by
    hash of [services/blockchainService.js] with its route, and the key
    files of [services/cryptoService.js] with the two issuer routes.

    JavaScript strings are lists of UTF-16 code units, JSON values are an
    inductive type with [JSON.stringify] and [JSON.parse] written out, the
    carrier is the RGBA buffer that [ctx.getImageData(...).data] yields, one
    record per pixel.  An exception is a [Throw] result; [try]/[catch] is a
    match on it.  What the platform provides and the repository does not
    define (SHA-256, RSA, the ledger contract, the random sources, the
    canvas that writes a PNG, the file system under the key directory) is a
    field of a record that the functions take as an argument. *)

From Stdlib Require Import String Ascii NArith Arith Lia Bool List Permutation.
Import ListNotations.

(* ================================================================== *)
(** * JavaScript strings                                                *)
(* ================================================================== *)

Module Js.

(** A string is its sequence of UTF-16 code units (what [charCodeAt] reads
    and [String.fromCharCode] writes). *)
Definition jsstring := list N.

(** A literal of the source, written as a Rocq string. *)
Definition lit (s : string) : jsstring :=
  map N_of_ascii (list_ascii_of_string s).

Fixpoint eqb (a b : jsstring) : bool :=
  match a, b with
  | [], [] => true
  | x :: a', y :: b' => (x =? y)%N && eqb a' b'
  | _, _ => false
  end.

(** [s.slice(from, to)] for [0 <= from <= to]. *)
Definition slice {A} (from to : nat) (s : list A) : list A :=
  firstn (to - from) (skipn from s).

(** [s.slice(-n)]: the last [n] items. *)
Definition sliceLast {A} (n : nat) (s : list A) : list A :=
  skipn (length s - n) s.

(** [s.slice(0, -n)]: all but the last [n] items. *)
Definition sliceDropLast {A} (n : nat) (s : list A) : list A :=
  firstn (length s - n) s.

(** The result of a call that may throw. *)
Inductive Result (A : Type) : Type :=
| Ok (a : A)
| Throw (message : string).

Arguments Ok {A} a.
Arguments Throw {A} message.

Definition bind {A B} (r : Result A) (k : A -> Result B) : Result B :=
  match r with
  | Ok a => k a
  | Throw m => Throw m
  end.

(** [try { body } catch (error) { handler }]. *)
Definition tryCatch {A} (body : Result A) (handler : string -> Result A) : Result A :=
  match body with
  | Ok a => Ok a
  | Throw m => handler m
  end.

End Js.

Import Js.

Declare Scope js_scope.
Delimit Scope js_scope with js.
Notation "x <- r ;; k" := (bind r (fun x => k))
  (at level 61, r at next level, right associativity) : js_scope.
Open Scope js_scope.

(* ================================================================== *)
(** * JSON                                                              *)
(* ================================================================== *)

Module Json.

(** A JSON value.  A number is kept as its decimal literal: the codec never
    computes with one, it only asks whether the double it denotes is zero
    (truthiness).  An object is its member list in source order; a repeated
    key is resolved when a property is read (the last one wins, as
    [JSON.parse] has it). *)
Unset Elimination Schemes.
Inductive json : Type :=
| JNull
| JBool (b : bool)
| JNum (literal : jsstring)
| JStr (s : jsstring)
| JArr (items : list json)
| JObj (members : list (jsstring * json)).
Set Elimination Schemes.

(** ** Property access and truthiness *)

(** [v.key] for the keys the code reads ([mode], [data], [entries], [type],
    [transactionHash], [signature], [issuerId], [timestamp]): [None] is
    [undefined].  Among parsed values only an object holds one of them (the
    [entries] an array inherits is a method, which is no array and is never
    compared). *)
Fixpoint lookupLast (key : jsstring) (members : list (jsstring * json)) : option json :=
  match members with
  | [] => None
  | (k, v) :: rest =>
      match lookupLast key rest with
      | Some w => Some w
      | None => if Js.eqb k key then Some v else None
      end
  end.

Definition getProp (v : json) (key : string) : option json :=
  match v with
  | JObj members => lookupLast (lit key) members
  | _ => None
  end.

(** ** The number a literal denotes *)

Definition isDigit (c : N) : bool := ((48 <=? c) && (c <=? 57))%N.

(** The digits at the head of [s], read as a decimal numeral that
    continues [acc]: the numeral, the number of digits read, and what
    follows them. *)
Fixpoint readDigits (s : jsstring) (acc count : N) : N * N * jsstring :=
  match s with
  | c :: rest =>
      if isDigit c then readDigits rest (10 * acc + (c - 48))%N (count + 1)%N
      else (acc, count, s)
  | [] => (acc, count, [])
  end.

(** A literal of the JSON grammar without its sign, as the three numbers
    [(m, up, down)]: it denotes [m * 10^up / 10^down].  [m] is the digits
    before the exponent read as one numeral, [down] counts the digits
    behind the point and takes a negative exponent, [up] is an exponent
    that is not negative. *)
Definition decimalOf (literal : jsstring) : N * N * N :=
  let unsigned :=
    match literal with
    | c :: rest => if (c =? 45)%N then rest else literal
    | [] => []
    end in
  let '(whole, _, afterWhole) := readDigits unsigned 0 0 in
  let '(m, fractionDigits, afterFraction) :=
    match afterWhole with
    | c :: rest => if (c =? 46)%N then readDigits rest whole 0 else (whole, 0%N, afterWhole)
    | [] => (whole, 0%N, afterWhole)
    end in
  match afterFraction with
  | _ :: g :: rest =>
      if (g =? 45)%N then
        let '(e, _, _) := readDigits rest 0 0 in (m, 0%N, (fractionDigits + e)%N)
      else
        let '(e, _, _) := readDigits (if (g =? 43)%N then rest else g :: rest) 0 0 in
        (m, e, fractionDigits)
  | _ => (m, 0%N, fractionDigits)
  end.

(** The double nearest to what the literal denotes is zero: the literal
    denotes at most [2^-1075], half of the least positive double (the tie
    goes to zero, the even neighbour).  So [0], [-0.0], [0e5] and [1e-400]
    are zero and [5e-324] is not. *)
Definition roundsToZero (literal : jsstring) : bool :=
  let '(m, up, down) := decimalOf literal in
  (m * 10 ^ up * 2 ^ 1075 <=? 10 ^ down)%N.

(** JavaScript truthiness of a parsed value. *)
Definition truthy (v : json) : bool :=
  match v with
  | JNull => false
  | JBool b => b
  | JNum literal => negb (roundsToZero literal)
  | JStr s => match s with [] => false | _ => true end
  | JArr _ => true
  | JObj _ => true
  end.

(** Truthiness of a value that may be [undefined]. *)
Definition truthyProp (o : option json) : bool :=
  match o with
  | Some v => truthy v
  | None => false
  end.

(** [o === 'text'] for a property that may be [undefined]. *)
Definition isString (o : option json) (text : string) : bool :=
  match o with
  | Some (JStr s) => Js.eqb s (lit text)
  | _ => false
  end.

(** ** JSON.stringify *)

Definition hexDigit (d : N) : N :=
  (if d <? 10 then 48 + d else 87 + d)%N.

(** [\uXXXX], four lowercase hex digits. *)
Definition unicodeEscape (c : N) : jsstring :=
  [92; 117; hexDigit ((c / 4096) mod 16); hexDigit ((c / 256) mod 16);
   hexDigit ((c / 16) mod 16); hexDigit (c mod 16)]%N.

Definition isHighSurrogate (c : N) : bool := ((55296 <=? c) && (c <=? 56319))%N.
Definition isLowSurrogate (c : N) : bool := ((56320 <=? c) && (c <=? 57343))%N.

(** One code unit that is no surrogate, as QuoteJSONString writes it. *)
Definition quoteChar (c : N) : jsstring :=
  (if c =? 8 then [92; 98]
   else if c =? 9 then [92; 116]
   else if c =? 10 then [92; 110]
   else if c =? 12 then [92; 102]
   else if c =? 13 then [92; 114]
   else if c =? 34 then [92; 34]
   else if c =? 92 then [92; 92]
   else if c <? 32 then unicodeEscape c
   else [c])%N.

(** The body of a quoted string: a surrogate pair is copied, a lone
    surrogate is escaped. *)
Fixpoint quoteBody (s : jsstring) : jsstring :=
  match s with
  | [] => []
  | c :: rest =>
      if isHighSurrogate c then
        match rest with
        | d :: rest' =>
            if isLowSurrogate d then c :: d :: quoteBody rest'
            else unicodeEscape c ++ quoteBody rest
        | [] => unicodeEscape c
        end
      else if isLowSurrogate c then unicodeEscape c ++ quoteBody rest
      else quoteChar c ++ quoteBody rest
  end.

Definition quote (s : jsstring) : jsstring := 34%N :: quoteBody s ++ [34%N].

(** Items separated by commas. *)
Fixpoint joinComma (parts : list jsstring) : jsstring :=
  match parts with
  | [] => []
  | [p] => p
  | p :: rest => p ++ 44%N :: joinComma rest
  end.

Fixpoint stringify (v : json) : jsstring :=
  match v with
  | JNull => lit "null"
  | JBool true => lit "true"
  | JBool false => lit "false"
  | JNum literal => literal
  | JStr s => quote s
  | JArr items => 91%N :: joinComma (map stringify items) ++ [93%N]
  | JObj members =>
      123%N :: joinComma (map (fun kv => quote (fst kv) ++ 58%N :: stringify (snd kv)) members)
        ++ [125%N]
  end.

(** ** JSON.parse *)

Definition isWhitespace (c : N) : bool :=
  ((c =? 32) || (c =? 9) || (c =? 10) || (c =? 13))%N.

Fixpoint skipWs (s : jsstring) : jsstring :=
  match s with
  | c :: rest => if isWhitespace c then skipWs rest else s
  | [] => []
  end.

Definition hexValue (c : N) : option N :=
  (if isDigit c then Some (c - 48)
   else if (97 <=? c) && (c <=? 102) then Some (c - 87)
   else if (65 <=? c) && (c <=? 70) then Some (c - 55)
   else None)%N.

Definition hex4 (a b c d : N) : option N :=
  match hexValue a, hexValue b, hexValue c, hexValue d with
  | Some x, Some y, Some z, Some w => Some (((x * 16 + y) * 16 + z) * 16 + w)%N
  | _, _, _, _ => None
  end.

(** The code unit a two-character escape stands for. *)
Definition simpleEscape (e : N) : option N :=
  (if e =? 34 then Some 34
   else if e =? 92 then Some 92
   else if e =? 47 then Some 47
   else if e =? 98 then Some 8
   else if e =? 102 then Some 12
   else if e =? 110 then Some 10
   else if e =? 114 then Some 13
   else if e =? 116 then Some 9
   else None)%N.

Definition consChar (c : N) (r : option (jsstring * jsstring)) : option (jsstring * jsstring) :=
  match r with
  | Some (s, rest) => Some (c :: s, rest)
  | None => None
  end.

(** A string after its opening quote: the decoded text and what follows
    the closing quote. *)
Fixpoint parseStringBody (s : jsstring) : option (jsstring * jsstring) :=
  match s with
  | [] => None
  | c :: r =>
      if (c =? 34)%N then Some ([], r)
      else if (c =? 92)%N then
        match r with
        | e :: r' =>
            if (e =? 117)%N then
              match r' with
              | h1 :: h2 :: h3 :: h4 :: r'' =>
                  match hex4 h1 h2 h3 h4 with
                  | Some u => consChar u (parseStringBody r'')
                  | None => None
                  end
              | _ => None
              end
            else
              match simpleEscape e with
              | Some u => consChar u (parseStringBody r')
              | None => None
              end
        | [] => None
        end
      else if (c <? 32)%N then None
      else consChar c (parseStringBody r)
  end.

Fixpoint spanDigits (s : jsstring) : jsstring * jsstring :=
  match s with
  | c :: rest =>
      if isDigit c then let (ds, r) := spanDigits rest in (c :: ds, r) else ([], s)
  | [] => ([], [])
  end.

(** A number of the JSON grammar (optional minus; zero, or a digit from 1 to
    9 and more digits; optional fraction; optional exponent): the literal
    and what follows it. *)
Definition parseNumber (s : jsstring) : option (jsstring * jsstring) :=
  let (sign, s1) :=
    match s with
    | c :: r => if (c =? 45)%N then ([c], r) else ([], s)
    | [] => ([], s)
    end in
  match s1 with
  | [] => None
  | d :: r =>
      if isDigit d then
        let (int, s2) :=
          if (d =? 48)%N then ([d], r) else let (ds, r') := spanDigits r in (d :: ds, r') in
        let frac :=
          match s2 with
          | c :: r2 =>
              if (c =? 46)%N then
                let (ds, r3) := spanDigits r2 in
                match ds with [] => None | _ => Some (c :: ds, r3) end
              else Some ([], s2)
          | [] => Some ([], s2)
          end in
        match frac with
        | None => None
        | Some (fr, s3) =>
            match s3 with
            | c :: r3 =>
                if ((c =? 101) || (c =? 69))%N then
                  let (esign, s4) :=
                    match r3 with
                    | g :: r4 => if ((g =? 43) || (g =? 45))%N then ([g], r4) else ([], r3)
                    | [] => ([], r3)
                    end in
                  let (ds, r5) := spanDigits s4 in
                  match ds with
                  | [] => None
                  | _ => Some (sign ++ int ++ fr ++ c :: esign ++ ds, r5)
                  end
                else Some (sign ++ int ++ fr, s3)
            | [] => Some (sign ++ int ++ fr, s3)
            end
        end
      else None
  end.

(** [s] starts with the literal [word]: what follows it. *)
Fixpoint stripPrefix (word s : jsstring) : option jsstring :=
  match word, s with
  | [], _ => Some s
  | w :: word', c :: s' => if (w =? c)%N then stripPrefix word' s' else None
  | _ :: _, [] => None
  end.

(** The recursive descent over values, array elements and object members.
    Every call on a nested value or on the next sibling spends one unit of
    [fuel]; [2 * length s + 2] units are enough for any text [s]: more fuel
    gives the same result (lemma [parseValue_fuel]). *)
Fixpoint parseValue (fuel : nat) (s : jsstring) : option (json * jsstring) :=
  match fuel with
  | O => None
  | S fuel' =>
      match skipWs s with
      | [] => None
      | c :: r =>
          if (c =? 123)%N then
            match skipWs r with
            | c' :: r' =>
                if (c' =? 125)%N then Some (JObj [], r')
                else
                  match parseMembers fuel' r with
                  | Some (ms, r1) => Some (JObj ms, r1)
                  | None => None
                  end
            | [] => None
            end
          else if (c =? 91)%N then
            match skipWs r with
            | c' :: r' =>
                if (c' =? 93)%N then Some (JArr [], r')
                else
                  match parseElements fuel' r with
                  | Some (vs, r1) => Some (JArr vs, r1)
                  | None => None
                  end
            | [] => None
            end
          else if (c =? 34)%N then
            match parseStringBody r with
            | Some (str, r1) => Some (JStr str, r1)
            | None => None
            end
          else if (c =? 116)%N then
            match stripPrefix (lit "rue") r with
            | Some r1 => Some (JBool true, r1)
            | None => None
            end
          else if (c =? 102)%N then
            match stripPrefix (lit "alse") r with
            | Some r1 => Some (JBool false, r1)
            | None => None
            end
          else if (c =? 110)%N then
            match stripPrefix (lit "ull") r with
            | Some r1 => Some (JNull, r1)
            | None => None
            end
          else
            match parseNumber (c :: r) with
            | Some (literal, r1) => Some (JNum literal, r1)
            | None => None
            end
      end
  end
with parseElements (fuel : nat) (s : jsstring) : option (list json * jsstring) :=
  match fuel with
  | O => None
  | S fuel' =>
      match parseValue fuel' s with
      | None => None
      | Some (v, r) =>
          match skipWs r with
          | c :: r' =>
              if (c =? 44)%N then
                match parseElements fuel' r' with
                | Some (vs, r1) => Some (v :: vs, r1)
                | None => None
                end
              else if (c =? 93)%N then Some ([v], r')
              else None
          | [] => None
          end
      end
  end
with parseMembers (fuel : nat) (s : jsstring) : option (list (jsstring * json) * jsstring) :=
  match fuel with
  | O => None
  | S fuel' =>
      match skipWs s with
      | c :: r =>
          if (c =? 34)%N then
            match parseStringBody r with
            | None => None
            | Some (key, r1) =>
                match skipWs r1 with
                | c1 :: r2 =>
                    if (c1 =? 58)%N then
                      match parseValue fuel' r2 with
                      | None => None
                      | Some (v, r3) =>
                          match skipWs r3 with
                          | c3 :: r4 =>
                              if (c3 =? 44)%N then
                                match parseMembers fuel' r4 with
                                | Some (ms, r5) => Some ((key, v) :: ms, r5)
                                | None => None
                                end
                              else if (c3 =? 125)%N then Some ([(key, v)], r4)
                              else None
                          | [] => None
                          end
                      end
                    else None
                | [] => None
                end
            end
          else None
      | [] => None
      end
  end.

(** [JSON.parse(text)]: a value, or a [SyntaxError]. *)
Definition parse (text : jsstring) : Result json :=
  match parseValue (2 * length text + 2) text with
  | Some (v, rest) =>
      match skipWs rest with
      | [] => Ok v
      | _ :: _ => Throw "SyntaxError"
      end
  | None => Throw "SyntaxError"
  end.

End Json.


Import Json.

(* ================================================================== *)
(** * services/stegoService.js                                          *)
(* ================================================================== *)

Module StegoService.

(** One pixel of [imageData.data]: the four bytes [pixels[i .. i+3]] for
    [i] a multiple of four.  [pixels.length] is four times the pixel count. *)
Record Pixel : Type := { red : N; green : N; blue : N; alpha : N }.

(** An uploaded or stored file: the bytes a read yields ([None]: the read
    throws) and the buffer that [loadImage], [drawImage] and [getImageData]
    yield on them ([None]: [loadImage] rejects, the bytes are no image). *)
Record File : Type := { contents : option (list N); image : option (list Pixel) }.

(** [options] of [embedData]; [decoyCount] may be [undefined]. *)
Record Options : Type := { noiseDefense : bool; decoyCount : option nat }.

(** The random sources as one call of [embedData] finds them: byte [j] of
    its [k]-th call of [crypto.randomBytes], and the base-36 digits after
    the point of its [k]-th [Math.random().toString(36)] (none when the
    draw is [0]).  Two calls of [embedData] get two such records. *)
Record Entropy : Type := { randomByte : nat -> nat -> N; randomDigits : nat -> list N }.

(** node-canvas and the temp directory as one call of [embedData] finds
    them: [writePng buffer] is the file that
    [ctx.putImageData(imageData, 0, 0)], [canvas.toBuffer('image/png')] and
    [fs.writeFileSync(outputPath, buffer)] leave at [outputPath] when
    [imageData.data] is [buffer], or the error one of the three throws.  A
    canvas keeps colour multiplied by alpha, so the file need not decode to
    the buffer it was made from. *)
Record Canvas : Type := { writePng : list Pixel -> Result File }.

(** A binary string (a string of the characters 0 and 1) is the list of
    its bits, [true] for the character 1. *)
Definition bits := list bool.

Definition bitValue (b : bool) : N := if b then 1%N else 0%N.

Fixpoint positiveBits (p : positive) : bits :=
  match p with
  | xH => [true]
  | xO q => positiveBits q ++ [false]
  | xI q => positiveBits q ++ [true]
  end.

(** [n.toString(2)] *)
Definition toString2 (n : N) : bits :=
  match n with
  | N0 => [false]
  | Npos p => positiveBits p
  end.

(** [s.padStart(len, '0')] *)
Definition padStart (len : nat) (s : bits) : bits :=
  repeat false (len - length s) ++ s.

(** [parseInt(s, 2)] on a binary string that is not empty: the integer the
    string denotes.  That is the number [parseInt] returns as long as it is
    below [2^53] (a double holds a larger one rounded); the codec parses 8
    and 32 characters. *)
Definition parseInt2 (s : bits) : N :=
  fold_left (fun acc b => (2 * acc + bitValue b)%N) s 0%N.

Definition stringToBinary (str : jsstring) : bits :=
  flat_map (fun char => padStart 8 (toString2 char)) str.

Fixpoint binaryToString (binary : bits) : jsstring :=
  match binary with
  | [] => []
  | b0 :: b1 :: b2 :: b3 :: b4 :: b5 :: b6 :: b7 :: rest =>
      parseInt2 [b0; b1; b2; b3; b4; b5; b6; b7] :: binaryToString rest
  | short => [parseInt2 short]
  end.

(** [numberToBinary(num, length)] for an integer [num] that is not
    negative (the codec passes the length of a string). *)
Definition numberToBinary (num : N) (len : nat) : bits :=
  padStart len (toString2 num).

Definition binaryToNumber (binary : bits) : N := parseInt2 binary.

(** ['1111111111111110'] *)
Definition endMarker : bits := repeat true 15 ++ [false].

(** ** The envelope *)

Definition digitChar (d : N) : N := hexDigit d.

(** [crypto.randomBytes(size)], call number [k]. *)
Definition randomBytes (ent : Entropy) (k size : nat) : list N :=
  map (fun j => (randomByte ent k j mod 256)%N) (seq 0 size).

(** [buffer.toString('hex')] *)
Definition toHex (buffer : list N) : jsstring :=
  flat_map (fun b => [digitChar (b / 16); digitChar (b mod 16)]%N) buffer.

(** [Math.random().toString(36)], call number [k]. *)
Definition randomToString36 (ent : Entropy) (k : nat) : jsstring :=
  match randomDigits ent k with
  | [] => lit "0"
  | ds => lit "0." ++ map (fun d => digitChar (d mod 36)%N) ds
  end.

(** The decoy pushed in iteration [i] of the loop. *)
Definition decoy (ent : Entropy) (i : nat) : json :=
  JObj [ (lit "type", JStr (lit "decoy"));
         (lit "fakeHash", JStr (toHex (randomBytes ent (2 * i) 32)));
         (lit "fakeSignature", JStr (toHex (randomBytes ent (2 * i + 1) 32)));
         (lit "fakeIssuer", JStr (lit "decoy-" ++ slice 2 8 (randomToString36 ent i))) ].

(** [options.decoyCount || 5] *)
Definition effectiveDecoyCount (options : Options) : nat :=
  match decoyCount options with
  | None => 5
  | Some O => 5
  | Some n => n
  end.

Definition realEntry (data : json) : json :=
  JObj [ (lit "type", JStr (lit "real")); (lit "data", data) ].

(** [payload], the object that is serialized. *)
Definition buildPayload (data : json) (options : Options) (ent : Entropy) : json :=
  if noiseDefense options then
    JObj [ (lit "mode", JStr (lit "noise"));
           (lit "entries",
             JArr (realEntry data :: map (decoy ent) (seq 0 (effectiveDecoyCount options)))) ]
  else
    JObj [ (lit "mode", JStr (lit "plain")); (lit "data", data) ].

(** ** Embedding *)

(** [(channel & 0xFE) | parseInt(bit)] *)
Definition setLsb (channel : N) (bit : bool) : N :=
  N.lor (N.land channel 254) (bitValue bit).

(** The two nested loops of [embedData]: per pixel, the bits go to the red,
    green and blue bytes in turn while bits are left; alpha is skipped. *)
Fixpoint embedLoop (pixels : list Pixel) (data : bits) : list Pixel :=
  match pixels with
  | [] => []
  | p :: rest =>
      match data with
      | [] => pixels
      | [b0] =>
          {| red := setLsb (red p) b0; green := green p; blue := blue p; alpha := alpha p |}
            :: rest
      | [b0; b1] =>
          {| red := setLsb (red p) b0; green := setLsb (green p) b1; blue := blue p;
             alpha := alpha p |} :: rest
      | b0 :: b1 :: b2 :: data' =>
          {| red := setLsb (red p) b0; green := setLsb (green p) b1;
             blue := setLsb (blue p) b2; alpha := alpha p |} :: embedLoop rest data'
      end
  end.

(** The framed bit string: length prefix, data, end marker. *)
Definition frame (dataString : jsstring) : bits :=
  numberToBinary (N.of_nat (length dataString)) 32 ++ stringToBinary dataString ++ endMarker.

Definition readFileSync (file : File) : Result (list N) :=
  match contents file with
  | Some b => Ok b
  | None => Throw "ENOENT"
  end.

Definition loadImage (file : File) : Result (list Pixel) :=
  match image file with
  | Some px => Ok px
  | None => Throw "Unsupported image type"
  end.

(** [embedData(imagePath, data, options)]: the file at the path returned,
    a new PNG under the temp directory that the canvas makes of the
    modified buffer (the upload itself is left as it is), or the error
    thrown. *)
Definition embedData (cv : Canvas) (file : File) (data : json) (options : Options)
    (ent : Entropy) : Result File :=
  tryCatch
    (_ <- readFileSync file ;;
     pixels <- loadImage file ;;
     let payload := buildPayload data options ent in
     let dataString := stringify payload in
     let fullBinaryData := frame dataString in
     if (4 * length pixels) * 3 <? length fullBinaryData
     then Throw "Data too large to embed in image"
     else writePng cv (embedLoop pixels fullBinaryData))
    (fun _ => Throw "Failed to embed data via steganography").

(** ** Extraction *)

(** [(channel & 1).toString()] *)
Definition lsb (channel : N) : bool := (N.land channel 1 =? 1)%N.

(** [a === b] on binary strings. *)
Fixpoint bitsEqb (a b : bits) : bool :=
  match a, b with
  | [], [] => true
  | x :: a', y :: b' => Bool.eqb x y && bitsEqb a' b'
  | _, _ => false
  end.

(** [binaryData.length >= 16] and the last 16 characters are the marker. *)
Definition endsWithMarker (binaryData : bits) : bool :=
  (16 <=? length binaryData) && bitsEqb (sliceLast 16 binaryData) endMarker.

(** The inner loop over the three colour bytes of one pixel: the bit string
    so far and whether the end marker was found (and removed). *)
Fixpoint channelLoop (channels : list N) (binaryData : bits) : bits * bool :=
  match channels with
  | [] => (binaryData, false)
  | c :: rest =>
      let binaryData' := binaryData ++ [lsb c] in
      if endsWithMarker binaryData' then (sliceDropLast 16 binaryData', true)
      else channelLoop rest binaryData'
  end.

(** The outer loop: it stops at the pixel where the marker is found. *)
Fixpoint extractLoop (pixels : list Pixel) (binaryData : bits) : bits * bool :=
  match pixels with
  | [] => (binaryData, false)
  | p :: rest =>
      let (binaryData', endMarkerFound) := channelLoop [red p; green p; blue p] binaryData in
      if endMarkerFound then (binaryData', true) else extractLoop rest binaryData'
  end.

(** The branches on the parsed envelope. *)
Definition isRealEntry (e : json) : bool :=
  truthy e && isString (getProp e "type") "real" && truthyProp (getProp e "data").

Definition entryData (e : json) : json :=
  match getProp e "data" with
  | Some d => d
  | None => JNull
  end.

Definition isArray (o : option json) : bool :=
  match o with
  | Some (JArr _) => true
  | _ => false
  end.

Definition arrayItems (o : option json) : list json :=
  match o with
  | Some (JArr items) => items
  | _ => []
  end.

(** [result], from the parsed text. *)
Definition selectResult (extracted : json) : json :=
  if truthy extracted && isString (getProp extracted "mode") "noise"
     && isArray (getProp extracted "entries")
  then
    match find isRealEntry (arrayItems (getProp extracted "entries")) with
    | Some real => entryData real
    | None => JNull
    end
  else if truthy extracted && isString (getProp extracted "mode") "plain"
          && truthyProp (getProp extracted "data")
  then entryData extracted
  else extracted.

(** The text between the length prefix and the end marker, when the marker
    is found behind at least 32 bits. *)
Definition embeddedText (pixels : list Pixel) : option jsstring :=
  let (binaryData, endMarkerFound) := extractLoop pixels [] in
  if negb endMarkerFound || (length binaryData <? 32) then None
  else
    let lengthBinary := slice 0 32 binaryData in
    let dataLength := binaryToNumber lengthBinary in
    let dataBinary := slice 32 (32 + N.to_nat dataLength * 8) binaryData in
    Some (binaryToString dataBinary).

(** The body of the [try] block of [extractData]. *)
Definition extractBody (file : File) : Result json :=
  _ <- readFileSync file ;;
  pixels <- loadImage file ;;
  match embeddedText pixels with
  | None => Ok JNull
  | Some dataString =>
      extracted <- Json.parse dataString ;;
      Ok (selectResult extracted)
  end.

(** [extractData(imagePath)]: what the promise resolves to. *)
Definition extractData (file : File) : Result json :=
  tryCatch (extractBody file) (fun _ => Ok JNull).

End StegoService.

Import StegoService.

(* ================================================================== *)
(** * utils/hash.js                                                     *)
(* ================================================================== *)

Module HashUtils.

(** The functions the module defines. *)
Inductive HashFunction : Type :=
| GenerateHash
| GenerateStringHash
| GenerateBufferHash
| VerifyFileIntegrity
| GenerateSaltedHash
| GenerateHMAC
| GenerateMultipleHashes
| GenerateMetadataHash
| ValidateHashFormat.

(** [module.exports]: the object [require('../utils/hash')] returns. *)
Definition moduleExports : list (string * HashFunction) :=
  [ ("generateHash", GenerateHash);
    ("generateStringHash", GenerateStringHash);
    ("generateBufferHash", GenerateBufferHash);
    ("verifyFileIntegrity", VerifyFileIntegrity);
    ("generateSaltedHash", GenerateSaltedHash);
    ("generateHMAC", GenerateHMAC);
    ("generateMultipleHashes", GenerateMultipleHashes);
    ("generateMetadataHash", GenerateMetadataHash);
    ("validateHashFormat", ValidateHashFormat) ]%string.

(** [const { name } = require('../utils/hash')]: the binding, [None] for
    [undefined]. *)
Fixpoint member (name : string) (exports : list (string * HashFunction)) : option HashFunction :=
  match exports with
  | [] => None
  | (n, f) :: rest => if String.eqb n name then Some f else member name rest
  end.

Definition required (name : string) : option HashFunction := member name moduleExports.

(** [generateHash(filePath)]: the SHA-256 of the file's bytes in hex; the
    promise rejects when the stream fails.  [sha256hex] is
    [crypto.createHash('sha256').update(bytes).digest('hex')]. *)
Definition generateHash (sha256hex : list N -> jsstring) (file : File) : Result jsstring :=
  match contents file with
  | Some data => Ok (sha256hex data)
  | None => Throw "ENOENT"
  end.

End HashUtils.

(* ================================================================== *)
(** * services/cryptoService.js                                         *)
(* ================================================================== *)

Module CryptoService.

(** A key record [storage/keys/<issuerId>.json]. *)
Record KeyData : Type := { publicKey : jsstring; privateKey : jsstring }.

(** The key directory and Node's RSA-SHA256: [keyFile id] is the record
    stored for [id], if any; signing and verifying may throw.  The message
    of the error of [getPublicKey] and [getPrivateKey] ends with the issuer
    id in the source; [signData] replaces it and the fields kept of what
    [verifySignature] returns do not hold it, so the text before the id
    stands for it here (the module [KeyStorage] has it in full). *)
Record Keys : Type := {
  keyFile : option json -> option KeyData;
  rsaSign : jsstring -> jsstring -> Result jsstring;
  rsaVerify : jsstring -> jsstring -> option json -> Result bool
}.

Definition getPublicKey (k : Keys) (issuerId : option json) : Result jsstring :=
  match keyFile k issuerId with
  | Some kd => Ok (publicKey kd)
  | None => Throw "Failed to get public key for issuer"
  end.

Definition getPrivateKey (k : Keys) (issuerId : option json) : Result jsstring :=
  match keyFile k issuerId with
  | Some kd => Ok (privateKey kd)
  | None => Throw "Failed to get private key for issuer"
  end.

(** [signData(data, issuerId)] *)
Definition signData (k : Keys) (data : jsstring) (issuerId : jsstring) : Result jsstring :=
  tryCatch
    (key <- getPrivateKey k (Some (JStr issuerId)) ;;
     rsaSign k key data)
    (fun _ => Throw "Failed to sign data").

(** [verifySignature(data, signature, issuerId)]; of the object returned,
    the fields [valid] and [issuerId]. *)
Record SignatureResult : Type := { sigValid : bool; sigIssuerId : option json }.

Definition verifySignature (k : Keys) (data : jsstring) (signature issuerId : option json)
  : SignatureResult :=
  match (publicKey <- getPublicKey k issuerId ;; rsaVerify k publicKey data signature) with
  | Ok isValid => {| sigValid := isValid; sigIssuerId := issuerId |}
  | Throw _ => {| sigValid := false; sigIssuerId := issuerId |}
  end.

End CryptoService.

(* ================================================================== *)
(** * services/blockchainService.js                                     *)
(* ================================================================== *)

Module BlockchainService.

(** The deployed contract, when one is configured. *)
Record Contract : Type := {
  contractStoreHash : jsstring -> jsstring -> Result jsstring;
  contractVerifyHash : jsstring -> Result bool;
  contractGetIssuer : jsstring -> Result jsstring
}.

(** The chain as the manager sees it: [contract] is
    [this.blockchainService.contract] (the class in [config/blockchain.js]
    sets no such field, so it is [None] unless something else provides
    one); [sendData] is the wallet's data transaction, when a wallet is
    configured; [transactionData] is [provider.getTransaction(hash).data];
    [randomHash] is ['0x' + randomBytes(32).toString('hex')]. *)
Record Chain : Type := {
  contract : option Contract;
  sendData : option (jsstring -> Result jsstring);
  transactionData : option json -> Result (option jsstring);
  randomHash : jsstring
}.

(** Of the object [verifyHash] returns, the fields the route reads. *)
Record AnchorResult : Type := {
  valid : bool;
  transactionHash : option json;
  certificateHash : jsstring;
  anchorIssuerId : option jsstring;
  simulated : bool
}.

(** ASCII lower case, which is [toLowerCase] on a hex string. *)
Definition toLowerCase (s : jsstring) : jsstring :=
  map (fun c => if ((65 <=? c) && (c <=? 90))%N then (c + 32)%N else c) s.

Definition startsWith0x (s : jsstring) : bool :=
  match s with
  | a :: b :: _ => ((a =? 48) && (b =? 120))%N
  | _ => false
  end.

Definition simulateBlockchainVerification (ch : Chain) (transactionHash : option json)
    (expectedHash : jsstring) : AnchorResult :=
  {| valid := true;
     transactionHash :=
       if truthyProp transactionHash then transactionHash else Some (JStr (randomHash ch));
     certificateHash := expectedHash;
     anchorIssuerId := Some (lit "demo-issuer");
     simulated := true |}.

Definition getHashFromChain (ch : Chain) (transactionHash : option json)
  : Result (option jsstring) :=
  transactionData ch transactionHash.

Definition hasContract (ch : Chain) : bool :=
  match contract ch with
  | Some _ => true
  | None => false
  end.

(** The statements after the two [if]s of [verifyHash], "Data-transaction
    path" in the source. *)
Definition dataTransactionPath (ch : Chain) (transactionHash : option json)
    (expectedHash : jsstring) : Result AnchorResult :=
  data <- getHashFromChain ch transactionHash ;;
  let normalizedExpected :=
    if startsWith0x expectedHash then toLowerCase expectedHash
    else toLowerCase (lit "0x" ++ expectedHash) in
  let isValid :=
    match data with
    | Some d => negb (Nat.eqb (length d) 0) && Js.eqb (toLowerCase d) normalizedExpected
    | None => false
    end in
  Ok {| valid := isValid; transactionHash := transactionHash;
        certificateHash := expectedHash;
        anchorIssuerId := if isValid then Some (lit "self") else None;
        simulated := false |}.

(** [verifyHash(transactionHash, expectedHash)]: [if (!contract)], then
    [if (contract)], then the data-transaction path, inside a [try] whose
    [catch] falls back to the simulation. *)
Definition verifyHash (ch : Chain) (transactionHash : option json) (expectedHash : jsstring)
  : AnchorResult :=
  let body : Result AnchorResult :=
    if negb (hasContract ch) then
      Ok (simulateBlockchainVerification ch transactionHash expectedHash)
    else
      match contract ch with
      | Some c =>
          isValid <- contractVerifyHash c expectedHash ;;
          issuerId <- contractGetIssuer c expectedHash ;;
          Ok {| valid := isValid; transactionHash := transactionHash;
                certificateHash := expectedHash; anchorIssuerId := Some issuerId;
                simulated := false |}
      | None => dataTransactionPath ch transactionHash expectedHash
      end in
  match body with
  | Ok r => r
  | Throw _ => simulateBlockchainVerification ch transactionHash expectedHash
  end.

(** [storeHashOnChain(hexHash)]: the transaction hash. *)
Definition storeHashOnChain (ch : Chain) (hexHash : jsstring) : Result jsstring :=
  match sendData ch with
  | None => Ok (randomHash ch)
  | Some send => send hexHash
  end.

(** [storeHash(hash, issuerId)]: of the object returned, [transactionHash]. *)
Definition storeHash (ch : Chain) (hash issuerId : jsstring) : jsstring :=
  let body :=
    match contract ch with
    | Some c => contractStoreHash c hash issuerId
    | None =>
        let hexHash := if startsWith0x hash then hash else lit "0x" ++ hash in
        storeHashOnChain ch hexHash
    end in
  match body with
  | Ok tx => tx
  | Throw _ => randomHash ch
  end.

End BlockchainService.

(* ================================================================== *)
(** * routes/verify.js and routes/issue.js                              *)
(* ================================================================== *)

Module Routes.

Import HashUtils CryptoService BlockchainService.

(** What the handlers use and the repository does not define. *)
Record Platform : Type := {
  sha256hex : list N -> jsstring;
  keys : Keys;
  chain : Chain;
  entropy : Entropy;
  canvas : Canvas;
  (** [new Date().toISOString()] *)
  now : jsstring;
  (** a call [f(a, b)] of a function of [utils/hash] on two strings *)
  applyHash : HashFunction -> jsstring -> jsstring -> Result jsstring
}.

(** The collaborator calls a handler makes, in order. *)
Inductive Call : Type :=
| CallGenerateHash
| CallExtractData
| CallVerifyHash (transactionHash : option json) (expectedHash : jsstring)
| CallVerifySignature (data : jsstring) (signature issuerId : option json).

(** ** POST /api/verify/certificate *)

(** [verificationDetails] of the response. *)
Record VerificationDetails : Type := {
  detailCertificateHash : jsstring;
  detailTransactionHash : option json;
  detailIssuerId : option json;
  detailIssuedAt : option json;
  blockchainVerified : bool;
  signatureVerified : bool;
  hasEmbeddedData : bool
}.

Inductive VerifyResponse : Type :=
| VerifyBadRequest (error : string)
| VerifyBody (success isValid : bool) (message : string) (details : VerificationDetails)
    (blockchainDetails : option AnchorResult) (signatureDetails : option SignatureResult)
| VerifyServerError (error message : string).

(** The response of the branch [if (!embeddedData)]. *)
Definition noEmbeddedData (certificateHash : jsstring) : VerifyResponse :=
  VerifyBody false false "No embedded verification data found in certificate"
    {| detailCertificateHash := certificateHash;
       detailTransactionHash := None;
       detailIssuerId := None;
       detailIssuedAt := None;
       blockchainVerified := false;
       signatureVerified := false;
       hasEmbeddedData := false |}
    None None.

(** The handler: the response and the calls made. *)
Definition verifyCertificate (pf : Platform) (certificateFile : option File)
  : VerifyResponse * list Call :=
  match certificateFile with
  | None => (VerifyBadRequest "No certificate file provided", [])
  | Some file =>
      match generateHash (sha256hex pf) file with
      | Throw m => (VerifyServerError "Failed to verify certificate" m, [CallGenerateHash])
      | Ok certificateHash =>
          match extractData file with
          | Throw m =>
              (VerifyServerError "Failed to verify certificate" m,
               [CallGenerateHash; CallExtractData])
          | Ok embeddedData =>
              if negb (truthy embeddedData) then
                (noEmbeddedData certificateHash, [CallGenerateHash; CallExtractData])
              else
                let transactionHash := getProp embeddedData "transactionHash" in
                let signature := getProp embeddedData "signature" in
                let issuerId := getProp embeddedData "issuerId" in
                let blockchainVerification :=
                  verifyHash (chain pf) transactionHash certificateHash in
                let signatureVerification :=
                  verifySignature (keys pf) certificateHash signature issuerId in
                let isValid := valid blockchainVerification && sigValid signatureVerification in
                (VerifyBody true isValid
                   (if isValid then "Certificate is valid and authentic"
                    else "Certificate verification failed")
                   {| detailCertificateHash := certificateHash;
                      detailTransactionHash := transactionHash;
                      detailIssuerId := issuerId;
                      detailIssuedAt := getProp embeddedData "timestamp";
                      blockchainVerified := valid blockchainVerification;
                      signatureVerified := sigValid signatureVerification;
                      hasEmbeddedData := true |}
                   (Some blockchainVerification) (Some signatureVerification),
                 [CallGenerateHash; CallExtractData;
                  CallVerifyHash transactionHash certificateHash;
                  CallVerifySignature certificateHash signature issuerId])
          end
      end
  end.

(** ** POST /api/issue/certificate *)

(** The multipart request: body fields ([None]: absent), the uploaded file,
    whether it is a PDF, and the authority found in the registry for
    [issuerNameSelected], if any. *)
Record IssueRequest : Type := {
  issuerId : option jsstring;
  issuerName : option jsstring;
  recipientName : option jsstring;
  certificateType : option jsstring;
  noiseDefenseField : option jsstring;
  certificate : option File;
  isPdf : bool;
  authorityName : option jsstring
}.

(** The record that is embedded. *)
Record CanonicalPayload : Type := {
  payloadTransactionHash : jsstring;
  payloadSignature : jsstring;
  payloadCertificateHash : jsstring;
  payloadCombinedHash : jsstring;
  payloadIssuerId : jsstring;
  payloadTimestamp : jsstring
}.

(** The object literal [payload] of the handler. *)
Definition payloadJson (p : CanonicalPayload) : json :=
  JObj [ (lit "transactionHash", JStr (payloadTransactionHash p));
         (lit "signature", JStr (payloadSignature p));
         (lit "certificateHash", JStr (payloadCertificateHash p));
         (lit "combinedHash", JStr (payloadCombinedHash p));
         (lit "issuerId", JStr (payloadIssuerId p));
         (lit "timestamp", JStr (payloadTimestamp p)) ].

Inductive IssueResponse : Type :=
| IssueBadRequest (error : string)
| IssueOk (payload : CanonicalPayload) (embedded : File) (noise : bool)
| IssueServerError (error message : string).

(** [!field] for a body field. *)
Definition missing (field : option jsstring) : bool :=
  match field with
  | Some (_ :: _) => false
  | _ => true
  end.

Definition fieldText (field : option jsstring) : jsstring :=
  match field with
  | Some s => s
  | None => []
  end.

(** [generateCombinedHash(certificateHash, signature)] with the binding the
    destructuring of [require('../utils/hash')] gives. *)
Definition callGenerateCombinedHash (pf : Platform) (certificateHash signature : jsstring)
  : Result jsstring :=
  match required "generateCombinedHash" with
  | Some f => applyHash pf f certificateHash signature
  | None => Throw "generateCombinedHash is not a function"
  end.

(** [embedDataInPDF]: the file is copied, nothing is embedded. *)
Definition embedDataInPDF (file : File) : Result File :=
  _ <- readFileSync file ;; Ok file.

Definition issueCertificate (pf : Platform) (req : IssueRequest) : IssueResponse :=
  let noise := Js.eqb (match noiseDefenseField req with
                       | Some (c :: s) => c :: s
                       | _ => lit "false"
                       end) (lit "true") in
  match certificate req with
  | None => IssueBadRequest "No certificate file provided"
  | Some file =>
      if missing (issuerId req) || missing (issuerName req) || missing (recipientName req)
         || missing (certificateType req)
      then IssueBadRequest
             "Missing required fields: issuerId, issuerName, recipientName, certificateType"
      else
        let body : Result IssueResponse :=
          certificateHash <- generateHash (sha256hex pf) file ;;
          let signerId :=
            match authorityName req with
            | Some name => name
            | None => fieldText (issuerId req)
            end in
          signature <- signData (keys pf) certificateHash signerId ;;
          combinedHash <- callGenerateCombinedHash pf certificateHash signature ;;
          let transactionHash := storeHash (chain pf) combinedHash (fieldText (issuerId req)) in
          let payload :=
            {| payloadTransactionHash := transactionHash;
               payloadSignature := signature;
               payloadCertificateHash := certificateHash;
               payloadCombinedHash := combinedHash;
               payloadIssuerId := signerId;
               payloadTimestamp := now pf |} in
          embedded <-
            (if isPdf req then embedDataInPDF file
             else
               embedData (canvas pf) file (payloadJson payload)
                 {| noiseDefense := noise; decoyCount := None |} (entropy pf)) ;;
          Ok (IssueOk payload embedded noise) in
        match body with
        | Ok response => response
        | Throw m => IssueServerError "Failed to issue certificate" m
        end
  end.

End Routes.

(* ================================================================== *)
(** * Sample inputs                                                     *)
(* ================================================================== *)

Module Samples.

Import HashUtils CryptoService BlockchainService Routes.

Definition white : Pixel := {| red := 255; green := 255; blue := 255; alpha := 255 |}.

(** A readable image of [n] white pixels. *)
Definition blank (n : nat) : File :=
  {| contents := Some [137; 80; 78; 71]%N; image := Some (repeat white n) |}.

(** A stored file with the given decoded buffer. *)
Definition stored (pixels : list Pixel) : File :=
  {| contents := Some [137; 80; 78; 71]%N; image := Some pixels |}.

(** Colour as a canvas keeps it for a pixel of alpha [a]: multiplied by
    alpha and rounded down on the way in, divided by alpha and rounded to
    the nearest on the way out; nothing is left of it at alpha 0. *)
Definition throughAlpha (a c : N) : N :=
  (if a =? 0 then 0 else N.min 255 ((c * a / 255 * 255 + a / 2) / a))%N.

Definition throughCanvas (p : Pixel) : Pixel :=
  {| red := throughAlpha (alpha p) (red p);
     green := throughAlpha (alpha p) (green p);
     blue := throughAlpha (alpha p) (blue p);
     alpha := alpha p |}.

(** A canvas that writes every buffer, with its colour taken through
    alpha: an opaque pixel is stored as it is, a translucent one is not. *)
Definition alphaCanvas : Canvas :=
  {| writePng := fun buffer => Ok (stored (map throughCanvas buffer)) |}.

(** A readable file that is no image. *)
Definition corrupt : File := {| contents := Some [1; 2; 3]%N; image := None |}.

Definition entropyA : Entropy :=
  {| randomByte := fun k j => N.of_nat (k * 37 + j * 11);
     randomDigits := fun k => [1; 2; 3; 40; 5; 6; 7; 8]%N |}.

Definition entropyB : Entropy :=
  {| randomByte := fun k j => N.of_nat (k * 5 + j * 3 + 7);
     randomDigits := fun k => [35; 0]%N |}.

Definition plainMode : Options := {| noiseDefense := false; decoyCount := None |}.
Definition noiseMode : Options := {| noiseDefense := true; decoyCount := None |}.

Definition payload : CanonicalPayload :=
  {| payloadTransactionHash := lit "0x5e1f";
     payloadSignature := lit "c2lnbmF0dXJl";
     payloadCertificateHash := lit "ab12";
     payloadCombinedHash := lit "cd34";
     payloadIssuerId := lit "univ-1";
     payloadTimestamp := lit "2024-01-01T00:00:00.000Z" |}.

(** A stand-in for SHA-256 in the samples: sum and count of the bytes, in
    hex. *)
Definition checksum (data : list N) : jsstring :=
  toHex [ (fold_right N.add 0 data mod 256)%N; (N.of_nat (length data) mod 256)%N ].

(** A platform with no contract, no wallet and no keys. *)
Definition platform : Platform :=
  {| sha256hex := checksum;
     keys := {| keyFile := fun _ => None;
                rsaSign := fun _ _ => Throw "no key";
                rsaVerify := fun _ _ _ => Ok false |};
     chain := {| contract := None; sendData := None;
                 transactionData := fun _ => Ok None;
                 randomHash := lit "0x00" |};
     entropy := entropyA;
     canvas := alphaCanvas;
     now := lit "2024-01-01T00:00:00.000Z";
     applyHash := fun _ _ _ => Throw "not called" |}.

End Samples.

(* ================================================================== *)
(** * Vocabulary of the properties                                      *)
(* ================================================================== *)

Import HashUtils CryptoService BlockchainService Routes.

Module Spec.

(** ** Outcomes of the verification handler *)

(** The terminal state a response stands for: a 500 is [Faulted], a body
    with [valid: true] is [Valid], any other body is [Invalid]. *)
Inductive Outcome : Type := Valid | Invalid | Faulted | Rejected.

Definition outcome (r : VerifyResponse) : Outcome :=
  match r with
  | VerifyBadRequest _ => Rejected
  | VerifyBody _ true _ _ _ _ => Valid
  | VerifyBody _ false _ _ _ _ => Invalid
  | VerifyServerError _ _ => Faulted
  end.

(** A later stage (anchor or signature check) was attempted. *)
Definition isLaterStage (c : Call) : bool :=
  match c with
  | CallVerifyHash _ _ => true
  | CallVerifySignature _ _ _ => true
  | _ => false
  end.

(** The expected hash of an anchor call. *)
Definition anchorArgument (c : Call) : option jsstring :=
  match c with
  | CallVerifyHash _ expectedHash => Some expectedHash
  | _ => None
  end.

(** ** Envelopes *)

(** The entries of a noise envelope. *)
Definition envelopeEntries (envelope : json) : list json :=
  arrayItems (getProp envelope "entries").

Definition hasTag (tag : string) (e : json) : bool := isString (getProp e "type") tag.

(** Position of the first entry tagged real. *)
Fixpoint realPosition (entries : list json) : option nat :=
  match entries with
  | [] => None
  | e :: rest => if hasTag "real" e then Some 0 else option_map S (realPosition rest)
  end.

(** The keys of an object, in order. *)
Definition keysOf (v : json) : list jsstring :=
  match v with
  | JObj members => map fst members
  | _ => []
  end.

(** The length of a string-valued property, when there is one. *)
Definition propLength (v : json) (key : string) : option nat :=
  match getProp v key with
  | Some (JStr s) => Some (length s)
  | _ => None
  end.

Definition isHexChar (c : N) : bool :=
  (((48 <=? c) && (c <=? 57)) || ((97 <=? c) && (c <=? 102)))%N.

Definition isBase36Char (c : N) : bool :=
  (((48 <=? c) && (c <=? 57)) || ((97 <=? c) && (c <=? 122)))%N.

(** ** Texts and values the codec carries *)

(** Every code unit is below [bound]. *)
Definition charsBelow (bound : N) (s : jsstring) : bool :=
  forallb (fun c => (c <? bound)%N) s.

(** One byte per character. *)
Definition isLatin1 (s : jsstring) : bool := charsBelow 256 s.

Definition isAscii (s : jsstring) : bool := charsBelow 128 s.

(** A value without numbers whose strings and keys are below [bound]. *)
Fixpoint jsonBelow (bound : N) (v : json) : bool :=
  match v with
  | JNull => true
  | JBool _ => true
  | JNum _ => false
  | JStr s => charsBelow bound s
  | JArr items => forallb (jsonBelow bound) items
  | JObj members =>
      forallb (fun kv => charsBelow bound (fst kv) && jsonBelow bound (snd kv)) members
  end.

(** Every field of the payload is below [bound]. *)
Definition payloadBelow (bound : N) (p : CanonicalPayload) : bool :=
  charsBelow bound (payloadTransactionHash p) && charsBelow bound (payloadSignature p)
  && charsBelow bound (payloadCertificateHash p) && charsBelow bound (payloadCombinedHash p)
  && charsBelow bound (payloadIssuerId p) && charsBelow bound (payloadTimestamp p).

(** The first character of a serialized value: no white space, no closing
    bracket. *)
Definition startsValue (text : jsstring) : Prop :=
  exists c tl, text = c :: tl /\ isWhitespace c = false /\ (c =? 93)%N = false.

(** Parsing the text of [v] followed by [rest] gives [v] and [rest]. *)
Definition roundTrips (v : json) : Prop :=
  forall fuel rest,
    2 * length (stringify v ++ rest) + 1 <= fuel ->
    parseValue fuel (stringify v ++ rest) = Some (v, rest).

(** One member of an object as [JSON.stringify] writes it. *)
Definition memberText (kv : jsstring * json) : jsstring :=
  quote (fst kv) ++ 58%N :: stringify (snd kv).

(** ** The parser, one step at a time *)

(** One step of [parseValue], the two recursive calls as parameters. *)
Definition valueStep
    (elements : jsstring -> option (list json * jsstring))
    (members : jsstring -> option (list (jsstring * json) * jsstring))
    (s : jsstring) : option (json * jsstring) :=
  match skipWs s with
  | [] => None
  | c :: r =>
      if (c =? 123)%N then
        match skipWs r with
        | c' :: r' =>
            if (c' =? 125)%N then Some (JObj [], r')
            else
              match members r with
              | Some (ms, r1) => Some (JObj ms, r1)
              | None => None
              end
        | [] => None
        end
      else if (c =? 91)%N then
        match skipWs r with
        | c' :: r' =>
            if (c' =? 93)%N then Some (JArr [], r')
            else
              match elements r with
              | Some (vs, r1) => Some (JArr vs, r1)
              | None => None
              end
        | [] => None
        end
      else if (c =? 34)%N then
        match parseStringBody r with
        | Some (str, r1) => Some (JStr str, r1)
        | None => None
        end
      else if (c =? 116)%N then
        match stripPrefix (lit "rue") r with
        | Some r1 => Some (JBool true, r1)
        | None => None
        end
      else if (c =? 102)%N then
        match stripPrefix (lit "alse") r with
        | Some r1 => Some (JBool false, r1)
        | None => None
        end
      else if (c =? 110)%N then
        match stripPrefix (lit "ull") r with
        | Some r1 => Some (JNull, r1)
        | None => None
        end
      else
        match parseNumber (c :: r) with
        | Some (literal, r1) => Some (JNum literal, r1)
        | None => None
        end
  end.

(** One step of [parseElements]. *)
Definition elementsStep
    (value : jsstring -> option (json * jsstring))
    (elements : jsstring -> option (list json * jsstring))
    (s : jsstring) : option (list json * jsstring) :=
  match value s with
  | None => None
  | Some (v, r) =>
      match skipWs r with
      | c :: r' =>
          if (c =? 44)%N then
            match elements r' with
            | Some (vs, r1) => Some (v :: vs, r1)
            | None => None
            end
          else if (c =? 93)%N then Some ([v], r')
          else None
      | [] => None
      end
  end.

(** One step of [parseMembers]. *)
Definition membersStep
    (value : jsstring -> option (json * jsstring))
    (members : jsstring -> option (list (jsstring * json) * jsstring))
    (s : jsstring) : option (list (jsstring * json) * jsstring) :=
  match skipWs s with
  | c :: r =>
      if (c =? 34)%N then
        match parseStringBody r with
        | None => None
        | Some (key, r1) =>
            match skipWs r1 with
            | c1 :: r2 =>
                if (c1 =? 58)%N then
                  match value r2 with
                  | None => None
                  | Some (v, r3) =>
                      match skipWs r3 with
                      | c3 :: r4 =>
                          if (c3 =? 44)%N then
                            match members r4 with
                            | Some (ms, r5) => Some ((key, v) :: ms, r5)
                            | None => None
                            end
                          else if (c3 =? 125)%N then Some ([(key, v)], r4)
                          else None
                      | [] => None
                      end
                  end
                else None
            | [] => None
            end
        end
      else None
  | [] => None
  end.

(** What a parser leaves is shorter than what it was given. *)
Definition consumes {A} (p : jsstring -> option (A * jsstring)) : Prop :=
  forall s x r, p s = Some (x, r) -> length r < length s.

(** ** Bit streams *)

(** The low bits of the colour bytes, in the order both loops visit them. *)
Definition channelBits (pixels : list Pixel) : bits :=
  flat_map (fun p => [lsb (red p); lsb (green p); lsb (blue p)]) pixels.

(** The extraction loops over a flat stream of low bits. *)
Fixpoint scanBits (stream : bits) (binaryData : bits) : bits * bool :=
  match stream with
  | [] => (binaryData, false)
  | b :: rest =>
      let binaryData' := binaryData ++ [b] in
      if endsWithMarker binaryData' then (sliceDropLast 16 binaryData', true)
      else scanBits rest binaryData'
  end.

(** No proper prefix of the frame ends with the end marker. *)
Definition markerOnlyAtEnd (full : bits) : bool :=
  forallb (fun k => negb (endsWithMarker (firstn k full))) (seq 1 (length full - 1)).

(** No fifteen consecutive ones, [run] ones having just been read. *)
Fixpoint safeRun (run : nat) (l : bits) : bool :=
  match l with
  | [] => true
  | true :: l' => (S run <? 15) && safeRun (S run) l'
  | false :: l' => safeRun 0 l'
  end.

(** The bits [embedData] needs for a text of [L] characters. *)
Definition requiredBits (L : nat) : nat := 32 + 8 * L + 16.

(** Bits a carrier can hold: one per colour byte. *)
Definition capacity (pixels : list Pixel) : nat := 3 * length pixels.

(** ** Carriers and the canvas *)

(** A pixel of an opaque image as [getImageData] yields it: four bytes,
    the alpha byte 255. *)
Definition opaquePixel (p : Pixel) : Prop :=
  (red p < 256)%N /\ (green p < 256)%N /\ (blue p < 256)%N /\ alpha p = 255%N.

(** The canvas writes an opaque image as it is (colour times alpha 255 is
    the colour, and PNG loses nothing): the file made of a buffer that is
    not empty and whose pixels are all opaque can be read and decodes to
    that buffer. *)
Definition keepsOpaque (cv : Canvas) : Prop :=
  forall buffer : list Pixel,
    buffer <> [] ->
    Forall opaquePixel buffer ->
    exists bytes,
      writePng cv buffer = Ok {| contents := Some bytes; image := Some buffer |}.

(** [extractData] on the path that [embedData] returned. *)
Definition embedThenExtract (cv : Canvas) (file : File) (data : json) (options : Options)
    (ent : Entropy) : Result json :=
  written <- embedData cv file data options ent ;;
  extractData written.

(** ** More sample inputs *)

(** A payload whose signature has the length of a base64 RSA-2048
    signature (344 characters). *)
Definition signedPayload : CanonicalPayload :=
  {| payloadTransactionHash := lit "0x5e1f";
     payloadSignature := repeat 65%N 344;
     payloadCertificateHash := repeat 97%N 64;
     payloadCombinedHash := repeat 98%N 64;
     payloadIssuerId := lit "univ-1";
     payloadTimestamp := lit "2024-01-01T00:00:00.000Z" |}.

(** An issuer id of two CJK characters (code units 0x5927, 0x5B66). *)
Definition unicodePayload : CanonicalPayload :=
  {| payloadTransactionHash := lit "0x5e1f";
     payloadSignature := lit "c2lnbmF0dXJl";
     payloadCertificateHash := lit "ab12";
     payloadCombinedHash := lit "cd34";
     payloadIssuerId := [22823; 23398]%N;
     payloadTimestamp := lit "2024-01-01T00:00:00.000Z" |}.

(** An issuer id of the two Latin-1 characters 0xFF, 0xFE. *)
Definition markerPayload : CanonicalPayload :=
  {| payloadTransactionHash := lit "0x5e1f";
     payloadSignature := lit "c2lnbmF0dXJl";
     payloadCertificateHash := lit "ab12";
     payloadCombinedHash := lit "cd34";
     payloadIssuerId := [255; 254]%N;
     payloadTimestamp := lit "2024-01-01T00:00:00.000Z" |}.

(** A noise envelope with two entries tagged real. *)
Definition twoRealEnvelope : json :=
  JObj [ (lit "mode", JStr (lit "noise"));
         (lit "entries",
           JArr [ realEntry (JObj [(lit "issuerId", JStr (lit "first"))]);
                  realEntry (JObj [(lit "issuerId", JStr (lit "second"))]) ]) ].

(** A carrier that holds the frame of that envelope. *)
Definition twoRealCarrier : File :=
  Samples.stored (embedLoop (repeat Samples.white 400) (frame (stringify twoRealEnvelope))).

(** A carrier that holds the sample payload in plain mode. *)
Definition sampleCarrier : File :=
  Samples.stored
    (embedLoop (repeat Samples.white 600)
       (frame (stringify (buildPayload (payloadJson Samples.payload) Samples.plainMode
                            Samples.entropyA)))).

(** A frame that declares 100 characters and holds two. *)
Definition truncatedFrame : bits :=
  numberToBinary 100 32 ++ stringToBinary (lit "{}") ++ endMarker.

(** A plain envelope whose text holds the byte 0xFF. *)
Definition latin1Data : json := JObj [(lit "issuerId", JStr [255%N])].

End Spec.

Import Spec.

(* ================================================================== *)
(** * utils/hash.js: the other helpers                                  *)
(* ================================================================== *)

Module HashHelpers.

(** ** verifyFileIntegrity *)

(** Of the object returned: [valid], [actualHash] ([None] for [null]) and
    [error] (absent when the hash could be computed). *)
Record Integrity : Type := {
  integrityValid : bool;
  actualHash : option jsstring;
  integrityError : option string
}.

(** [verifyFileIntegrity(filePath, expectedHash)]: [actualHash ===
    expectedHash] inside a [try] whose [catch] reports the file invalid. *)
Definition verifyFileIntegrity (sha256hex : list N -> jsstring) (file : File)
    (expectedHash : jsstring) : Integrity :=
  match generateHash sha256hex file with
  | Ok actual =>
      {| integrityValid := Js.eqb actual expectedHash;
         actualHash := Some actual;
         integrityError := None |}
  | Throw m =>
      {| integrityValid := false; actualHash := None; integrityError := Some m |}
  end.

(** ** validateHashFormat *)

(** What [patterns[key]] yields when it is not [undefined]: one of the three
    expressions of the literal, or a value the literal inherits from
    [Object.prototype], which has no [test] method. *)
Inductive PatternValue : Type :=
| HexPattern (count : nat)
| Inherited.

(** [patterns[key]] for a key in lower case.  The three own properties are
    [sha256], [sha1] and [md5]; of the properties of [Object.prototype] the
    two whose names have no capital letter are [constructor] (the function
    [Object]) and [__proto__] (the prototype itself), both truthy. *)
Definition patterns (key : jsstring) : option PatternValue :=
  if Js.eqb key (lit "sha256") then Some (HexPattern 64)
  else if Js.eqb key (lit "sha1") then Some (HexPattern 40)
  else if Js.eqb key (lit "md5") then Some (HexPattern 32)
  else if Js.eqb key (lit "constructor") || Js.eqb key (lit "__proto__") then Some Inherited
  else None.

(** A character the class [a-f0-9] matches under the flag [i]. *)
Definition isHexAnyCase (c : N) : bool :=
  (((48 <=? c) && (c <=? 57)) || ((97 <=? c) && (c <=? 102))
   || ((65 <=? c) && (c <=? 70)))%N.

(** [pattern.test(hash)] for the expression with [count] repetitions: the
    whole string is [count] characters of the class. *)
Definition testPattern (count : nat) (hash : jsstring) : bool :=
  Nat.eqb (length hash) count && forallb isHexAnyCase hash.

Record HashFormat : Type := {
  formatValid : bool;
  formatHash : jsstring;
  formatAlgorithm : jsstring;
  expectedLength : nat;
  actualLength : nat
}.

(** [validateHashFormat(hash, algorithm = 'sha256')].  [toLowerCase] is
    the ASCII one: a character outside ASCII has no lower case among the
    letters of the five keys above, so the lookup is the same. *)
Definition validateHashFormat (hash : jsstring) (algorithm : option jsstring)
  : Result HashFormat :=
  let algorithm := match algorithm with Some a => a | None => lit "sha256" end in
  isValid <-
    match patterns (toLowerCase algorithm) with
    | Some (HexPattern count) => Ok (testPattern count hash)
    | Some Inherited => Throw "pattern.test is not a function"
    | None => Ok false
    end ;;
  Ok {| formatValid := isValid;
        formatHash := hash;
        formatAlgorithm := algorithm;
        expectedLength :=
          if Js.eqb algorithm (lit "sha256") then 64
          else if Js.eqb algorithm (lit "sha1") then 40 else 32;
        actualLength := length hash |}.

(** ** generateMetadataHash *)

(** [a < b] on strings: code unit by code unit, a proper prefix first.  It
    is the order of [Array.prototype.sort] without a comparator. *)
Fixpoint ltb (a b : jsstring) : bool :=
  match a, b with
  | _, [] => false
  | [], _ :: _ => true
  | x :: a', y :: b' => (x <? y)%N || ((x =? y)%N && ltb a' b')
  end.

(** [key] put before the first item that is not smaller. *)
Fixpoint insert (key : jsstring) (keys : list jsstring) : list jsstring :=
  match keys with
  | [] => [key]
  | k :: rest => if ltb k key then k :: insert key rest else key :: keys
  end.

(** [keys.sort()]: the keys in ascending order. *)
Definition sort (keys : list jsstring) : list jsstring := fold_right insert [] keys.

(** [Object.keys(metadata)]: every own key once.  The order in which the
    engine lists them is not kept, the list is sorted next. *)
Fixpoint objectKeys (members : list (jsstring * json)) : list jsstring :=
  match members with
  | [] => []
  | (k, _) :: rest =>
      if existsb (Js.eqb k) (map fst rest) then objectKeys rest else k :: objectKeys rest
  end.

(** What [Object.prototype] serializes to under a property list that holds
    [__proto__]: its other properties are functions and are left out, its
    own prototype is [null]. *)
Definition objectPrototypeText : jsstring :=
  123%N :: quote (lit "__proto__") ++ lit ":null}".

(** [JSON.stringify(value, propertyList)]: of an object, at every depth,
    the properties listed, in the order of the list.  A listed key the
    object does not have is read through the prototype chain: that is a
    function or [undefined], and left out, except for [__proto__]. *)
Fixpoint stringifyWith (propertyList : list jsstring) (v : json) : jsstring :=
  match v with
  | JArr items => 91%N :: joinComma (map (stringifyWith propertyList) items) ++ [93%N]
  | JObj members =>
      123%N ::
        joinComma
          (flat_map
             (fun key =>
                match
                  (fix get (ms : list (jsstring * json)) : option jsstring :=
                     match ms with
                     | [] => None
                     | (k, x) :: rest =>
                         match get rest with
                         | Some text => Some text
                         | None =>
                             if Js.eqb k key then Some (stringifyWith propertyList x)
                             else None
                         end
                     end) members
                with
                | Some text => [quote key ++ 58%N :: text]
                | None =>
                    if Js.eqb key (lit "__proto__")
                    then [quote key ++ 58%N :: objectPrototypeText]
                    else []
                end)
             propertyList)
        ++ [125%N]
  | other => stringify other
  end.

(** The text of the property [key] of an object, as a list of none or one:
    one iteration of the loop over the property list. *)
Definition propertyText (propertyList : list jsstring) (members : list (jsstring * json))
    (key : jsstring) : list jsstring :=
  match lookupLast key members with
  | Some x => [quote key ++ 58%N :: stringifyWith propertyList x]
  | None =>
      if Js.eqb key (lit "__proto__") then [quote key ++ 58%N :: objectPrototypeText]
      else []
  end.

(** [generateStringHash(data)]; [stringDigest] is
    [crypto.createHash('sha256').update(data).digest('hex')] on a string. *)
Definition generateStringHash (stringDigest : jsstring -> jsstring) (data : jsstring)
  : jsstring :=
  stringDigest data.

(** [JSON.stringify(metadata, Object.keys(metadata).sort())] *)
Definition metadataString (metadata : list (jsstring * json)) : jsstring :=
  stringifyWith (sort (objectKeys metadata)) (JObj metadata).

(** [generateMetadataHash(metadata)] for an object [metadata] of JSON
    values. *)
Definition generateMetadataHash (stringDigest : jsstring -> jsstring)
    (metadata : list (jsstring * json)) : jsstring :=
  generateStringHash stringDigest (metadataString metadata).

End HashHelpers.

(* ================================================================== *)
(** * services/blockchainService.js: lookup by hash                     *)
(* ================================================================== *)

Module BlockchainQueries.

(** The three objects [verifyHashByHash] can return. *)
Inductive HashVerification : Type :=
| Simulated (result : AnchorResult)
| OnChain (isValid : bool) (certificateHash issuerId : jsstring)
| LookupFailed (certificateHash : jsstring) (error : string).

(** The field [valid]. *)
Definition lookupValid (v : HashVerification) : bool :=
  match v with
  | Simulated result => valid result
  | OnChain isValid _ _ => isValid
  | LookupFailed _ _ => false
  end.

(** [verifyHashByHash(hash)]: the simulation (with [null] for the
    transaction hash) when no contract is configured, else the two
    contract calls, inside a [try] whose [catch] reports [valid: false]. *)
Definition verifyHashByHash (ch : Chain) (hash : jsstring) : HashVerification :=
  let body : Result HashVerification :=
    match contract ch with
    | None => Ok (Simulated (simulateBlockchainVerification ch (Some JNull) hash))
    | Some c =>
        isValid <- contractVerifyHash c hash ;;
        issuerId <- contractGetIssuer c hash ;;
        Ok (OnChain isValid hash issuerId)
    end in
  match body with
  | Ok r => r
  | Throw m => LookupFailed hash m
  end.

(** ** GET /api/verify/hash/:hash *)

Inductive HashResponse : Type :=
| HashBadRequest (error : string)
| HashBody (isValid : bool) (message : string) (blockchainDetails : HashVerification).

(** The handler of [router.get('/hash/:hash')].  [verifyHashByHash] does
    not throw, so the [catch] of the handler is never entered. *)
Definition verifyByHash (ch : Chain) (hash : jsstring) : HashResponse :=
  if Nat.eqb (length hash) 0 || negb (Nat.eqb (length hash) 64) then
    HashBadRequest "Invalid hash format. Hash must be 64 characters long."
  else
    let blockchainVerification := verifyHashByHash ch hash in
    HashBody (lookupValid blockchainVerification)
      (if lookupValid blockchainVerification then "Hash found on blockchain"
       else "Hash not found on blockchain")
      blockchainVerification.

End BlockchainQueries.

(* ================================================================== *)
(** * services/cryptoService.js: the key files                          *)
(* ================================================================== *)

Module KeyStorage.

(** ** JSON.stringify(value, null, 2) *)

(** Items separated by a comma and a line break, each on a line that
    starts with [indent]. *)
Fixpoint joinLines (indent : jsstring) (parts : list jsstring) : jsstring :=
  match parts with
  | [] => []
  | [p] => p
  | p :: rest => p ++ 44%N :: 10%N :: indent ++ joinLines indent rest
  end.

(** [JSON.stringify(value, null, gap)] inside a value printed at
    [indent]: an array or object that is not empty has one item per line,
    a colon is followed by a space. *)
Fixpoint stringifyIndented (gap indent : jsstring) (v : json) : jsstring :=
  match v with
  | JArr [] => lit "[]"
  | JArr items =>
      91%N :: 10%N :: (indent ++ gap)
        ++ joinLines (indent ++ gap) (map (stringifyIndented gap (indent ++ gap)) items)
        ++ 10%N :: indent ++ [93%N]
  | JObj [] => lit "{}"
  | JObj members =>
      123%N :: 10%N :: (indent ++ gap)
        ++ joinLines (indent ++ gap)
             (map (fun kv =>
                     quote (fst kv) ++ 58%N :: 32%N
                       :: stringifyIndented gap (indent ++ gap) (snd kv))
                  members)
        ++ 10%N :: indent ++ [125%N]
  | other => stringify other
  end.

(** ** The key directory *)

(** What the service takes from Node: [keyFilePath issuerId] stands for
    the file that [path.join(this.keyStoragePath, issuerId + '.json')]
    names (two issuer ids have the same one when they name the same
    file); [canWrite path] says that [fs.writeFileSync] goes through at
    that path (its directory exists, as it does not for an issuer id with
    a slash in it, and the file system takes the name) and
    [canUnlink path] that [fs.unlinkSync] does; [signWith] is
    [createSign('SHA256')], [update(data)],
    [sign(privateKey, 'base64')] and [verifyWith] is
    [createVerify('SHA256')], [update(data)],
    [verify(publicKey, signature, 'base64')], which throw on a key that is
    none; [isoNow] is [new Date().toISOString()]. *)
Record Crypto : Type := {
  keyFilePath : jsstring -> jsstring;
  canWrite : jsstring -> bool;
  canUnlink : jsstring -> bool;
  signWith : option json -> jsstring -> Result jsstring;
  verifyWith : option json -> jsstring -> option json -> Result bool;
  isoNow : jsstring
}.

(** The files under [storage/keys]: path and text, the file written last
    first; every one of them can be read.  The text is what a read with
    the encoding [utf8] yields: [JSON.stringify] escapes a lone surrogate,
    so what [generateKeyPair] writes is read back code unit for code
    unit. *)
Definition Disk := list (jsstring * jsstring).

Fixpoint readText (disk : Disk) (path : jsstring) : option jsstring :=
  match disk with
  | [] => None
  | (p, text) :: rest => if Js.eqb p path then Some text else readText rest path
  end.

Definition existsSync (disk : Disk) (path : jsstring) : bool :=
  match readText disk path with
  | Some _ => true
  | None => false
  end.

(** [fs.readFileSync(path, 'utf8')] *)
Definition readFileSync (disk : Disk) (path : jsstring) : Result jsstring :=
  match readText disk path with
  | Some text => Ok text
  | None => Throw "ENOENT"
  end.

(** [fs.writeFileSync(path, text)]: the directory afterwards, or the error
    thrown, which leaves the directory as it was. *)
Definition writeFileSync (cr : Crypto) (disk : Disk) (path text : jsstring) : Result Disk :=
  if canWrite cr path then Ok ((path, text) :: disk) else Throw "ENOENT".

(** [fs.unlinkSync(path)] *)
Definition unlinkSync (cr : Crypto) (disk : Disk) (path : jsstring) : Result Disk :=
  if negb (existsSync disk path) then Throw "ENOENT"
  else if canUnlink cr path then Ok (filter (fun f => negb (Js.eqb (fst f) path)) disk)
  else Throw "EPERM".

(** ** The methods of the service *)

(** The outcome of a method whose [Error] carries a message built at run
    time (a template literal that ends with the issuer id): the value
    returned, or that message. *)
Inductive Completion (A : Type) : Type :=
| Normal (a : A)
| Abrupt (message : jsstring).

Arguments Normal {A} a.
Arguments Abrupt {A} message.

(** The object [keyData] that [generateKeyPair] stores. *)
Definition keyDataJson (issuerId issuerName publicKey privateKey createdAt : jsstring)
  : json :=
  JObj [ (lit "issuerId", JStr issuerId);
         (lit "issuerName", JStr issuerName);
         (lit "publicKey", JStr publicKey);
         (lit "privateKey", JStr privateKey);
         (lit "createdAt", JStr createdAt);
         (lit "algorithm", JStr (lit "RSA-2048")) ].

(** The object [generateKeyPair] returns. *)
Record GeneratedKey : Type := {
  generatedIssuerId : jsstring;
  generatedIssuerName : jsstring;
  generatedPublicKey : jsstring;
  keyGeneratedAt : jsstring
}.

(** [generateKeyPair(issuerId, issuerName)]: the result and the directory
    afterwards.  [generated] is what [crypto.generateKeyPairSync] yields in
    this call, the two PEM texts or an error.  The [catch] turns an error
    of the key generation and an error of the write into the same
    [Error]. *)
Definition generateKeyPair (cr : Crypto) (generated : Result (jsstring * jsstring))
    (disk : Disk) (issuerId issuerName : jsstring) : Result GeneratedKey * Disk :=
  match generated with
  | Ok (publicKey, privateKey) =>
      let createdAt := isoNow cr in
      let keyData := keyDataJson issuerId issuerName publicKey privateKey createdAt in
      let keyFilePath := keyFilePath cr issuerId in
      match writeFileSync cr disk keyFilePath (stringifyIndented (lit "  ") [] keyData) with
      | Ok disk' =>
          (Ok {| generatedIssuerId := issuerId;
                 generatedIssuerName := issuerName;
                 generatedPublicKey := publicKey;
                 keyGeneratedAt := createdAt |},
           disk')
      | Throw _ => (Throw "Failed to generate key pair", disk)
      end
  | Throw _ => (Throw "Failed to generate key pair", disk)
  end.

(** [keyData.key] on a parsed value: a [TypeError] on [null], [None] for
    [undefined]. *)
Definition property (keyData : json) (key : string) : Result (option json) :=
  match keyData with
  | JNull => Throw "Cannot read properties of null"
  | _ => Ok (getProp keyData key)
  end.

(** The [try] block shared by [getPublicKey] and [getPrivateKey]. *)
Definition readKey (cr : Crypto) (disk : Disk) (issuerId : jsstring) (key : string)
  : Completion (option json) :=
  let keyFilePath := keyFilePath cr issuerId in
  if negb (existsSync disk keyFilePath)
  then Abrupt (lit "No key pair found for issuer: " ++ issuerId)
  else
    match (text <- readFileSync disk keyFilePath ;;
           keyData <- Json.parse text ;;
           property keyData key) with
    | Ok value => Normal value
    | Throw m => Abrupt (lit m)
    end.

(** [getPublicKey(issuerId)] *)
Definition getPublicKey (cr : Crypto) (disk : Disk) (issuerId : jsstring)
  : Completion (option json) :=
  match readKey cr disk issuerId "publicKey" with
  | Normal publicKey => Normal publicKey
  | Abrupt _ => Abrupt (lit "Failed to get public key for issuer: " ++ issuerId)
  end.

(** [getPrivateKey(issuerId)] *)
Definition getPrivateKey (cr : Crypto) (disk : Disk) (issuerId : jsstring)
  : Completion (option json) :=
  match readKey cr disk issuerId "privateKey" with
  | Normal privateKey => Normal privateKey
  | Abrupt _ => Abrupt (lit "Failed to get private key for issuer: " ++ issuerId)
  end.

(** [signData(data, issuerId)] *)
Definition signData (cr : Crypto) (disk : Disk) (data issuerId : jsstring)
  : Result jsstring :=
  match getPrivateKey cr disk issuerId with
  | Normal privateKey =>
      tryCatch (signWith cr privateKey data) (fun _ => Throw "Failed to sign data")
  | Abrupt _ => Throw "Failed to sign data"
  end.

(** Of the object the two checks return: [valid] and [error], the message
    of the error caught. *)
Record SignatureCheck : Type := { checkValid : bool; checkError : option jsstring }.

(** [verifySignature(data, signature, issuerId)] *)
Definition verifySignature (cr : Crypto) (disk : Disk) (data : jsstring)
    (signature : option json) (issuerId : jsstring) : SignatureCheck :=
  match getPublicKey cr disk issuerId with
  | Normal publicKey =>
      match verifyWith cr publicKey data signature with
      | Ok isValid => {| checkValid := isValid; checkError := None |}
      | Throw m => {| checkValid := false; checkError := Some (lit m) |}
      end
  | Abrupt message => {| checkValid := false; checkError := Some message |}
  end.

(** [verifySignatureWithPublicKey(data, signature, publicKeyPem)] *)
Definition verifySignatureWithPublicKey (cr : Crypto) (data : jsstring)
    (signature publicKeyPem : option json) : SignatureCheck :=
  match verifyWith cr publicKeyPem data signature with
  | Ok isValid => {| checkValid := isValid; checkError := None |}
  | Throw m => {| checkValid := false; checkError := Some (lit m) |}
  end.

(** [deleteIssuer(issuerId)]: the value returned and the directory
    afterwards; the [catch] answers [false] when the unlink throws. *)
Definition deleteIssuer (cr : Crypto) (disk : Disk) (issuerId : jsstring) : bool * Disk :=
  let keyFilePath := keyFilePath cr issuerId in
  if existsSync disk keyFilePath then
    match unlinkSync cr disk keyFilePath with
    | Ok disk' => (true, disk')
    | Throw _ => (false, disk)
    end
  else (false, disk).

(** ** The two issuer routes of [routes/issue.js] *)

Inductive KeysResponse : Type :=
| KeysBadRequest (error : string)
| KeysGenerated (issuerId publicKey : jsstring)
| KeysServerError (error message : string).

(** The handler of [router.post('/issuer/generate-keys')]: the response
    and the directory afterwards. *)
Definition generateKeys (cr : Crypto) (generated : Result (jsstring * jsstring))
    (disk : Disk) (issuerId issuerName : option jsstring) : KeysResponse * Disk :=
  if missing issuerId || missing issuerName then
    (KeysBadRequest "Missing required fields: issuerId, issuerName", disk)
  else
    match generateKeyPair cr generated disk (fieldText issuerId) (fieldText issuerName) with
    | (Ok keyPair, disk') =>
        (KeysGenerated (fieldText issuerId) (generatedPublicKey keyPair), disk')
    | (Throw m, disk') => (KeysServerError "Failed to generate key pair" m, disk')
    end.

Inductive PublicKeyResponse : Type :=
| PublicKeyFound (issuerId : jsstring) (publicKey : option json)
| PublicKeyServerError (error : string) (message : jsstring).

(** The handler of [router.get('/issuer/:issuerId/public-key')]. *)
Definition issuerPublicKey (cr : Crypto) (disk : Disk) (issuerId : jsstring)
  : PublicKeyResponse :=
  match getPublicKey cr disk issuerId with
  | Normal publicKey => PublicKeyFound issuerId publicKey
  | Abrupt message => PublicKeyServerError "Failed to get public key" message
  end.

End KeyStorage.

(* ================================================================== *)
(** * Vocabulary of the further properties                              *)
(* ================================================================== *)

Module Terms.

(** A value of a [Uint8ClampedArray]. *)
Definition isByte (c : N) : Prop := (c < 256)%N.

(** Every channel of the pixel is a byte. *)
Definition bytePixel (p : Pixel) : Prop :=
  isByte (red p) /\ isByte (green p) /\ isByte (blue p) /\ isByte (alpha p).

(** [q] is [p] up to the lowest bit of its three colour bytes. *)
Definition sameButLowBits (p q : Pixel) : Prop :=
  alpha q = alpha p /\
  (red q / 2 = red p / 2)%N /\ (green q / 2 = green p / 2)%N /\ (blue q / 2 = blue p / 2)%N.

(** The value is one of the three hash names, in any letter case. *)
Definition knownAlgorithm (algorithm : jsstring) : Prop :=
  toLowerCase algorithm = lit "sha256" \/ toLowerCase algorithm = lit "sha1"
  \/ toLowerCase algorithm = lit "md5".

(** The signing and the checking of the platform fit the key pair: what
    is signed with the private key is accepted under the public key. *)
Definition keyPairFits (cr : KeyStorage.Crypto) (publicKey privateKey : jsstring) : Prop :=
  forall data signature,
    KeyStorage.signWith cr (Some (JStr privateKey)) data = Ok signature ->
    KeyStorage.verifyWith cr (Some (JStr publicKey)) data (Some (JStr signature)) = Ok true.

(** A file whose bytes can be read and decode to [pixels]. *)
Definition imageFile (file : File) (pixels : list Pixel) : Prop :=
  (exists bytes, contents file = Some bytes) /\ image file = Some pixels.

End Terms.

(* ================================================================== *)
(** * More sample inputs                                                *)
(* ================================================================== *)

Module MoreSamples.

(** A platform without a contract whose key directory holds a key pair for
    [univ-1] and whose RSA check accepts the signature of the sample
    payload. *)
Definition signedPlatform : Platform :=
  {| sha256hex := Samples.checksum;
     keys := {| keyFile := fun issuerId =>
                  if isString issuerId "univ-1"
                  then Some {| publicKey := lit "PUBLIC KEY"; privateKey := lit "PRIVATE KEY" |}
                  else None;
                rsaSign := fun _ _ => Ok (lit "c2lnbmF0dXJl");
                rsaVerify := fun _ _ signature => Ok (isString signature "c2lnbmF0dXJl") |};
     chain := chain Samples.platform;
     entropy := Samples.entropyA;
     canvas := Samples.alphaCanvas;
     now := lit "2024-01-01T00:00:00.000Z";
     applyHash := fun _ _ _ => Throw "not called" |}.

(** A contract none of whose calls gets through. *)
Definition unreachableContract : Contract :=
  {| contractStoreHash := fun _ _ => Throw "network";
     contractVerifyHash := fun _ => Throw "network";
     contractGetIssuer := fun _ => Throw "network" |}.

Definition unreachableChain : Chain :=
  {| contract := Some unreachableContract; sendData := None;
     transactionData := fun _ => Ok None; randomHash := lit "0x00" |}.

(** A platform for the key files: the path is the issuer id behind the
    directory name, a file can be written when the issuer id has no slash
    in it (the key directory has no subdirectories) and every file can be
    unlinked, a signature is the key text followed by the data, and a
    signature made with [PRIVATE] is accepted under [PUBLIC]. *)
Definition toyCrypto : KeyStorage.Crypto :=
  {| KeyStorage.keyFilePath := fun issuerId => lit "keys/" ++ issuerId ++ lit ".json";
     KeyStorage.canWrite := fun path =>
       negb (existsb (N.eqb 47) (skipn 5 path));
     KeyStorage.canUnlink := fun _ => true;
     KeyStorage.signWith := fun privateKey data =>
       match privateKey with
       | Some (JStr key) => Ok (key ++ 58%N :: data)
       | _ => Throw "ERR_INVALID_ARG_TYPE"
       end;
     KeyStorage.verifyWith := fun publicKey data signature =>
       match publicKey, signature with
       | Some (JStr key), Some (JStr text) =>
           Ok (Js.eqb key (lit "PUBLIC") && Js.eqb text (lit "PRIVATE:" ++ data))
       | _, _ => Throw "ERR_INVALID_ARG_TYPE"
       end;
     KeyStorage.isoNow := lit "2024-01-01T00:00:00.000Z" |}.

End MoreSamples.

(* ================================================================== *)
(** * Lemmas                                                            *)
(* ================================================================== *)

(** ** Lists *)

Lemma firstn_app_exact :
  forall {A} n (a b : list A), length a = n -> firstn n (a ++ b) = a.
Proof.
  intros A n a b <-. rewrite firstn_app, firstn_all, Nat.sub_diag. simpl. apply app_nil_r.
Qed.

Lemma skipn_app_exact :
  forall {A} n (a b : list A), length a = n -> skipn n (a ++ b) = b.
Proof.
  intros A n a b <-. rewrite skipn_app, skipn_all, Nat.sub_diag. reflexivity.
Qed.

Lemma firstn_repeat_app :
  forall {A} (a : A) j n rest, j <= n -> firstn j (repeat a n ++ rest) = repeat a j.
Proof.
  intros A a. induction j as [|j IH]; intros n rest H; [reflexivity|].
  destruct n as [|n]; [lia|]. cbn. f_equal. apply IH. lia.
Qed.

Lemma firstn_forallb :
  forall {A} (f : A -> bool) n l, forallb f l = true -> forallb f (firstn n l) = true.
Proof.
  intros A f n. induction n as [|n IH]; intros [|x l] H; simpl in *; try reflexivity.
  apply andb_true_iff in H. destruct H as [Hx Hl]. now rewrite Hx, IH.
Qed.

(** ** Binary strings *)

Lemma lsb_setLsb : forall c b, lsb (setLsb c b) = b.
Proof.
  intros c b. unfold lsb, setLsb.
  assert (H : N.land (N.lor (N.land c 254) (bitValue b)) 1 = bitValue b).
  { apply N.bits_inj. intros n.
    rewrite N.land_spec, N.lor_spec, N.land_spec.
    destruct n as [|p].
    - change (N.testbit 254 0) with false. change (N.testbit 1 0) with true.
      rewrite andb_false_r, andb_true_r. reflexivity.
    - assert (H1 : N.testbit 1 (N.pos p) = false).
      { change 1%N with (2 ^ 0)%N. apply N.pow2_bits_false. lia. }
      rewrite H1, andb_false_r. destruct b; [exact (eq_sym H1)|reflexivity]. }
  rewrite H. destruct b; reflexivity.
Qed.

(** Writing the lowest bit of a byte leaves a byte with the same higher
    bits. *)
Lemma setLsb_byte :
  forall c b, (c < 256)%N -> (setLsb c b / 2 = c / 2)%N /\ (setLsb c b < 256)%N.
Proof.
  intros c b Hc.
  assert (Hall : forallb (fun n =>
            let x := N.of_nat n in
            (setLsb x true / 2 =? x / 2)%N && (setLsb x false / 2 =? x / 2)%N
            && (setLsb x true <? 256)%N && (setLsb x false <? 256)%N)
            (seq 0 256) = true) by (vm_compute; reflexivity).
  rewrite forallb_forall in Hall. specialize (Hall (N.to_nat c)).
  rewrite N2Nat.id in Hall. cbv zeta in Hall.
  assert (Hin : In (N.to_nat c) (seq 0 256)) by (apply in_seq; lia).
  apply Hall in Hin. rewrite !andb_true_iff in Hin.
  destruct Hin as [[[H1 H2] H3] H4].
  apply N.eqb_eq in H1, H2. apply N.ltb_lt in H3, H4.
  destruct b; split; assumption.
Qed.

Lemma parseInt2_from : forall s acc,
  fold_left (fun a b => (2 * a + bitValue b)%N) s acc
  = (acc * 2 ^ N.of_nat (length s) + parseInt2 s)%N.
Proof.
  unfold parseInt2.
  induction s as [|b s IH]; intros acc.
  - simpl. lia.
  - cbn [fold_left length]. rewrite IH. rewrite (IH (2 * 0 + bitValue b)%N).
    rewrite Nat2N.inj_succ, N.pow_succ_r'. lia.
Qed.

Lemma parseInt2_app : forall s t,
  parseInt2 (s ++ t) = (parseInt2 s * 2 ^ N.of_nat (length t) + parseInt2 t)%N.
Proof.
  intros s t. unfold parseInt2 at 1. rewrite fold_left_app.
  rewrite parseInt2_from. reflexivity.
Qed.

Lemma parseInt2_positiveBits : forall p, parseInt2 (positiveBits p) = Npos p.
Proof.
  induction p as [p IH|p IH|]; simpl; try reflexivity;
    rewrite parseInt2_app, IH; simpl; lia.
Qed.

Lemma parseInt2_toString2 : forall n, parseInt2 (toString2 n) = n.
Proof. intros [|p]; [reflexivity|apply parseInt2_positiveBits]. Qed.

Lemma parseInt2_zeros : forall n s, parseInt2 (repeat false n ++ s) = parseInt2 s.
Proof.
  induction n as [|n IH]; intros s; [reflexivity|].
  simpl. unfold parseInt2 in *. simpl. apply IH.
Qed.

(** [binaryToNumber] undoes [numberToBinary]. *)
Lemma parseInt2_padStart : forall len n, parseInt2 (padStart len (toString2 n)) = n.
Proof. intros. unfold padStart. rewrite parseInt2_zeros. apply parseInt2_toString2. Qed.

Lemma parseInt2_ones :
  forall l, forallb (fun b => b) l = true -> (parseInt2 l + 1 = 2 ^ N.of_nat (length l))%N.
Proof.
  induction l as [|b l IH] using rev_ind; intros H; [reflexivity|].
  rewrite forallb_app in H. apply andb_true_iff in H. destruct H as [Hl Hb].
  cbn [forallb] in Hb. rewrite andb_true_r in Hb. subst b.
  rewrite parseInt2_app, length_app. cbn [length].
  replace (N.of_nat (length l + 1)) with (N.succ (N.of_nat (length l))) by lia.
  rewrite N.pow_succ_r'. specialize (IH Hl).
  change (parseInt2 [true]) with 1%N. change (2 ^ N.of_nat 1)%N with 2%N. lia.
Qed.

Lemma positiveBits_length : forall p, length (positiveBits p) = Pos.to_nat (Pos.size p).
Proof.
  induction p as [p IH|p IH|]; simpl; try reflexivity;
    rewrite length_app, IH; simpl; lia.
Qed.

Lemma toString2_length_bound :
  forall n k, (n < 2 ^ N.of_nat k)%N -> 0 < k -> length (toString2 n) <= k.
Proof.
  intros [|p] k Hn Hk; simpl; [lia|].
  rewrite positiveBits_length.
  assert (H : (N.pos (Pos.size p) <= N.of_nat k)%N).
  { change (N.pos (Pos.size p)) with (N.size (N.pos p)).
    rewrite N.size_log2 by discriminate.
    apply N.le_succ_l. apply N.log2_lt_pow2; lia. }
  lia.
Qed.

Lemma padStart_length :
  forall len s, length s <= len -> length (padStart len s) = len.
Proof. intros. unfold padStart. rewrite length_app, repeat_length. lia. Qed.

(** The length prefix has 32 characters for a length below 2^32. *)
Lemma numberToBinary_length :
  forall n, (n < 2 ^ 32)%N -> length (numberToBinary n 32) = 32.
Proof.
  intros n Hn. unfold numberToBinary. apply padStart_length.
  apply toString2_length_bound; [exact Hn|lia].
Qed.

(** A code unit below 256 takes eight characters. *)
Lemma charBits_length :
  forall c, (c < 256)%N -> length (padStart 8 (toString2 c)) = 8.
Proof.
  intros c Hc. apply padStart_length. apply toString2_length_bound; [exact Hc|lia].
Qed.

Lemma isLatin1_Forall : forall s, isLatin1 s = true -> Forall (fun c => (c < 256)%N) s.
Proof.
  intros s H. apply Forall_forall. intros c Hc.
  unfold isLatin1, charsBelow in H. rewrite forallb_forall in H.
  apply N.ltb_lt. now apply H.
Qed.

Lemma stringToBinary_length :
  forall s, isLatin1 s = true -> length (stringToBinary s) = 8 * length s.
Proof.
  intros s H. apply isLatin1_Forall in H.
  induction H as [|c s Hc _ IH]; [reflexivity|].
  simpl. rewrite length_app, IH, charBits_length by exact Hc. lia.
Qed.

Lemma binaryToString_byte :
  forall byte rest, length byte = 8 ->
    binaryToString (byte ++ rest) = parseInt2 byte :: binaryToString rest.
Proof.
  intros byte rest H.
  do 8 (destruct byte as [|? byte]; [discriminate|]).
  destruct byte; [reflexivity|discriminate].
Qed.

(** [binaryToString] undoes [stringToBinary] on one-byte characters. *)
Lemma binaryToString_stringToBinary :
  forall s, isLatin1 s = true -> binaryToString (stringToBinary s) = s.
Proof.
  intros s H. apply isLatin1_Forall in H.
  induction H as [|c s Hc _ IH]; [reflexivity|].
  simpl. rewrite binaryToString_byte by (apply charBits_length; exact Hc).
  rewrite parseInt2_padStart, IH. reflexivity.
Qed.

Lemma frame_assoc :
  forall text,
    frame text
    = (numberToBinary (N.of_nat (length text)) 32 ++ stringToBinary text) ++ endMarker.
Proof. intros. unfold frame. now rewrite app_assoc. Qed.

(** The frame of a text of one-byte characters has [32 + 8L + 16] bits. *)
Lemma frame_length :
  forall text,
    isLatin1 text = true -> (N.of_nat (length text) < 2 ^ 32)%N ->
    length (frame text) = requiredBits (length text).
Proof.
  intros text Hl Hn. unfold frame, requiredBits.
  rewrite !length_app, numberToBinary_length, stringToBinary_length by assumption.
  reflexivity.
Qed.

Lemma bitsEqb_refl : forall a, bitsEqb a a = true.
Proof. induction a as [|x a IH]; simpl; [reflexivity|]. now rewrite eqb_reflx, IH. Qed.

Lemma bitsEqb_eq : forall a b, bitsEqb a b = true -> a = b.
Proof.
  induction a as [|x a IH]; intros [|y b] H; cbn [bitsEqb] in H; try discriminate.
  - reflexivity.
  - apply andb_true_iff in H. destruct H as [Hxy Hab].
    apply eqb_prop in Hxy. subst y. f_equal. now apply IH.
Qed.

(** ** The two loops *)

Lemma channelLoop_scan :
  forall channels bd, channelLoop channels bd = scanBits (map lsb channels) bd.
Proof.
  induction channels as [|c rest IH]; intros bd; simpl; [reflexivity|].
  destruct (endsWithMarker (bd ++ [lsb c])); [reflexivity|apply IH].
Qed.

Lemma scanBits_app :
  forall a b bd,
    scanBits (a ++ b) bd
    = (let (bd', found) := scanBits a bd in if found then (bd', true) else scanBits b bd').
Proof.
  induction a as [|x a IH]; intros b bd; simpl; [reflexivity|].
  destruct (endsWithMarker (bd ++ [x])); [reflexivity|apply IH].
Qed.

(** The nested loops read the flat stream of low bits. *)
Lemma extractLoop_scan :
  forall pixels bd, extractLoop pixels bd = scanBits (channelBits pixels) bd.
Proof.
  induction pixels as [|p rest IH]; intros bd; [reflexivity|].
  cbn [extractLoop channelBits flat_map].
  rewrite channelLoop_scan.
  change (flat_map (fun p0 => [lsb (red p0); lsb (green p0); lsb (blue p0)]) rest)
    with (channelBits rest).
  rewrite scanBits_app.
  change (map lsb [red p; green p; blue p]) with [lsb (red p); lsb (green p); lsb (blue p)].
  destruct (scanBits [lsb (red p); lsb (green p); lsb (blue p)] bd) as [bd' found].
  destruct found; [reflexivity|apply IH].
Qed.

(** After embedding, the stream of low bits starts with the data. *)
Lemma embedLoop_bits :
  forall pixels data,
    length data <= 3 * length pixels ->
    channelBits (embedLoop pixels data) = data ++ skipn (length data) (channelBits pixels).
Proof.
  induction pixels as [|p rest IH]; intros data Hlen.
  - destruct data; [reflexivity|simpl in Hlen; lia].
  - destruct data as [|b0 [|b1 [|b2 data]]].
    + reflexivity.
    + cbn. rewrite lsb_setLsb. reflexivity.
    + cbn. rewrite !lsb_setLsb. reflexivity.
    + cbn [embedLoop channelBits flat_map red green blue].
      rewrite !lsb_setLsb.
      change (flat_map (fun p0 => [lsb (red p0); lsb (green p0); lsb (blue p0)])
                (embedLoop rest data)) with (channelBits (embedLoop rest data)).
      rewrite IH by (simpl in Hlen; lia).
      reflexivity.
Qed.

Lemma embedLoop_length : forall pixels data, length (embedLoop pixels data) = length pixels.
Proof.
  induction pixels as [|p rest IH]; intros data; [reflexivity|].
  destruct data as [|b0 [|b1 [|b2 data]]]; simpl; try reflexivity. now rewrite IH.
Qed.

(** Embedding leaves every alpha byte as it was. *)
Lemma embedLoop_alpha :
  forall pixels data, map alpha (embedLoop pixels data) = map alpha pixels.
Proof.
  induction pixels as [|p rest IH]; intros data; [reflexivity|].
  destruct data as [|b0 [|b1 [|b2 data]]]; simpl; try reflexivity. now rewrite IH.
Qed.

(** The scan stops at the first prefix that ends with the marker. *)
Lemma scanBits_stop :
  forall xs bd rest,
    xs <> [] ->
    (forall k, 0 < k < length xs -> endsWithMarker (bd ++ firstn k xs) = false) ->
    endsWithMarker (bd ++ xs) = true ->
    scanBits (xs ++ rest) bd = (sliceDropLast 16 (bd ++ xs), true).
Proof.
  induction xs as [|x xs IH]; intros bd rest Hne Hearly Hend; [contradiction|].
  cbn [app scanBits].
  destruct xs as [|y xs].
  - rewrite Hend. reflexivity.
  - pose proof (Hearly 1 ltac:(simpl; lia)) as H1. cbn [firstn] in H1. rewrite H1.
    replace (bd ++ x :: y :: xs) with ((bd ++ [x]) ++ y :: xs)
      by (rewrite <- app_assoc; reflexivity).
    apply IH.
    + discriminate.
    + intros k Hk. rewrite <- app_assoc. apply (Hearly (S k)). simpl in *. lia.
    + rewrite <- app_assoc. exact Hend.
Qed.

Lemma markerOnlyAtEnd_early :
  forall full, markerOnlyAtEnd full = true ->
    forall k, 0 < k < length full -> endsWithMarker (firstn k full) = false.
Proof.
  intros full H k Hk. unfold markerOnlyAtEnd in H.
  rewrite forallb_forall in H.
  apply negb_true_iff. apply H. apply in_seq. lia.
Qed.

Lemma endsWithMarker_frame :
  forall body, endsWithMarker (body ++ endMarker) = true.
Proof.
  intros body. unfold endsWithMarker, sliceLast.
  rewrite length_app.
  change (length endMarker) with 16.
  replace (length body + 16 - 16) with (length body) by lia.
  rewrite (skipn_app_exact (length body) body endMarker eq_refl).
  apply andb_true_iff. split; [apply Nat.leb_le; lia|apply bitsEqb_refl].
Qed.

Lemma sliceDropLast_frame :
  forall body, sliceDropLast 16 (body ++ endMarker) = body.
Proof.
  intros body. unfold sliceDropLast. rewrite length_app.
  change (length endMarker) with 16.
  replace (length body + 16 - 16) with (length body) by lia.
  now apply firstn_app_exact.
Qed.

Lemma endsWithMarker_split :
  forall y, endsWithMarker y = true -> exists x, y = x ++ endMarker.
Proof.
  intros y H. unfold endsWithMarker in H. apply andb_true_iff in H.
  destruct H as [_ H]. apply bitsEqb_eq in H. unfold sliceLast in H.
  exists (firstn (length y - 16) y). rewrite <- H. symmetry. apply firstn_skipn.
Qed.

(** What the extraction loop recovers from a carrier that holds a frame. *)
Lemma extractLoop_frame :
  forall body pixels,
    markerOnlyAtEnd (body ++ endMarker) = true ->
    length (body ++ endMarker) <= 3 * length pixels ->
    extractLoop (embedLoop pixels (body ++ endMarker)) [] = (body, true).
Proof.
  intros body pixels Honly Hcap.
  rewrite extractLoop_scan, embedLoop_bits by exact Hcap.
  rewrite scanBits_stop.
  - simpl app. now rewrite sliceDropLast_frame.
  - destruct body; discriminate.
  - intros k Hk. simpl app. apply markerOnlyAtEnd_early; assumption.
  - apply endsWithMarker_frame.
Qed.

(** The text recovered from a carrier that holds the frame of [text]. *)
Lemma embeddedText_frame :
  forall text pixels,
    isLatin1 text = true ->
    (N.of_nat (length text) < 2 ^ 32)%N ->
    markerOnlyAtEnd (frame text) = true ->
    length (frame text) <= 3 * length pixels ->
    embeddedText (embedLoop pixels (frame text)) = Some text.
Proof.
  intros text pixels Hlatin Hlen Honly Hcap.
  unfold embeddedText. rewrite frame_assoc in *.
  rewrite extractLoop_frame by assumption.
  set (prefix := numberToBinary (N.of_nat (length text)) 32).
  assert (Hp : length prefix = 32) by (apply numberToBinary_length; exact Hlen).
  assert (Hd : length (stringToBinary text) = 8 * length text)
    by (apply stringToBinary_length; exact Hlatin).
  rewrite length_app, Hp.
  replace (32 + length (stringToBinary text) <? 32) with false
    by (symmetry; apply Nat.ltb_ge; lia).
  cbn [negb orb].
  assert (Hpre : slice 0 32 (prefix ++ stringToBinary text) = prefix).
  { unfold slice. cbn [skipn]. rewrite Nat.sub_0_r. now apply firstn_app_exact. }
  rewrite Hpre. unfold binaryToNumber, prefix, numberToBinary at 1.
  rewrite parseInt2_padStart, Nat2N.id.
  assert (Hdata : slice 32 (32 + length text * 8) (prefix ++ stringToBinary text)
                  = stringToBinary text).
  { unfold slice. rewrite (skipn_app_exact 32 prefix (stringToBinary text) Hp).
    replace (32 + length text * 8 - 32) with (length (stringToBinary text)) by lia.
    apply firstn_all. }
  fold prefix. rewrite Hdata.
  now rewrite binaryToString_stringToBinary.
Qed.

(** ** Where the end marker can occur *)

Lemma safeRun_ones :
  forall n run rest, 15 <= run + n -> 1 <= n -> safeRun run (repeat true n ++ rest) = false.
Proof.
  induction n as [|n IH]; intros run rest Hsum Hn; [lia|].
  cbn [repeat app safeRun].
  destruct (Nat.ltb_spec (S run) 15) as [Hlt|Hge]; [|reflexivity].
  cbn [andb]. apply IH; lia.
Qed.

Lemma safeRun_suffix :
  forall x run z, safeRun run (x ++ z) = true -> exists run', safeRun run' z = true.
Proof.
  induction x as [|b x IH]; intros run z H.
  - exists run. exact H.
  - cbn [app safeRun] in H. destruct b.
    + apply andb_true_iff in H. destruct H as [_ H]. eapply IH, H.
    + eapply IH, H.
Qed.

Lemma safeRun_no_marker :
  forall x rest run, safeRun run (x ++ endMarker ++ rest) = false.
Proof.
  intros x rest run. destruct (safeRun run (x ++ endMarker ++ rest)) eqn:E; [|reflexivity].
  apply safeRun_suffix in E. destruct E as [run' E].
  unfold endMarker in E. rewrite <- app_assoc in E.
  rewrite safeRun_ones in E by lia. discriminate.
Qed.

Lemma firstn_endMarker :
  forall j, 1 <= j <= 15 -> exists l, firstn j endMarker = l ++ [true].
Proof.
  intros j Hj. unfold endMarker. rewrite firstn_repeat_app by lia.
  exists (repeat true (j - 1)). replace j with (S (j - 1)) at 1 by lia.
  apply repeat_cons.
Qed.

(** A body without fifteen consecutive ones gives a frame whose only
    marker is the one at its end. *)
Lemma safeRun_markerOnlyAtEnd :
  forall body, safeRun 0 body = true -> markerOnlyAtEnd (body ++ endMarker) = true.
Proof.
  intros body Hsafe. unfold markerOnlyAtEnd. apply forallb_forall. intros k Hk.
  apply in_seq in Hk. rewrite length_app in Hk. change (length endMarker) with 16 in Hk.
  apply negb_true_iff. destruct (endsWithMarker (firstn k (body ++ endMarker))) eqn:E;
    [exfalso|reflexivity].
  apply endsWithMarker_split in E. destruct E as [x Hx].
  rewrite firstn_app in Hx.
  destruct (Nat.le_gt_cases k (length body)) as [Hle|Hgt].
  - replace (k - length body) with 0 in Hx by lia. cbn [firstn] in Hx.
    rewrite app_nil_r in Hx.
    rewrite <- (firstn_skipn k body), Hx, <- app_assoc in Hsafe.
    rewrite safeRun_no_marker in Hsafe. discriminate.
  - rewrite firstn_all2 in Hx by lia.
    destruct (firstn_endMarker (k - length body)) as [l Hl]; [lia|].
    rewrite Hl in Hx. unfold endMarker in Hx. rewrite !app_assoc in Hx.
    apply app_inj_tail in Hx. destruct Hx as [_ Hx]. discriminate.
Qed.

Lemma safeRun_short :
  forall l run rest,
    run + length l < 15 ->
    (forall run', run' < 15 -> safeRun run' rest = true) ->
    safeRun run (l ++ rest) = true.
Proof.
  induction l as [|b l IH]; intros run rest Hlen Hrest.
  - apply Hrest. simpl in Hlen. lia.
  - cbn [app safeRun length] in *. destruct b.
    + apply andb_true_iff. split; [apply Nat.ltb_lt; lia|]. apply IH; [lia|exact Hrest].
    + apply IH; [lia|exact Hrest].
Qed.

Lemma safeRun_not_all_ones :
  forall l run rest,
    run + length l <= 15 ->
    forallb (fun b => b) l = false ->
    (forall run', run' < 15 -> safeRun run' rest = true) ->
    safeRun run (l ++ rest) = true.
Proof.
  induction l as [|b l IH]; intros run rest Hlen Hnot Hrest; [discriminate|].
  cbn [app safeRun length forallb] in *. destruct b.
  - cbn [andb] in Hnot. destruct l as [|b' l]; [discriminate|].
    apply andb_true_iff. split; [apply Nat.ltb_lt; simpl in Hlen; lia|].
    apply IH; [simpl in *; lia|exact Hnot|exact Hrest].
  - apply safeRun_short; [lia|exact Hrest].
Qed.

Lemma safeRun_zeros :
  forall n rest, safeRun 0 (repeat false n ++ rest) = safeRun 0 rest.
Proof. induction n as [|n IH]; intros rest; [reflexivity|]. cbn. apply IH. Qed.

(** The eight bits of an ASCII character start with a zero. *)
Lemma asciiByte :
  forall c, (c < 128)%N ->
    exists seven, padStart 8 (toString2 c) = false :: seven /\ length seven = 7.
Proof.
  intros c Hc.
  assert (Hlen : length (toString2 c) <= 7)
    by (apply toString2_length_bound; [exact Hc|lia]).
  unfold padStart.
  destruct (8 - length (toString2 c)) as [|m] eqn:Em; [lia|].
  exists (repeat false m ++ toString2 c). split; [reflexivity|].
  rewrite length_app, repeat_length. lia.
Qed.

Lemma safeRun_data :
  forall text, isAscii text = true ->
    forall run, run < 15 -> safeRun run (stringToBinary text) = true.
Proof.
  induction text as [|c text IH]; intros H run Hrun; [reflexivity|].
  cbn [isAscii charsBelow forallb] in H. apply andb_true_iff in H. destruct H as [Hc Ht].
  apply N.ltb_lt in Hc. destruct (asciiByte c Hc) as [seven [Hb Hlen]].
  cbn [stringToBinary flat_map]. rewrite Hb. cbn [app safeRun].
  apply safeRun_short; [lia|]. intros run' Hr. apply IH; assumption.
Qed.

Lemma safeRun_body :
  forall text,
    isAscii text = true ->
    (N.of_nat (length text) < 32767)%N ->
    safeRun 0 (numberToBinary (N.of_nat (length text)) 32 ++ stringToBinary text) = true.
Proof.
  intros text Hascii Hlen.
  set (n := N.of_nat (length text)).
  assert (Hn : (n < 2 ^ N.of_nat 15)%N)
    by (subst n; change (2 ^ N.of_nat 15)%N with 32768%N; lia).
  assert (Hbits : length (toString2 n) <= 15) by (apply toString2_length_bound; [exact Hn|lia]).
  unfold numberToBinary, padStart. rewrite <- app_assoc, safeRun_zeros.
  assert (Hdata : forall run', run' < 15 -> safeRun run' (stringToBinary text) = true)
    by (intros; apply safeRun_data; assumption).
  destruct (forallb (fun b => b) (toString2 n)) eqn:Hall.
  - destruct (Nat.eq_dec (length (toString2 n)) 15) as [E|E].
    + exfalso. apply parseInt2_ones in Hall. rewrite parseInt2_toString2, E in Hall.
      change (2 ^ N.of_nat 15)%N with 32768%N in Hall. subst n. lia.
    + apply safeRun_short; [lia|exact Hdata].
  - apply safeRun_not_all_ones; [lia|exact Hall|exact Hdata].
Qed.

(** The frame of an ASCII text shorter than 32767 characters holds the end
    marker at its end only. *)
Lemma ascii_markerOnlyAtEnd :
  forall text,
    isAscii text = true -> (N.of_nat (length text) < 32767)%N ->
    markerOnlyAtEnd (frame text) = true.
Proof.
  intros text Ha Hl. rewrite frame_assoc. apply safeRun_markerOnlyAtEnd.
  now apply safeRun_body.
Qed.

(** ** JSON.parse after JSON.stringify *)

Lemma json_induction :
  forall P : json -> Prop,
    P JNull ->
    (forall b, P (JBool b)) ->
    (forall literal, P (JNum literal)) ->
    (forall s, P (JStr s)) ->
    (forall items, Forall P items -> P (JArr items)) ->
    (forall members, Forall (fun kv => P (snd kv)) members -> P (JObj members)) ->
    forall v, P v.
Proof.
  intros P Hnull Hbool Hnum Hstr Harr Hobj.
  fix F 1. intros [ | b | literal | s | items | members ].
  - exact Hnull.
  - apply Hbool.
  - apply Hnum.
  - apply Hstr.
  - apply Harr. induction items as [|v items IH]; constructor; [apply F|exact IH].
  - apply Hobj. induction members as [|[k v] members IH]; constructor; [apply F|exact IH].
Qed.

Lemma latin1_not_surrogate :
  forall c, (c < 256)%N -> isHighSurrogate c = false /\ isLowSurrogate c = false.
Proof.
  intros c Hc. unfold isHighSurrogate, isLowSurrogate. split;
    apply andb_false_iff; left; apply N.leb_gt; lia.
Qed.

Lemma parseStringBody_cons :
  forall c r,
    parseStringBody (c :: r)
    = if (c =? 34)%N then Some ([], r)
      else if (c =? 92)%N then
        match r with
        | e :: r' =>
            if (e =? 117)%N then
              match r' with
              | h1 :: h2 :: h3 :: h4 :: r'' =>
                  match hex4 h1 h2 h3 h4 with
                  | Some u => consChar u (parseStringBody r'')
                  | None => None
                  end
              | _ => None
              end
            else
              match simpleEscape e with
              | Some u => consChar u (parseStringBody r')
              | None => None
              end
        | [] => None
        end
      else if (c <? 32)%N then None
      else consChar c (parseStringBody r).
Proof. reflexivity. Qed.

(** The parser reads back what [quoteChar] wrote, for every code unit. *)
Lemma parse_quoteChar :
  forall c tl, parseStringBody (quoteChar c ++ tl) = consChar c (parseStringBody tl).
Proof.
  intros c tl. unfold quoteChar.
  destruct (N.eqb_spec c 8); [subst; reflexivity|].
  destruct (N.eqb_spec c 9); [subst; reflexivity|].
  destruct (N.eqb_spec c 10); [subst; reflexivity|].
  destruct (N.eqb_spec c 12); [subst; reflexivity|].
  destruct (N.eqb_spec c 13); [subst; reflexivity|].
  destruct (N.eqb_spec c 34); [subst; reflexivity|].
  destruct (N.eqb_spec c 92); [subst; reflexivity|].
  destruct (N.ltb_spec c 32) as [Hlt|Hge].
  - destruct c as [|p]; [reflexivity|].
    do 5 (try destruct p as [p|p|]); first [reflexivity | congruence | lia].
  - cbn [app]. rewrite parseStringBody_cons.
    destruct (N.eqb_spec c 34); [contradiction|].
    destruct (N.eqb_spec c 92); [contradiction|].
    destruct (N.ltb_spec c 32); [lia|reflexivity].
Qed.

Lemma quoteBody_latin1 :
  forall c s, (c < 256)%N -> quoteBody (c :: s) = quoteChar c ++ quoteBody s.
Proof.
  intros c s Hc. cbn [quoteBody].
  destruct (latin1_not_surrogate c Hc) as [-> ->]. reflexivity.
Qed.

Lemma parseStringBody_quoteBody :
  forall s rest, isLatin1 s = true ->
    parseStringBody (quoteBody s ++ 34%N :: rest) = Some (s, rest).
Proof.
  induction s as [|c s IH]; intros rest H.
  - reflexivity.
  - cbn [isLatin1 charsBelow forallb] in H. apply andb_true_iff in H.
    destruct H as [Hc Hs]. apply N.ltb_lt in Hc.
    rewrite quoteBody_latin1 by exact Hc.
    rewrite <- app_assoc, parse_quoteChar, IH by exact Hs. reflexivity.
Qed.

Lemma skipWs_head :
  forall c r, isWhitespace c = false -> skipWs (c :: r) = c :: r.
Proof. intros c r H. simpl. now rewrite H. Qed.

Lemma stringify_head : forall v, jsonBelow 256 v = true -> startsValue (stringify v).
Proof.
  intros v H. unfold startsValue.
  destruct v as [ | [|] | literal | s | items | members ]; simpl in H; try discriminate;
    cbn [stringify quote]; try (do 2 eexists; repeat split; reflexivity).
Qed.

Lemma parseElements_items :
  forall items,
    Forall roundTrips items -> items <> [] ->
    forall fuel rest,
      2 * length (joinComma (map stringify items) ++ 93%N :: rest) + 2 <= fuel ->
      parseElements fuel (joinComma (map stringify items) ++ 93%N :: rest)
      = Some (items, rest).
Proof.
  induction 1 as [|v items Hv _ IH]; intros Hne fuel rest Hfuel; [contradiction|].
  destruct fuel as [|fuel]; [lia|].
  destruct items as [|w items].
  - cbn [map joinComma] in *. cbn [parseElements].
    rewrite Hv by lia. reflexivity.
  - change (joinComma (map stringify (v :: w :: items)))
      with (stringify v ++ 44%N :: joinComma (map stringify (w :: items))) in *.
    rewrite <- app_assoc in *. cbn [app] in *.
    cbn [parseElements]. rewrite Hv by lia.
    cbn [skipWs isWhitespace N.eqb Pos.eqb orb].
    rewrite IH; [reflexivity|discriminate|].
    rewrite length_app in Hfuel. cbn [length] in Hfuel. lia.
Qed.

Lemma parseMembers_members :
  forall members,
    Forall (fun kv => roundTrips (snd kv)) members ->
    forallb (fun kv => isLatin1 (fst kv)) members = true ->
    members <> [] ->
    forall fuel rest,
      2 * length (joinComma (map memberText members) ++ 125%N :: rest) + 2 <= fuel ->
      parseMembers fuel (joinComma (map memberText members) ++ 125%N :: rest)
      = Some (members, rest).
Proof.
  induction 1 as [|[k v] members Hv _ IH]; intros Hl Hne fuel rest Hfuel; [contradiction|].
  cbn [forallb fst snd] in Hl. apply andb_true_iff in Hl. destruct Hl as [Hk Hli].
  cbn [snd] in Hv.
  destruct fuel as [|fuel]; [lia|].
  assert (Hstep :
    forall tail,
      2 * length (memberText (k, v) ++ tail) + 2 <= S fuel ->
      parseMembers (S fuel) (memberText (k, v) ++ tail)
      = match skipWs tail with
        | c3 :: r4 =>
            if (c3 =? 44)%N then
              match parseMembers fuel r4 with
              | Some (ms, r5) => Some ((k, v) :: ms, r5)
              | None => None
              end
            else if (c3 =? 125)%N then Some ([(k, v)], r4)
            else None
        | [] => None
        end).
  { intros tail Ht. unfold memberText, quote in *. cbn [fst snd] in *.
    cbn [app] in *. rewrite <- !app_assoc in *. cbn [app] in *.
    cbn [length] in Ht. rewrite length_app in Ht. cbn [length] in Ht.
    cbn [parseMembers skipWs isWhitespace N.eqb Pos.eqb orb].
    rewrite parseStringBody_quoteBody by exact Hk.
    cbn [skipWs isWhitespace N.eqb Pos.eqb orb].
    rewrite Hv by lia. reflexivity. }
  destruct members as [|m members].
  - cbn [map joinComma] in *. rewrite Hstep by exact Hfuel. reflexivity.
  - change (joinComma (map memberText ((k, v) :: m :: members)))
      with (memberText (k, v) ++ 44%N :: joinComma (map memberText (m :: members))) in *.
    rewrite <- app_assoc in *. cbn [app] in *.
    rewrite Hstep by exact Hfuel.
    cbn [skipWs isWhitespace N.eqb Pos.eqb orb].
    rewrite IH; [reflexivity|exact Hli|discriminate|].
    rewrite length_app in Hfuel. cbn [length] in Hfuel. lia.
Qed.

Lemma joinComma_head :
  forall (A : Type) (f : A -> jsstring) (x : A) (xs : list A) (c : N) (tl : jsstring),
    f x = c :: tl -> exists tl', joinComma (map f (x :: xs)) = c :: tl'.
Proof.
  intros A f x xs c tl H. destruct xs as [|y xs]; cbn [map joinComma]; rewrite H.
  - eauto.
  - cbn [app]. eauto.
Qed.

(** The parser reads back every value without numbers whose strings are
    Latin-1, whatever follows it, given fuel for the whole text. *)
Lemma parseValue_stringify : forall v, jsonBelow 256 v = true -> roundTrips v.
Proof.
  induction v as [ | b | literal | s | items IH | members IH ] using json_induction;
    intros Hl fuel rest Hfuel; (destruct fuel as [|fuel]; [lia|]).
  - reflexivity.
  - destruct b; reflexivity.
  - discriminate.
  - cbn [jsonBelow] in Hl. cbn [stringify]. unfold quote. cbn [app]. rewrite <- app_assoc.
    cbn [app parseValue skipWs isWhitespace N.eqb Pos.eqb orb].
    rewrite parseStringBody_quoteBody by exact Hl. reflexivity.
  - cbn [jsonBelow] in Hl. cbn [stringify] in *. cbn [app] in *.
    rewrite <- app_assoc in *. cbn [app] in *.
    destruct items as [|v items].
    + reflexivity.
    + assert (Hhead : startsValue (stringify v)).
      { apply stringify_head. cbn [forallb] in Hl. now apply andb_true_iff in Hl. }
      destruct Hhead as [c [tl [Hc [Hws Hnot]]]].
      destruct (joinComma_head _ stringify v items c tl Hc) as [tl' Htl'].
      remember (joinComma (map stringify (v :: items)) ++ 93%N :: rest) as text eqn:Htext.
      assert (Hskip : skipWs text = c :: tl' ++ 93%N :: rest).
      { subst text. rewrite Htl'. cbn [app]. apply skipWs_head. exact Hws. }
      cbn [parseValue skipWs isWhitespace N.eqb Pos.eqb orb].
      rewrite Hskip, Hnot. subst text.
      rewrite parseElements_items; [reflexivity| | discriminate | ].
      * apply Forall_forall. intros x Hx. rewrite Forall_forall in IH.
        apply IH; [exact Hx|]. rewrite forallb_forall in Hl. now apply Hl.
      * cbn [length] in Hfuel. lia.
  - cbn [jsonBelow] in Hl. cbn [stringify] in *. cbn [app] in *.
    rewrite <- app_assoc in *. cbn [app] in *.
    change (map (fun kv => quote (fst kv) ++ 58%N :: stringify (snd kv)) members)
      with (map memberText members) in *.
    destruct members as [|[k v] members].
    + reflexivity.
    + destruct (joinComma_head _ memberText (k, v) members 34%N
                  (quoteBody k ++ [34%N] ++ 58%N :: stringify v)) as [tl' Htl'].
      { unfold memberText, quote. cbn [fst snd app]. now rewrite <- app_assoc. }
      remember (joinComma (map memberText ((k, v) :: members)) ++ 125%N :: rest)
        as text eqn:Htext.
      assert (Hskip : skipWs text = 34%N :: tl' ++ 125%N :: rest).
      { subst text. rewrite Htl'. reflexivity. }
      cbn [parseValue skipWs isWhitespace N.eqb Pos.eqb orb].
      rewrite Hskip. cbn [N.eqb Pos.eqb]. subst text.
      rewrite parseMembers_members; [reflexivity| | | discriminate | ].
      * apply Forall_forall. intros x Hx. rewrite Forall_forall in IH.
        apply IH; [exact Hx|]. rewrite forallb_forall in Hl.
        apply Hl in Hx. now apply andb_true_iff in Hx.
      * apply forallb_forall. intros x Hx. rewrite forallb_forall in Hl.
        apply Hl in Hx. now apply andb_true_iff in Hx.
      * cbn [length] in Hfuel. lia.
Qed.

(** [JSON.parse(JSON.stringify(v))] is [v]. *)
Lemma parse_stringify : forall v, jsonBelow 256 v = true -> Json.parse (stringify v) = Ok v.
Proof.
  intros v H. unfold Json.parse.
  pose proof (parseValue_stringify v H (2 * length (stringify v) + 2) []) as R.
  rewrite app_nil_r in R. rewrite R by lia. reflexivity.
Qed.

(** ** Fuel of the parser *)

Lemma parseValue_step :
  forall fuel s, parseValue (S fuel) s = valueStep (parseElements fuel) (parseMembers fuel) s.
Proof. reflexivity. Qed.

Lemma parseElements_step :
  forall fuel s,
    parseElements (S fuel) s = elementsStep (parseValue fuel) (parseElements fuel) s.
Proof. reflexivity. Qed.

Lemma parseMembers_step :
  forall fuel s,
    parseMembers (S fuel) s = membersStep (parseValue fuel) (parseMembers fuel) s.
Proof. reflexivity. Qed.

(** What is left is shorter. *)

Lemma skipWs_length : forall s, length (skipWs s) <= length s.
Proof.
  induction s as [|c s IH]; [reflexivity|]. simpl.
  destruct (isWhitespace c); simpl; lia.
Qed.

Lemma skipWs_cons_length :
  forall s c r, skipWs s = c :: r -> length r < length s.
Proof.
  intros s c r H. pose proof (skipWs_length s) as L. rewrite H in L. simpl in L. lia.
Qed.

Lemma parseStringBody_length :
  forall s x r, parseStringBody s = Some (x, r) -> length r < length s.
Proof.
  intros s. remember (length s) as n eqn:Hn.
  revert s Hn. induction n as [n IH] using lt_wf_ind. intros s Hn x r H.
  destruct s as [|c s]; [discriminate|].
  rewrite parseStringBody_cons in H.
  destruct (c =? 34)%N.
  { injection H as _ <-. simpl in Hn. lia. }
  destruct (c =? 92)%N.
  - destruct s as [|e s]; [discriminate|].
    destruct (e =? 117)%N.
    + destruct s as [|h1 [|h2 [|h3 [|h4 s]]]]; try discriminate.
      destruct (hex4 h1 h2 h3 h4); [|discriminate].
      destruct (parseStringBody s) as [[y r']|] eqn:E; [|discriminate].
      injection H as _ <-. apply (IH (length s)) in E; simpl in *; lia.
    + destruct (simpleEscape e); [|discriminate].
      destruct (parseStringBody s) as [[y r']|] eqn:E; [|discriminate].
      injection H as _ <-. apply (IH (length s)) in E; simpl in *; lia.
  - destruct (c <? 32)%N; [discriminate|].
    destruct (parseStringBody s) as [[y r']|] eqn:E; [|discriminate].
    injection H as _ <-. apply (IH (length s)) in E; simpl in *; lia.
Qed.

Lemma spanDigits_length : forall s, length (snd (spanDigits s)) <= length s.
Proof.
  induction s as [|c s IH]; [reflexivity|]. simpl.
  destruct (isDigit c); [|simpl; lia].
  destruct (spanDigits s) as [ds r]. simpl in *. lia.
Qed.

Lemma stripPrefix_length :
  forall word s r, stripPrefix word s = Some r -> length r <= length s.
Proof.
  induction word as [|w word IH]; intros s r H.
  - destruct s; injection H as <-; lia.
  - destruct s as [|c s]; [discriminate|]. simpl in H.
    destruct (w =? c)%N; [|discriminate]. apply IH in H. simpl. lia.
Qed.

Lemma parseNumber_length :
  forall s x r, parseNumber s = Some (x, r) -> length r < length s.
Proof.
  intros s x r H. unfold parseNumber in H.
  destruct (match s with
            | [] => ([], s)
            | c :: r0 => if (c =? 45)%N then ([c], r0) else ([], s)
            end) as [sign s1] eqn:Es.
  assert (H1 : length s1 <= length s).
  { destruct s as [|c s']; [injection Es as _ <-; lia|].
    destruct (c =? 45)%N; injection Es as _ <-; simpl; lia. }
  destruct s1 as [|d r1]; [discriminate|].
  destruct (isDigit d); [|discriminate].
  destruct (if (d =? 48)%N then ([d], r1)
            else let (ds, r') := spanDigits r1 in (d :: ds, r')) as [int s2] eqn:Ei.
  assert (H2 : length s2 <= length r1).
  { destruct (d =? 48)%N; [injection Ei as _ <-; lia|].
    pose proof (spanDigits_length r1) as L. destruct (spanDigits r1) as [ds r'].
    injection Ei as _ <-. exact L. }
  simpl in H1.
  match type of H with
  | match ?frac with _ => _ end = _ => destruct frac as [[fr s3]|] eqn:Ef; [|discriminate]
  end.
  assert (H3 : length s3 <= length s2).
  { destruct s2 as [|c r2]; [injection Ef as _ <-; lia|].
    destruct (c =? 46)%N.
    - pose proof (spanDigits_length r2) as L. destruct (spanDigits r2) as [ds r3].
      destruct ds; [discriminate|]. injection Ef as _ <-. simpl in *. lia.
    - injection Ef as _ <-. lia. }
  destruct s3 as [|c r3]; [injection H as _ <-; simpl in *; lia|].
  destruct ((c =? 101) || (c =? 69))%N.
  - destruct (match r3 with
              | [] => ([], r3)
              | g :: r4 => if ((g =? 43) || (g =? 45))%N then ([g], r4) else ([], r3)
              end) as [esign s4] eqn:Ee.
    assert (H4 : length s4 <= length r3).
    { destruct r3 as [|g r4]; [injection Ee as _ <-; lia|].
      destruct ((g =? 43) || (g =? 45))%N; injection Ee as _ <-; simpl; lia. }
    pose proof (spanDigits_length s4) as L. destruct (spanDigits s4) as [ds r5].
    destruct ds; [discriminate|]. injection H as _ <-. simpl in *. lia.
  - injection H as _ <-. simpl in *. lia.
Qed.

Lemma valueStep_consumes :
  forall elements members,
    consumes elements -> consumes members -> consumes (valueStep elements members).
Proof.
  intros pe pm He Hm s v r H. unfold valueStep in H.
  destruct (skipWs s) as [|c t] eqn:Es; [discriminate|].
  apply skipWs_cons_length in Es.
  destruct (c =? 123)%N.
  { destruct (skipWs t) as [|c' t'] eqn:Et; [discriminate|].
    apply skipWs_cons_length in Et.
    destruct (c' =? 125)%N; [injection H as _ <-; lia|].
    destruct (pm t) as [[ms r1]|] eqn:E; [|discriminate].
    injection H as _ <-. apply Hm in E. lia. }
  destruct (c =? 91)%N.
  { destruct (skipWs t) as [|c' t'] eqn:Et; [discriminate|].
    apply skipWs_cons_length in Et.
    destruct (c' =? 93)%N; [injection H as _ <-; lia|].
    destruct (pe t) as [[vs r1]|] eqn:E; [|discriminate].
    injection H as _ <-. apply He in E. lia. }
  destruct (c =? 34)%N.
  { destruct (parseStringBody t) as [[str r1]|] eqn:E; [|discriminate].
    injection H as _ <-. apply parseStringBody_length in E. lia. }
  destruct (c =? 116)%N.
  { destruct (stripPrefix (lit "rue") t) as [r1|] eqn:E; [|discriminate].
    injection H as _ <-. apply stripPrefix_length in E. lia. }
  destruct (c =? 102)%N.
  { destruct (stripPrefix (lit "alse") t) as [r1|] eqn:E; [|discriminate].
    injection H as _ <-. apply stripPrefix_length in E. lia. }
  destruct (c =? 110)%N.
  { destruct (stripPrefix (lit "ull") t) as [r1|] eqn:E; [|discriminate].
    injection H as _ <-. apply stripPrefix_length in E. lia. }
  destruct (parseNumber (c :: t)) as [[literal r1]|] eqn:E; [|discriminate].
  injection H as _ <-. apply parseNumber_length in E. simpl in E. lia.
Qed.

Lemma elementsStep_consumes :
  forall value elements,
    consumes value -> consumes elements -> consumes (elementsStep value elements).
Proof.
  intros pv pe Hv He s vs r H. unfold elementsStep in H.
  destruct (pv s) as [[v t]|] eqn:E; [|discriminate]. apply Hv in E.
  destruct (skipWs t) as [|c t'] eqn:Et; [discriminate|].
  apply skipWs_cons_length in Et.
  destruct (c =? 44)%N.
  - destruct (pe t') as [[ws r1]|] eqn:E'; [|discriminate].
    injection H as _ <-. apply He in E'. lia.
  - destruct (c =? 93)%N; [|discriminate]. injection H as _ <-. lia.
Qed.

Lemma membersStep_consumes :
  forall value members,
    consumes value -> consumes members -> consumes (membersStep value members).
Proof.
  intros pv pm Hv Hm s ms r H. unfold membersStep in H.
  destruct (skipWs s) as [|c t] eqn:Es; [discriminate|].
  apply skipWs_cons_length in Es.
  destruct (c =? 34)%N; [|discriminate].
  destruct (parseStringBody t) as [[key t1]|] eqn:Ek; [|discriminate].
  apply parseStringBody_length in Ek.
  destruct (skipWs t1) as [|c1 t2] eqn:E1; [discriminate|].
  apply skipWs_cons_length in E1.
  destruct (c1 =? 58)%N; [|discriminate].
  destruct (pv t2) as [[v t3]|] eqn:Ev; [|discriminate]. apply Hv in Ev.
  destruct (skipWs t3) as [|c3 t4] eqn:E3; [discriminate|].
  apply skipWs_cons_length in E3.
  destruct (c3 =? 44)%N.
  - destruct (pm t4) as [[ms' r5]|] eqn:E'; [|discriminate].
    injection H as _ <-. apply Hm in E'. lia.
  - destruct (c3 =? 125)%N; [|discriminate]. injection H as _ <-. lia.
Qed.

Lemma parse_consumes :
  forall fuel,
    consumes (parseValue fuel) /\ consumes (parseElements fuel)
    /\ consumes (parseMembers fuel).
Proof.
  induction fuel as [|fuel [IHv [IHe IHm]]].
  - repeat split; intros s x r H; discriminate.
  - repeat split; intros s x r H.
    + rewrite parseValue_step in H. revert H. now apply valueStep_consumes.
    + rewrite parseElements_step in H. revert H. now apply elementsStep_consumes.
    + rewrite parseMembers_step in H. revert H. now apply membersStep_consumes.
Qed.

(** The steps depend on the recursive calls on shorter texts only. *)

Lemma valueStep_ext :
  forall e1 e2 m1 m2 s,
    (forall r, length r < length s -> e1 r = e2 r) ->
    (forall r, length r < length s -> m1 r = m2 r) ->
    valueStep e1 m1 s = valueStep e2 m2 s.
Proof.
  intros e1 e2 m1 m2 s He Hm. unfold valueStep.
  destruct (skipWs s) as [|c t] eqn:Es; [reflexivity|].
  apply skipWs_cons_length in Es.
  rewrite (He t Es), (Hm t Es). reflexivity.
Qed.

Lemma elementsStep_ext :
  forall v1 v2 e1 e2 s,
    consumes v1 ->
    v1 s = v2 s ->
    (forall r, length r + 2 <= length s -> e1 r = e2 r) ->
    elementsStep v1 e1 s = elementsStep v2 e2 s.
Proof.
  intros v1 v2 e1 e2 s Hc Hv He. unfold elementsStep. rewrite <- Hv.
  destruct (v1 s) as [[v t]|] eqn:E; [|reflexivity]. apply Hc in E.
  destruct (skipWs t) as [|c t'] eqn:Et; [reflexivity|].
  apply skipWs_cons_length in Et.
  rewrite (He t') by lia. reflexivity.
Qed.

Lemma membersStep_ext :
  forall v1 v2 m1 m2 s,
    consumes v1 ->
    (forall r, length r + 3 <= length s -> v1 r = v2 r) ->
    (forall r, length r + 5 <= length s -> m1 r = m2 r) ->
    membersStep v1 m1 s = membersStep v2 m2 s.
Proof.
  intros v1 v2 m1 m2 s Hc Hv Hm. unfold membersStep.
  destruct (skipWs s) as [|c t] eqn:Es; [reflexivity|].
  apply skipWs_cons_length in Es.
  destruct (c =? 34)%N; [|reflexivity].
  destruct (parseStringBody t) as [[key t1]|] eqn:Ek; [|reflexivity].
  apply parseStringBody_length in Ek.
  destruct (skipWs t1) as [|c1 t2] eqn:E1; [reflexivity|].
  apply skipWs_cons_length in E1.
  destruct (c1 =? 58)%N; [|reflexivity].
  rewrite <- (Hv t2) by lia.
  destruct (v1 t2) as [[v t3]|] eqn:Ev; [|reflexivity]. apply Hc in Ev.
  destruct (skipWs t3) as [|c3 t4] eqn:E3; [reflexivity|].
  apply skipWs_cons_length in E3.
  rewrite (Hm t4) by lia. reflexivity.
Qed.

(** Fuel beyond twice the length of the text changes nothing. *)
Lemma parse_fuel :
  forall f1 f2 s,
    (2 * length s + 1 <= f1 -> 2 * length s + 1 <= f2 ->
     parseValue f1 s = parseValue f2 s)
    /\ (2 * length s + 2 <= f1 -> 2 * length s + 2 <= f2 ->
        parseElements f1 s = parseElements f2 s)
    /\ (2 * length s + 2 <= f1 -> 2 * length s + 2 <= f2 ->
        parseMembers f1 s = parseMembers f2 s).
Proof.
  induction f1 as [|f1 IH]; intros f2 s; [repeat split; intros; lia|].
  destruct f2 as [|f2]; [repeat split; intros; lia|].
  repeat split; intros H1 H2.
  - rewrite !parseValue_step. apply valueStep_ext; intros r Hr.
    + apply (IH f2 r); lia.
    + apply (IH f2 r); lia.
  - rewrite !parseElements_step. apply elementsStep_ext.
    + apply parse_consumes.
    + apply (IH f2 s); lia.
    + intros r Hr. apply (IH f2 r); lia.
  - rewrite !parseMembers_step. apply membersStep_ext.
    + apply parse_consumes.
    + intros r Hr. apply (IH f2 r); lia.
    + intros r Hr. apply (IH f2 r); lia.
Qed.

(** [JSON.parse] is the parser run with any fuel that is large enough. *)
Lemma parseValue_fuel :
  forall fuel s,
    2 * length s + 2 <= fuel -> parseValue fuel s = parseValue (2 * length s + 2) s.
Proof. intros fuel s H. apply (parse_fuel fuel (2 * length s + 2) s); lia. Qed.

(** ** The serialized text stays below the bound of its strings *)

Lemma charsBelow_app :
  forall bound a b, charsBelow bound (a ++ b) = charsBelow bound a && charsBelow bound b.
Proof. intros. unfold charsBelow. apply forallb_app. Qed.

Lemma charsBelow_mono :
  forall b1 b2 s, (b1 <= b2)%N -> charsBelow b1 s = true -> charsBelow b2 s = true.
Proof.
  intros b1 b2 s Hle H. unfold charsBelow in *. rewrite forallb_forall in *.
  intros c Hc. specialize (H c Hc). apply N.ltb_lt in H. apply N.ltb_lt. lia.
Qed.

Lemma charsBelow_ascii :
  forall bound s, (128 <= bound)%N -> isAscii s = true -> charsBelow bound s = true.
Proof. intros bound s Hb H. exact (charsBelow_mono 128 bound s Hb H). Qed.

Lemma hexDigit_small : forall d, (d < 16)%N -> (hexDigit d < 128)%N.
Proof. intros d H. unfold hexDigit. destruct (N.ltb_spec d 10); lia. Qed.

Lemma quoteChar_below :
  forall bound c, (128 <= bound)%N -> (c < bound)%N -> charsBelow bound (quoteChar c) = true.
Proof.
  intros bound c Hb Hc. unfold quoteChar.
  repeat match goal with
         | |- context [(c =? ?k)%N] =>
             destruct (N.eqb_spec c k); [apply charsBelow_ascii; [exact Hb|reflexivity]|]
         end.
  destruct (N.ltb_spec c 32).
  - apply charsBelow_ascii; [exact Hb|].
    unfold unicodeEscape, isAscii, charsBelow. cbn [forallb].
    repeat (apply andb_true_iff; split); try reflexivity;
      apply N.ltb_lt, hexDigit_small, N.mod_lt; discriminate.
  - unfold charsBelow. cbn [forallb]. rewrite andb_true_r. now apply N.ltb_lt.
Qed.

Lemma quoteBody_below :
  forall bound s, (128 <= bound <= 256)%N ->
    charsBelow bound s = true -> charsBelow bound (quoteBody s) = true.
Proof.
  intros bound s Hb. induction s as [|c s IH]; intros H; [reflexivity|].
  cbn [charsBelow forallb] in H. apply andb_true_iff in H. destruct H as [Hc Hs].
  apply N.ltb_lt in Hc. rewrite quoteBody_latin1 by lia.
  rewrite charsBelow_app, quoteChar_below, IH by (assumption || lia). reflexivity.
Qed.

Lemma quote_below :
  forall bound s, (128 <= bound <= 256)%N ->
    charsBelow bound s = true -> charsBelow bound (quote s) = true.
Proof.
  intros bound s Hb H. unfold quote.
  change (34%N :: quoteBody s ++ [34%N]) with ([34%N] ++ quoteBody s ++ [34%N]).
  rewrite !charsBelow_app, quoteBody_below by assumption.
  rewrite (charsBelow_ascii bound [34%N]) by (lia || reflexivity). reflexivity.
Qed.

Lemma joinComma_below :
  forall bound parts, (128 <= bound)%N ->
    forallb (charsBelow bound) parts = true -> charsBelow bound (joinComma parts) = true.
Proof.
  intros bound parts Hb. induction parts as [|p parts IH]; intros H; [reflexivity|].
  cbn [forallb] in H. apply andb_true_iff in H. destruct H as [Hp Hr].
  destruct parts as [|q parts]; [exact Hp|].
  change (joinComma (p :: q :: parts)) with (p ++ [44%N] ++ joinComma (q :: parts)).
  rewrite !charsBelow_app, Hp, IH by exact Hr.
  rewrite (charsBelow_ascii bound [44%N]) by (lia || reflexivity). reflexivity.
Qed.

Lemma bracketed_below :
  forall bound open close body, (128 <= bound)%N ->
    (open < 128)%N -> (close < 128)%N ->
    charsBelow bound body = true ->
    charsBelow bound (open :: body ++ [close]) = true.
Proof.
  intros bound open close body Hb Ho Hc H.
  change (open :: body ++ [close]) with ([open] ++ body ++ [close]).
  rewrite !charsBelow_app, H. unfold charsBelow. cbn [forallb].
  replace (open <? bound)%N with true by (symmetry; apply N.ltb_lt; lia).
  replace (close <? bound)%N with true by (symmetry; apply N.ltb_lt; lia).
  reflexivity.
Qed.

(** The text of a value below the bound is below the bound. *)
Lemma stringify_below :
  forall bound v, (128 <= bound <= 256)%N ->
    jsonBelow bound v = true -> charsBelow bound (stringify v) = true.
Proof.
  intros bound v Hb.
  induction v as [ | b | literal | s | items IH | members IH ] using json_induction;
    intros Hl.
  - apply charsBelow_ascii; [lia|reflexivity].
  - destruct b; (apply charsBelow_ascii; [lia|reflexivity]).
  - discriminate.
  - apply quote_below; assumption.
  - cbn [stringify jsonBelow] in *.
    apply bracketed_below; try lia. apply joinComma_below; [lia|].
    apply forallb_forall. intros t Ht. apply in_map_iff in Ht. destruct Ht as [x [<- Hx]].
    rewrite Forall_forall in IH. apply IH; [exact Hx|].
    rewrite forallb_forall in Hl. now apply Hl.
  - cbn [stringify jsonBelow] in *.
    apply bracketed_below; try lia. apply joinComma_below; [lia|].
    apply forallb_forall. intros t Ht. apply in_map_iff in Ht. destruct Ht as [x [<- Hx]].
    rewrite forallb_forall in Hl. apply Hl in Hx as Hx'.
    apply andb_true_iff in Hx'. destruct Hx' as [Hk Hv].
    change (quote (fst x) ++ 58%N :: stringify (snd x))
      with (quote (fst x) ++ [58%N] ++ stringify (snd x)).
    rewrite !charsBelow_app, quote_below by assumption.
    rewrite (charsBelow_ascii bound [58%N]) by (lia || reflexivity).
    rewrite Forall_forall in IH. rewrite (IH x Hx Hv). reflexivity.
Qed.

(** ** Decoys and envelopes *)

Lemma digitChar_hex : forall d, (d < 16)%N -> isHexChar (digitChar d) = true.
Proof.
  intros d Hd. unfold isHexChar, digitChar, hexDigit.
  destruct (N.ltb_spec d 10).
  - apply orb_true_iff. left. apply andb_true_iff. split; apply N.leb_le; lia.
  - apply orb_true_iff. right. apply andb_true_iff. split; apply N.leb_le; lia.
Qed.

Lemma digitChar_base36 : forall d, (d < 36)%N -> isBase36Char (digitChar d) = true.
Proof.
  intros d Hd. unfold isBase36Char, digitChar, hexDigit.
  destruct (N.ltb_spec d 10).
  - apply orb_true_iff. left. apply andb_true_iff. split; apply N.leb_le; lia.
  - apply orb_true_iff. right. apply andb_true_iff. split; apply N.leb_le; lia.
Qed.

Lemma toHex_length : forall buffer, length (toHex buffer) = 2 * length buffer.
Proof.
  induction buffer as [|b rest IH]; simpl; [reflexivity|]. rewrite IH. lia.
Qed.

Lemma toHex_chars :
  forall buffer, Forall (fun b => (b < 256)%N) buffer ->
                 forallb isHexChar (toHex buffer) = true.
Proof.
  induction 1 as [|b rest Hb _ IH]; simpl; [reflexivity|].
  rewrite IH, !digitChar_hex; try reflexivity.
  - apply N.mod_lt. discriminate.
  - apply N.Div0.div_lt_upper_bound. lia.
Qed.

Lemma randomBytes_length : forall ent k size, length (randomBytes ent k size) = size.
Proof. intros. unfold randomBytes. now rewrite length_map, length_seq. Qed.

Lemma randomBytes_range :
  forall ent k size, Forall (fun b => (b < 256)%N) (randomBytes ent k size).
Proof.
  intros. unfold randomBytes. apply Forall_forall. intros b Hb.
  apply in_map_iff in Hb. destruct Hb as [j [<- _]]. apply N.mod_lt. discriminate.
Qed.

(** The six characters at most that [slice(2, 8)] keeps of the base-36
    text of a random draw. *)
Lemma randomSuffix_shape :
  forall ent i,
    let suffix := slice 2 8 (randomToString36 ent i) in
    length suffix <= 6 /\ forallb isBase36Char suffix = true.
Proof.
  intros ent i suffix. subst suffix. unfold slice. split.
  - rewrite length_firstn. lia.
  - unfold randomToString36. destruct (randomDigits ent i) as [|d ds].
    + reflexivity.
    + change (skipn 2 (lit "0." ++ map (fun d0 => digitChar (d0 mod 36)%N) (d :: ds)))
        with (map (fun d0 => digitChar (d0 mod 36)%N) (d :: ds)).
      apply firstn_forallb. apply forallb_forall. intros c Hc.
      apply in_map_iff in Hc. destruct Hc as [x [<- _]].
      apply digitChar_base36. apply N.mod_lt. discriminate.
Qed.

Lemma hexChars_ascii : forall s, forallb isHexChar s = true -> isAscii s = true.
Proof.
  intros s H. unfold isAscii, charsBelow. rewrite forallb_forall in *. intros c Hc.
  specialize (H c Hc). unfold isHexChar in H. apply N.ltb_lt.
  apply orb_true_iff in H. destruct H as [H|H]; apply andb_true_iff in H;
    destruct H as [_ H]; apply N.leb_le in H; lia.
Qed.

Lemma base36Chars_ascii : forall s, forallb isBase36Char s = true -> isAscii s = true.
Proof.
  intros s H. unfold isAscii, charsBelow. rewrite forallb_forall in *. intros c Hc.
  specialize (H c Hc). unfold isBase36Char in H. apply N.ltb_lt.
  apply orb_true_iff in H. destruct H as [H|H]; apply andb_true_iff in H;
    destruct H as [_ H]; apply N.leb_le in H; lia.
Qed.

Lemma decoy_tag : forall ent i, hasTag "decoy" (decoy ent i) = true.
Proof. reflexivity. Qed.

Lemma decoy_not_real : forall ent i, hasTag "real" (decoy ent i) = false.
Proof. reflexivity. Qed.

Lemma decoy_below :
  forall bound ent i, (128 <= bound)%N -> jsonBelow bound (decoy ent i) = true.
Proof.
  intros bound ent i Hb. unfold decoy.
  assert (H1 : forall k, charsBelow bound (toHex (randomBytes ent k 32)) = true)
    by (intros k; apply charsBelow_ascii, hexChars_ascii, toHex_chars, randomBytes_range;
        exact Hb).
  assert (H2 : charsBelow bound (slice 2 8 (randomToString36 ent i)) = true)
    by (apply charsBelow_ascii, base36Chars_ascii, randomSuffix_shape; exact Hb).
  assert (H3 : forall s, isAscii s = true -> charsBelow bound s = true)
    by (intros s; apply charsBelow_ascii; exact Hb).
  cbn [jsonBelow forallb fst snd].
  rewrite !H1, charsBelow_app, H2, !H3 by reflexivity. reflexivity.
Qed.

Lemma buildPayload_below :
  forall bound data options ent, (128 <= bound)%N ->
    jsonBelow bound data = true -> jsonBelow bound (buildPayload data options ent) = true.
Proof.
  intros bound data options ent Hb H.
  assert (H3 : forall s, isAscii s = true -> charsBelow bound s = true)
    by (intros s; apply charsBelow_ascii; exact Hb).
  unfold buildPayload. destruct (noiseDefense options).
  - cbn [jsonBelow forallb fst snd realEntry]. rewrite H, !H3 by reflexivity.
    replace (forallb (jsonBelow bound)
               (map (decoy ent) (seq 0 (effectiveDecoyCount options)))) with true;
      [reflexivity|].
    symmetry. apply forallb_forall. intros e He. apply in_map_iff in He.
    destruct He as [i [<- _]]. apply decoy_below. exact Hb.
  - cbn [jsonBelow forallb fst snd]. rewrite H, !H3 by reflexivity. reflexivity.
Qed.

Lemma payloadJson_below :
  forall bound p, (128 <= bound)%N ->
    payloadBelow bound p = true -> jsonBelow bound (payloadJson p) = true.
Proof.
  intros bound p Hb H. unfold payloadBelow in H.
  repeat (apply andb_true_iff in H; destruct H as [H ?]).
  assert (Hascii : forall s, isAscii s = true -> charsBelow bound s = true)
    by (intros s; apply charsBelow_ascii; exact Hb).
  unfold payloadJson. cbn [jsonBelow forallb fst snd].
  rewrite H, H0, H1, H2, H3, H4, !Hascii by reflexivity. reflexivity.
Qed.

Lemma payloadBelow_mono :
  forall b1 b2 p, (b1 <= b2)%N -> payloadBelow b1 p = true -> payloadBelow b2 p = true.
Proof.
  intros b1 b2 p Hle H. unfold payloadBelow in *.
  repeat (apply andb_true_iff in H; destruct H as [H ?]).
  repeat (apply andb_true_iff; split); eapply charsBelow_mono; eassumption.
Qed.

(** What [extractData] selects from the envelope [embedData] built. *)
Lemma selectResult_buildPayload :
  forall data options ent,
    truthy data = true -> selectResult (buildPayload data options ent) = data.
Proof.
  intros data options ent H. unfold buildPayload, selectResult.
  destruct (noiseDefense options).
  - cbn. rewrite H. reflexivity.
  - cbn. rewrite H. reflexivity.
Qed.

Lemma find_filter :
  forall {A} (f : A -> bool) l, find f l = hd_error (filter f l).
Proof.
  intros A f. induction l as [|x l IH]; [reflexivity|].
  simpl. destruct (f x); [reflexivity|exact IH].
Qed.

(** ** Extraction and embedding, step by step *)

(** [extractData] never throws: it resolves to null on every fault, and to
    the selected value otherwise. *)
Lemma extractData_cases :
  forall file,
    extractData file
    = Ok match contents file, image file with
         | Some _, Some pixels =>
             match embeddedText pixels with
             | Some text =>
                 match Json.parse text with
                 | Ok extracted => selectResult extracted
                 | Throw _ => JNull
                 end
             | None => JNull
             end
         | _, _ => JNull
         end.
Proof.
  intros [c i]. unfold extractData, extractBody, readFileSync, loadImage.
  cbn [contents image]. destruct c as [bytes|]; [|reflexivity].
  destruct i as [pixels|]; [|reflexivity]. cbn [bind].
  destruct (embeddedText pixels) as [text|]; [|reflexivity].
  destruct (Json.parse text); reflexivity.
Qed.

(** No text is recovered exactly when the marker is missing or fewer than
    32 bits come before it. *)
Lemma embeddedText_none :
  forall pixels,
    embeddedText pixels = None
    <-> snd (extractLoop pixels []) = false \/ length (fst (extractLoop pixels [])) < 32.
Proof.
  intros pixels. unfold embeddedText.
  destruct (extractLoop pixels []) as [bd found]. cbn [fst snd].
  destruct found; cbn [negb orb].
  - destruct (Nat.ltb_spec (length bd) 32) as [Hlt|Hge]; split; intros H;
      try discriminate; try tauto.
    destruct H as [H|H]; [discriminate|lia].
  - split; intros _; [left|]; reflexivity.
Qed.

(** The capacity check of [embedData] compares the frame with
    [pixels.length * 3], twelve bits per pixel; a frame that passes goes
    through the write loop to the canvas. *)
Lemma embedData_capacity_check :
  forall cv bytes pixels data options ent,
    embedData cv {| contents := Some bytes; image := Some pixels |} data options ent
    = if 12 * length pixels <? length (frame (stringify (buildPayload data options ent)))
      then Throw "Failed to embed data via steganography"
      else tryCatch
             (writePng cv (embedLoop pixels (frame (stringify (buildPayload data options ent)))))
             (fun _ => Throw "Failed to embed data via steganography").
Proof.
  intros. unfold embedData, readFileSync, loadImage. cbn [contents image bind].
  replace (4 * length pixels * 3) with (12 * length pixels) by lia.
  destruct (12 * length pixels <? _); reflexivity.
Qed.

(** The write loop keeps an opaque buffer opaque. *)
Lemma embedLoop_opaque :
  forall pixels data, Forall opaquePixel pixels -> Forall opaquePixel (embedLoop pixels data).
Proof.
  induction pixels as [|p rest IH]; intros data Hb; [constructor|].
  inversion Hb as [|? ? Hp Hrest]; subst.
  destruct Hp as (Hr & Hg & Hbl & Ha).
  destruct data as [|b0 [|b1 [|b2 data']]]; cbn [embedLoop]; [exact Hb| | |].
  - constructor; [|exact Hrest]. repeat split; cbn; try assumption.
    apply (setLsb_byte (red p) b0 Hr).
  - constructor; [|exact Hrest]. repeat split; cbn; try assumption.
    + apply (setLsb_byte (red p) b0 Hr).
    + apply (setLsb_byte (green p) b1 Hg).
  - constructor; [|apply IH; exact Hrest]. repeat split; cbn; try assumption.
    + apply (setLsb_byte (red p) b0 Hr).
    + apply (setLsb_byte (green p) b1 Hg).
    + apply (setLsb_byte (blue p) b2 Hbl).
Qed.

Lemma frame_not_empty : forall text, 16 <= length (frame text).
Proof.
  intros text. unfold frame. rewrite !length_app. unfold endMarker.
  rewrite length_app, repeat_length. cbn [length]. lia.
Qed.

(** With a canvas that keeps opaque images, a frame that passes the check
    on an opaque carrier is written: the file returned decodes to the
    buffer the write loop left. *)
Lemma embedData_opaque :
  forall cv file bytes pixels data options ent,
    keepsOpaque cv ->
    contents file = Some bytes ->
    image file = Some pixels ->
    Forall opaquePixel pixels ->
    length (frame (stringify (buildPayload data options ent))) <= 12 * length pixels ->
    exists bytes',
      embedData cv file data options ent
      = Ok {| contents := Some bytes';
              image := Some (embedLoop pixels
                               (frame (stringify (buildPayload data options ent)))) |}.
Proof.
  intros cv [c i] bytes pixels data options ent Hcv Hc Hi Hop Hfit.
  cbn [contents image] in Hc, Hi. subst c i.
  rewrite embedData_capacity_check.
  set (full := frame (stringify (buildPayload data options ent))) in *.
  replace (12 * length pixels <? length full) with false
    by (symmetry; apply Nat.ltb_ge; exact Hfit).
  destruct (Hcv (embedLoop pixels full)) as [bytes' Hw].
  - intros Hnil. apply (f_equal (@length Pixel)) in Hnil.
    rewrite embedLoop_length in Hnil. cbn [length] in Hnil.
    pose proof (frame_not_empty (stringify (buildPayload data options ent))) as Hf.
    fold full in Hf. lia.
  - apply embedLoop_opaque, Hop.
  - exists bytes'. rewrite Hw. reflexivity.
Qed.

(** What a successful [embedData] wrote, under such a canvas. *)
Lemma embedData_ok :
  forall cv file data options ent written pixels,
    keepsOpaque cv ->
    image file = Some pixels ->
    Forall opaquePixel pixels ->
    embedData cv file data options ent = Ok written ->
    image written
    = Some (embedLoop pixels (frame (stringify (buildPayload data options ent))))
    /\ exists bytes, contents written = Some bytes.
Proof.
  intros cv file data options ent written pixels Hcv Hi Hop He.
  destruct (contents file) as [bytes|] eqn:Hc.
  - destruct (Nat.le_gt_cases
                (length (frame (stringify (buildPayload data options ent))))
                (12 * length pixels)) as [Hfit|Hover].
    + destruct (embedData_opaque cv file bytes pixels data options ent Hcv Hc Hi Hop Hfit)
        as [bytes' Hw].
      rewrite Hw in He. inversion He; subst written. cbn [image contents].
      split; [reflexivity|eexists; reflexivity].
    + destruct file as [c i]. cbn [contents image] in Hc, Hi. subst c i.
      rewrite embedData_capacity_check in He.
      apply Nat.ltb_lt in Hover. rewrite Hover in He. discriminate.
  - destruct file as [c i]. cbn [contents] in Hc. subst c. discriminate.
Qed.

(** Extraction from a carrier that holds the frame of [text]. *)
Lemma extractData_embedded :
  forall text pixels bytes v,
    isLatin1 text = true ->
    (N.of_nat (length text) < 2 ^ 32)%N ->
    markerOnlyAtEnd (frame text) = true ->
    length (frame text) <= 3 * length pixels ->
    Json.parse text = Ok v ->
    extractData {| contents := Some bytes; image := Some (embedLoop pixels (frame text)) |}
    = Ok (selectResult v).
Proof.
  intros text pixels bytes v Hlatin Hlen Honly Hcap Hparse.
  rewrite extractData_cases. cbn [contents image].
  rewrite embeddedText_frame by assumption.
  rewrite Hparse. reflexivity.
Qed.

(** Round trip for any truthy value without numbers whose strings are
    Latin-1, on an opaque carrier. *)
Lemma embed_extract_value :
  forall (cv : Canvas) (data : json) (options : Options) (ent : Entropy) (file : File)
         (bytes : list N) (pixels : list Pixel),
    keepsOpaque cv ->
    contents file = Some bytes ->
    image file = Some pixels ->
    Forall opaquePixel pixels ->
    jsonBelow 256 data = true ->
    truthy data = true ->
    let text := stringify (buildPayload data options ent) in
    (N.of_nat (length text) < 2 ^ 32)%N ->
    markerOnlyAtEnd (frame text) = true ->
    requiredBits (length text) <= capacity pixels ->
    exists written,
      embedData cv file data options ent = Ok written /\ extractData written = Ok data.
Proof.
  intros cv data options ent file bytes pixels Hcv Hc Hi Hop Hl Ht text Hlen Honly Hcap.
  assert (Hjson : jsonBelow 256 (buildPayload data options ent) = true)
    by (apply buildPayload_below; [lia|exact Hl]).
  assert (Htext : isLatin1 text = true) by (apply stringify_below; [lia|exact Hjson]).
  rewrite <- (frame_length text Htext Hlen) in Hcap. unfold capacity in Hcap.
  destruct (embedData_opaque cv file bytes pixels data options ent Hcv Hc Hi Hop)
    as [bytes' Hw]; [fold text; lia|].
  fold text in Hw. eexists. split; [exact Hw|].
  rewrite (extractData_embedded text pixels bytes' (buildPayload data options ent));
    try assumption.
  - now rewrite selectResult_buildPayload.
  - apply parse_stringify, Hjson.
Qed.

(** The marker condition holds for every ASCII payload whose envelope is
    shorter than 32767 characters: for these the round trip needs the
    capacity only. *)
Lemma embed_extract_ascii :
  forall (cv : Canvas) (p : CanonicalPayload) (options : Options) (ent : Entropy)
         (file : File) (bytes : list N) (pixels : list Pixel),
    keepsOpaque cv ->
    contents file = Some bytes ->
    image file = Some pixels ->
    Forall opaquePixel pixels ->
    payloadBelow 128 p = true ->
    let text := stringify (buildPayload (payloadJson p) options ent) in
    (N.of_nat (length text) < 32767)%N ->
    requiredBits (length text) <= capacity pixels ->
    exists written,
      embedData cv file (payloadJson p) options ent = Ok written
      /\ extractData written = Ok (payloadJson p).
Proof.
  intros cv p options ent file bytes pixels Hcv Hc Hi Hop Hp text Hlen Hcap.
  apply (embed_extract_value cv (payloadJson p) options ent file bytes pixels Hcv Hc Hi Hop);
    try assumption.
  - apply payloadJson_below; [lia|]. apply (payloadBelow_mono 128 256); [lia|exact Hp].
  - reflexivity.
  - fold text. change (2 ^ 32)%N with 4294967296%N. lia.
  - apply ascii_markerOnlyAtEnd; [|exact Hlen].
    apply stringify_below; [lia|]. apply buildPayload_below; [lia|].
    apply payloadJson_below; [lia|exact Hp].
Qed.

(** The sample canvas keeps opaque images, and the sample carriers are
    opaque. *)
Lemma alphaCanvas_keepsOpaque : keepsOpaque Samples.alphaCanvas.
Proof.
  intros buffer _ Hop. exists [137; 80; 78; 71]%N.
  unfold Samples.alphaCanvas, Samples.stored. cbn [writePng].
  assert (Hid : forall c, (c < 256)%N -> Samples.throughAlpha 255 c = c).
  { intros c Hc. unfold Samples.throughAlpha. change (255 =? 0)%N with false. cbv iota.
    rewrite N.div_mul by lia. change (255 / 2)%N with 127%N.
    replace ((c * 255 + 127) / 255)%N with c; [lia|].
    apply N.div_unique with (r := 127%N); lia. }
  assert (Hmap : map Samples.throughCanvas buffer = buffer).
  { induction Hop as [|p rest (Hr & Hg & Hb & Ha) _ IH]; [reflexivity|].
    cbn [map]. rewrite IH. f_equal.
    destruct p as [r g b a]. cbn [red green blue alpha] in *. subst a.
    unfold Samples.throughCanvas. cbn [red green blue alpha].
    now rewrite !Hid. }
  now rewrite Hmap.
Qed.

Lemma white_opaque : forall n, Forall opaquePixel (repeat Samples.white n).
Proof.
  intros n. apply Forall_forall. intros p Hp. apply repeat_spec in Hp. subst p.
  repeat split.
Qed.

(* ================================================================== *)
(** * The claims                                                        *)
(* ================================================================== *)

(** ** C1: what the anchor check compares *)

(** C1, what the code does: every anchor call of the handler passes the
    bare digest of the uploaded bytes as the expected hash, whatever the
    recovered signature is, and never a digest of digest and signature;
    without a contract the check answers [valid] for any two arguments. *)
Theorem verify_anchor_expects_file_hash :
  forall (pf : Platform) (file : File),
    Forall (fun c => match anchorArgument c with
                     | Some expectedHash =>
                         generateHash (sha256hex pf) file = Ok expectedHash
                     | None => True
                     end)
           (snd (verifyCertificate pf (Some file)))
    /\ forall sendData transactionData randomHash transactionHash expectedHash,
         valid (verifyHash {| contract := None; sendData := sendData;
                              transactionData := transactionData;
                              randomHash := randomHash |}
                           transactionHash expectedHash) = true.
Proof.
  intros pf file. split; [|reflexivity].
  unfold verifyCertificate.
  destruct (generateHash (sha256hex pf) file) as [h|m] eqn:Hh; cbn [snd].
  - destruct (extractData file) as [v|m]; cbn [snd].
    + destruct (truthy v); cbn [negb snd]; repeat constructor.
    + repeat constructor.
  - repeat constructor.
Qed.

(** On the sample carrier the anchor call gets the file digest of the
    platform and the transaction hash of the payload; the signature of the
    payload goes to the signature check only. *)
Example verify_anchor_sample :
  snd (verifyCertificate Samples.platform (Some sampleCarrier))
  = [ CallGenerateHash; CallExtractData;
      CallVerifyHash (Some (JStr (lit "0x5e1f"))) (Samples.checksum [137; 80; 78; 71]%N);
      CallVerifySignature (Samples.checksum [137; 80; 78; 71]%N)
        (Some (JStr (lit "c2lnbmF0dXJl"))) (Some (JStr (lit "univ-1"))) ].
Proof. vm_compute. reflexivity. Qed.

(** The data-transaction path of [verifyHash] is never taken: the result
    does not depend on what the chain holds under the transaction hash. *)
Lemma verifyHash_ignores_stored_data :
  forall ch data1 data2 transactionHash expectedHash,
    verifyHash {| contract := contract ch; sendData := sendData ch;
                  transactionData := data1; randomHash := randomHash ch |}
               transactionHash expectedHash
    = verifyHash {| contract := contract ch; sendData := sendData ch;
                    transactionData := data2; randomHash := randomHash ch |}
                 transactionHash expectedHash.
Proof.
  intros ch d1 d2 tx e. unfold verifyHash, hasContract. simpl.
  destruct (contract ch); reflexivity.
Qed.

(** ** C2: order of the entries *)

(** C2, as the code has it: in noise mode the envelope holds the real
    entry first and then the N decoys in the order they were drawn, for
    every state of the random sources; N is [decoyCount], or 5 when that is
    absent or 0. *)
Theorem noise_entries_fixed_order :
  forall (data : json) (count : option nat) (ent : Entropy),
    let options := {| noiseDefense := true; decoyCount := count |} in
    let entries := envelopeEntries (buildPayload data options ent) in
    entries = realEntry data :: map (decoy ent) (seq 0 (effectiveDecoyCount options))
    /\ length entries = effectiveDecoyCount options + 1
    /\ realPosition entries = Some 0
    /\ forallb (hasTag "decoy") (tl entries) = true.
Proof.
  intros data count ent options entries.
  assert (E : entries = realEntry data :: map (decoy ent) (seq 0 (effectiveDecoyCount options)))
    by reflexivity.
  rewrite E. repeat split.
  - simpl. rewrite length_map, length_seq. lia.
  - simpl. apply forallb_forall. intros e He.
    apply in_map_iff in He. destruct He as [i [<- _]]. apply decoy_tag.
Qed.

(** C2, counterexample: two calls with different random draws build
    different envelopes, and the real entry is at index 0 in both. *)
Lemma noise_real_entry_first_on_both_draws :
  let dataJ := payloadJson Samples.payload in
  let entriesA := envelopeEntries (buildPayload dataJ Samples.noiseMode Samples.entropyA) in
  let entriesB := envelopeEntries (buildPayload dataJ Samples.noiseMode Samples.entropyB) in
  realPosition entriesA = Some 0 /\ realPosition entriesB = Some 0 /\
  nth_error entriesA 0 = Some (realEntry dataJ) /\
  nth_error entriesB 0 = Some (realEntry dataJ) /\
  nth_error entriesA 1 <> nth_error entriesB 1.
Proof.
  repeat split. vm_compute. discriminate.
Qed.

(** ** C3: which entry of a noise envelope is recovered *)

(** A number is truthy when the double it denotes is not zero: a literal
    that underflows is as falsy as [0].  An entry tagged real whose data
    is such a number is passed over, and a plain envelope with such data
    comes back whole. *)
Example underflow_is_falsy :
  truthy (JNum (lit "1e-400")) = false
  /\ truthy (JNum (lit "-0.0")) = false
  /\ truthy (JNum (lit "0e5")) = false
  /\ truthy (JNum (lit "2e-324")) = false
  /\ truthy (JNum (lit "5e-324")) = true
  /\ truthy (JNum (lit "0.5")) = true
  /\ truthy (JNum (lit "1E+2")) = true
  /\ Json.parse
       (stringify (JArr [ realEntry (JNum (lit "1e-400")); realEntry (JNum (lit "7")) ]))
     = Ok (JArr [ realEntry (JNum (lit "1e-400")); realEntry (JNum (lit "7")) ])
  /\ selectResult
       (JObj [ (lit "mode", JStr (lit "noise"));
               (lit "entries",
                 JArr [ realEntry (JNum (lit "1e-400")); realEntry (JNum (lit "7")) ]) ])
     = JNum (lit "7")
  /\ selectResult (JObj [ (lit "mode", JStr (lit "plain")); (lit "data", JNum (lit "1e-400")) ])
     = JObj [ (lit "mode", JStr (lit "plain")); (lit "data", JNum (lit "1e-400")) ].
Proof. repeat split; vm_compute; reflexivity. Qed.


(** C3, as the code has it: when the recovered text parses to an envelope
    whose mode is noise and whose entries are an array, extraction returns
    null if no entry is tagged real with a truthy [data], and otherwise
    the [data] of the first such entry, however many there are. *)
Theorem noise_selects_first_real :
  forall (file : File) (bytes : list N) (pixels : list Pixel) (text : jsstring)
         (extracted : json) (entries : list json),
    contents file = Some bytes ->
    image file = Some pixels ->
    embeddedText pixels = Some text ->
    Json.parse text = Ok extracted ->
    isString (getProp extracted "mode") "noise" = true ->
    getProp extracted "entries" = Some (JArr entries) ->
    match filter isRealEntry entries with
    | [] => extractData file = Ok JNull
    | real :: _ => extractData file = Ok (entryData real)
    end.
Proof.
  intros file bytes pixels text extracted entries Hc Hi Ht Hp Hmode Hentries.
  rewrite extractData_cases, Hc, Hi, Ht, Hp.
  assert (Htruthy : truthy extracted = true).
  { destruct extracted; try discriminate. reflexivity. }
  unfold selectResult. rewrite Htruthy, Hmode, Hentries. cbn [isArray arrayItems andb].
  rewrite find_filter. destruct (filter isRealEntry entries); reflexivity.
Qed.

Lemma noise_selects_first_real_witness :
  extractData twoRealCarrier = Ok (JObj [(lit "issuerId", JStr (lit "first"))]).
Proof.
  exact (noise_selects_first_real twoRealCarrier [137; 80; 78; 71]%N
           (embedLoop (repeat Samples.white 400) (frame (stringify twoRealEnvelope)))
           (stringify twoRealEnvelope) twoRealEnvelope
           (envelopeEntries twoRealEnvelope)
           eq_refl eq_refl
           ltac:(vm_compute; reflexivity) ltac:(vm_compute; reflexivity)
           eq_refl eq_refl).
Defined.

(** C3, counterexample: the carrier holds a noise envelope with two
    entries tagged real; extraction does not return null, it returns the
    record of the first. *)
Lemma two_real_entries_first_selected :
  embeddedText (embedLoop (repeat Samples.white 400) (frame (stringify twoRealEnvelope)))
    = Some (stringify twoRealEnvelope) /\
  Json.parse (stringify twoRealEnvelope) = Ok twoRealEnvelope /\
  isString (getProp twoRealEnvelope "mode") "noise" = true /\
  length (filter (hasTag "real") (envelopeEntries twoRealEnvelope)) = 2 /\
  extractData twoRealCarrier = Ok (JObj [(lit "issuerId", JStr (lit "first"))]) /\
  extractData twoRealCarrier <> Ok JNull.
Proof.
  repeat split; try (vm_compute; reflexivity).
  vm_compute. discriminate.
Qed.

(** ** C4: the capacity check *)

(** C4, what the code does at the boundary: the sample payload needs 1528
    bits, the opaque carrier of 509 pixels holds 1527; embedding does not
    fail, it writes the first 1527 bits into the pixels, and, with a canvas
    that keeps opaque images, nothing can be extracted from the file it
    returns. *)
Theorem embed_over_capacity_not_refused :
  forall cv : Canvas,
    keepsOpaque cv ->
    let pixels := repeat Samples.white 509 in
    let data := payloadJson Samples.payload in
    let text := stringify (buildPayload data Samples.plainMode Samples.entropyA) in
    requiredBits (length text) = 1528 /\
    length (frame text) = 1528 /\
    capacity pixels = 1527 /\
    embedLoop pixels (frame text) <> pixels /\
    exists bytes,
      embedData cv (Samples.blank 509) data Samples.plainMode Samples.entropyA
        = Ok {| contents := Some bytes; image := Some (embedLoop pixels (frame text)) |} /\
      extractData {| contents := Some bytes; image := Some (embedLoop pixels (frame text)) |}
        = Ok JNull.
Proof.
  intros cv Hcv pixels data text.
  split; [vm_compute; reflexivity|]. split; [vm_compute; reflexivity|].
  split; [vm_compute; reflexivity|]. split.
  - intros H. apply (f_equal (fun l => hd Samples.white l)) in H.
    vm_compute in H. discriminate.
  - destruct (embedData_opaque cv (Samples.blank 509) [137; 80; 78; 71]%N pixels data
                Samples.plainMode Samples.entropyA Hcv eq_refl eq_refl
                (white_opaque 509)) as [bytes Hw].
    + apply Nat.leb_le. vm_compute. reflexivity.
    + exists bytes. split; [exact Hw|].
      rewrite extractData_cases. cbn [contents image].
      replace (embeddedText (embedLoop pixels (frame text))) with (@None jsstring);
        [reflexivity|].
      vm_compute. reflexivity.
Qed.

Lemma embed_over_capacity_not_refused_witness :
  let pixels := repeat Samples.white 509 in
  let data := payloadJson Samples.payload in
  let text := stringify (buildPayload data Samples.plainMode Samples.entropyA) in
  requiredBits (length text) = 1528 /\
  length (frame text) = 1528 /\
  capacity pixels = 1527 /\
  embedLoop pixels (frame text) <> pixels /\
  exists bytes,
    embedData Samples.alphaCanvas (Samples.blank 509) data Samples.plainMode Samples.entropyA
      = Ok {| contents := Some bytes; image := Some (embedLoop pixels (frame text)) |} /\
    extractData {| contents := Some bytes; image := Some (embedLoop pixels (frame text)) |}
      = Ok JNull.
Proof.
  exact (embed_over_capacity_not_refused Samples.alphaCanvas alphaCanvas_keepsOpaque).
Defined.

(** The check refuses a frame only when it is longer than twelve bits per
    pixel, and then before any pixel is written. *)
Lemma embedData_refuses_beyond_twelve_per_pixel :
  forall cv bytes pixels data options ent,
    let full := frame (stringify (buildPayload data options ent)) in
    (12 * length pixels < length full ->
     embedData cv {| contents := Some bytes; image := Some pixels |} data options ent
     = Throw "Failed to embed data via steganography")
    /\ (length full <= 12 * length pixels ->
        embedData cv {| contents := Some bytes; image := Some pixels |} data options ent
        = tryCatch (writePng cv (embedLoop pixels full))
            (fun _ => Throw "Failed to embed data via steganography")).
Proof.
  intros cv bytes pixels data options ent full. rewrite embedData_capacity_check. fold full.
  split; intros H.
  - apply Nat.ltb_lt in H. now rewrite H.
  - apply Nat.ltb_ge in H. now rewrite H.
Qed.

(** ** C5: a decode fault in the verification handler *)

(** C5, as the code has it: for an upload that can be read but not decoded
    as an image, [extractData] catches the fault and returns null, and the
    handler answers with the no-embedded-data body and counts as
    [Invalid], exactly as for an image of the same bytes with nothing
    embedded; an upload gets the 500 response exactly when it cannot be
    read at all (the hash stage throws). *)
Theorem verify_decode_fault :
  forall (pf : Platform) (bytes : list N),
    let upload := {| contents := Some bytes; image := None |} in
    extractData upload = Ok JNull
    /\ verifyCertificate pf (Some upload)
       = (noEmbeddedData (sha256hex pf bytes), [CallGenerateHash; CallExtractData])
    /\ outcome (fst (verifyCertificate pf (Some upload))) = Invalid
    /\ (forall pixels : list Pixel,
          extractData {| contents := Some bytes; image := Some pixels |} = Ok JNull ->
          verifyCertificate pf (Some {| contents := Some bytes; image := Some pixels |})
          = verifyCertificate pf (Some upload))
    /\ forall file : File,
         outcome (fst (verifyCertificate pf (Some file))) = Faulted
         <-> contents file = None.
Proof.
  intros pf bytes upload. split; [reflexivity|]. split; [reflexivity|].
  split; [reflexivity|]. split.
  - intros pixels Hnull. unfold verifyCertificate, generateHash. cbn [contents].
    now rewrite Hnull.
  - intros [c i]. unfold verifyCertificate, generateHash. cbn [contents].
    destruct c as [data|]; [|split; reflexivity].
    rewrite extractData_cases. cbn [contents image].
    match goal with
    | |- context [truthy ?v] => destruct (truthy v)
    end; cbn [negb fst].
    + match goal with
      | |- context [VerifyBody true ?b] => destruct b
      end; split; discriminate.
    + split; discriminate.
Qed.

(** C5, counterexample: the corrupt upload is not [Faulted]; it is
    reported as [Invalid] with the no-embedded-data body, as is a clean
    image that carries no data. *)
Lemma verify_decode_fault_reported_invalid :
  image Samples.corrupt = None /\
  loadImage Samples.corrupt = Throw "Unsupported image type" /\
  outcome (fst (verifyCertificate Samples.platform (Some Samples.corrupt))) = Invalid /\
  fst (verifyCertificate Samples.platform (Some Samples.corrupt))
    = noEmbeddedData (Samples.checksum [1; 2; 3]%N) /\
  fst (verifyCertificate Samples.platform (Some (Samples.blank 4)))
    = noEmbeddedData (Samples.checksum [137; 80; 78; 71]%N).
Proof.
  repeat split.
Qed.

(** ** C6: round trip *)

(** C6, what the code does: with an issuer id of the two CJK characters
    U+5927 U+5B66 the envelope needs fewer bits than the opaque carrier of
    700 pixels holds, under every canvas that keeps opaque images
    embedding succeeds, and extraction from the file it returns gives
    null instead of the payload: [stringToBinary] writes fifteen bits for
    such a character where the length prefix and [binaryToString] count
    eight.  The same happens with an issuer id of the two Latin-1
    characters 0xFF 0xFE, whose bits hold the end marker. *)
Theorem roundtrip_fails_on_wide_or_marker_characters :
  forall cv : Canvas,
    keepsOpaque cv ->
    let textU := stringify (buildPayload (payloadJson unicodePayload) Samples.plainMode
                              Samples.entropyA) in
    let textM := stringify (buildPayload (payloadJson markerPayload) Samples.plainMode
                              Samples.entropyA) in
    requiredBits (length textU) <= capacity (repeat Samples.white 700) /\
    length (frame textU) <= capacity (repeat Samples.white 700) /\
    embedThenExtract cv (Samples.blank 700) (payloadJson unicodePayload) Samples.plainMode
      Samples.entropyA = Ok JNull /\
    payloadBelow 256 markerPayload = true /\
    requiredBits (length textM) <= capacity (repeat Samples.white 700) /\
    embedThenExtract cv (Samples.blank 700) (payloadJson markerPayload) Samples.plainMode
      Samples.entropyA = Ok JNull.
Proof.
  intros cv Hcv textU textM.
  assert (Hrun : forall p,
            extractData
              (Samples.stored
                 (embedLoop (repeat Samples.white 700)
                    (frame (stringify (buildPayload (payloadJson p) Samples.plainMode
                                         Samples.entropyA))))) = Ok JNull ->
            (length (frame (stringify (buildPayload (payloadJson p) Samples.plainMode
                                         Samples.entropyA))) <=? 12 * 700) = true ->
            embedThenExtract cv (Samples.blank 700) (payloadJson p) Samples.plainMode
              Samples.entropyA = Ok JNull).
  { intros p Hnull Hfit. unfold embedThenExtract.
    destruct (embedData_opaque cv (Samples.blank 700) [137; 80; 78; 71]%N
                (repeat Samples.white 700) (payloadJson p) Samples.plainMode
                Samples.entropyA Hcv eq_refl eq_refl (white_opaque 700)) as [bytes Hw].
    - rewrite repeat_length. now apply Nat.leb_le.
    - rewrite Hw. cbn [bind]. rewrite <- Hnull.
      rewrite !extractData_cases. reflexivity. }
  split; [apply Nat.leb_le; vm_compute; reflexivity|].
  split; [apply Nat.leb_le; vm_compute; reflexivity|].
  split; [apply Hrun; vm_compute; reflexivity|].
  split; [reflexivity|].
  split; [apply Nat.leb_le; vm_compute; reflexivity|].
  apply Hrun; vm_compute; reflexivity.
Qed.

Lemma roundtrip_fails_on_wide_or_marker_characters_witness :
  let textU := stringify (buildPayload (payloadJson unicodePayload) Samples.plainMode
                            Samples.entropyA) in
  let textM := stringify (buildPayload (payloadJson markerPayload) Samples.plainMode
                            Samples.entropyA) in
  requiredBits (length textU) <= capacity (repeat Samples.white 700) /\
  length (frame textU) <= capacity (repeat Samples.white 700) /\
  embedThenExtract Samples.alphaCanvas (Samples.blank 700) (payloadJson unicodePayload)
    Samples.plainMode Samples.entropyA = Ok JNull /\
  payloadBelow 256 markerPayload = true /\
  requiredBits (length textM) <= capacity (repeat Samples.white 700) /\
  embedThenExtract Samples.alphaCanvas (Samples.blank 700) (payloadJson markerPayload)
    Samples.plainMode Samples.entropyA = Ok JNull.
Proof.
  exact (roundtrip_fails_on_wide_or_marker_characters Samples.alphaCanvas
           alphaCanvas_keepsOpaque).
Defined.

(** The sample payload comes back in noise mode with two decoys; nothing
    comes back from a carrier of alpha 128, whose colour the canvas does
    not keep. *)
Example embed_extract_noise_sample :
  embedThenExtract Samples.alphaCanvas (Samples.blank 2000) (payloadJson Samples.payload)
    {| noiseDefense := true; decoyCount := Some 2 |} Samples.entropyB
  = Ok (payloadJson Samples.payload)
  /\ embedThenExtract Samples.alphaCanvas
       (Samples.stored (repeat {| red := 255; green := 255; blue := 255; alpha := 128 |} 600))
       (payloadJson Samples.payload) Samples.plainMode Samples.entropyA
     = Ok JNull.
Proof. split; vm_compute; reflexivity. Qed.

(** ** C7: nothing embedded *)

(** C7: when the upload was hashed and extraction returns null (or any
    falsy value), the response is the no-embedded-data body: [valid] is
    false, [signatureVerified] and [blockchainVerified] are false,
    [hasEmbeddedData: false] names extraction as the failed stage, and
    neither the anchor check nor the signature check is called. *)
Theorem verify_no_embedded_data :
  forall (pf : Platform) (file : File) (certificateHash : jsstring) (embeddedData : json),
    generateHash (sha256hex pf) file = Ok certificateHash ->
    extractData file = Ok embeddedData ->
    truthy embeddedData = false ->
    let (response, calls) := verifyCertificate pf (Some file) in
    response = noEmbeddedData certificateHash /\
    outcome response = Invalid /\
    (exists success message details,
        response = VerifyBody success false message details None None /\
        hasEmbeddedData details = false /\
        signatureVerified details = false /\
        blockchainVerified details = false) /\
    existsb isLaterStage calls = false.
Proof.
  intros pf file h v Hhash Hext Hfalsy.
  unfold verifyCertificate.
  rewrite Hhash, Hext, Hfalsy. simpl.
  repeat split.
  do 3 eexists. repeat split.
Qed.

Lemma verify_no_embedded_data_witness :
  let (response, calls) := verifyCertificate Samples.platform (Some (Samples.blank 4)) in
  response = noEmbeddedData (Samples.checksum [137; 80; 78; 71]%N) /\
  outcome response = Invalid /\
  (exists success message details,
      response = VerifyBody success false message details None None /\
      hasEmbeddedData details = false /\
      signatureVerified details = false /\
      blockchainVerified details = false) /\
  existsb isLaterStage calls = false.
Proof.
  apply (verify_no_embedded_data Samples.platform (Samples.blank 4)
           (Samples.checksum [137; 80; 78; 71]%N) JNull);
    reflexivity.
Defined.

(** ** C8: shape of the decoys *)

(** C8, as the code has it: a decoy is always the four-key object
    [type], [fakeHash], [fakeSignature], [fakeIssuer] with two strings of 64
    lowercase hex digits and an issuer of the text decoy- and at most six
    base-36 characters.  It is built from the random sources alone: neither
    its keys nor its lengths follow the real entry. *)
Theorem decoy_shape :
  forall (ent : Entropy) (i : nat),
  exists fakeHash fakeSignature suffix,
    decoy ent i = JObj [ (lit "type", JStr (lit "decoy"));
                         (lit "fakeHash", JStr fakeHash);
                         (lit "fakeSignature", JStr fakeSignature);
                         (lit "fakeIssuer", JStr (lit "decoy-" ++ suffix)) ]
    /\ length fakeHash = 64 /\ forallb isHexChar fakeHash = true
    /\ length fakeSignature = 64 /\ forallb isHexChar fakeSignature = true
    /\ length suffix <= 6 /\ forallb isBase36Char suffix = true.
Proof.
  intros ent i.
  exists (toHex (randomBytes ent (2 * i) 32)), (toHex (randomBytes ent (2 * i + 1) 32)),
    (slice 2 8 (randomToString36 ent i)).
  split; [reflexivity|].
  rewrite !toHex_length, !randomBytes_length.
  repeat split; try apply toHex_chars; try apply randomBytes_range;
    apply randomSuffix_shape.
Qed.

(** C8, counterexample: next to a real entry the first decoy has other
    keys, no [data] record, and a signature field of 64 characters where
    the real signature has 344. *)
Lemma decoy_differs_in_shape :
  let real := realEntry (payloadJson signedPayload) in
  let fake := decoy Samples.entropyA 0 in
  keysOf real = [lit "type"; lit "data"] /\
  keysOf fake = [lit "type"; lit "fakeHash"; lit "fakeSignature"; lit "fakeIssuer"] /\
  getProp fake "data" = None /\
  propLength (entryData real) "signature" = Some 344 /\
  propLength fake "fakeSignature" = Some 64 /\
  propLength fake "signature" = None.
Proof.
  repeat split.
Qed.

(** ** C9: the combined digest at issuance *)

(** [utils/hash] exports no [generateCombinedHash]. *)
Lemma generateCombinedHash_undefined : required "generateCombinedHash" = None.
Proof. reflexivity. Qed.

(** C9, what the code does: no request is ever answered with an issued
    certificate; a request that passes validation ends in the 500
    response, so no payload and no combined digest are composed. *)
Theorem issueCertificate_never_issues :
  forall (pf : Platform) (req : IssueRequest),
    (exists error, issueCertificate pf req = IssueBadRequest error)
    \/ (exists message,
          issueCertificate pf req = IssueServerError "Failed to issue certificate" message).
Proof.
  intros pf req. unfold issueCertificate.
  destruct (certificate req) as [file|]; [|left; eauto].
  destruct (missing (issuerId req) || missing (issuerName req)
            || missing (recipientName req) || missing (certificateType req));
    [left; eauto|].
  right.
  destruct (generateHash (sha256hex pf) file) as [h|m]; simpl; [|eauto].
  match goal with |- context [signData ?k ?d ?i] => destruct (signData k d i) as [sg|m] end;
    simpl; eauto.
Qed.

(** With a key on file and every field present, the request fails at the
    call of [generateCombinedHash]. *)
Example issueCertificate_sample :
  let pf :=
    {| sha256hex := sha256hex Samples.platform;
       keys := {| keyFile := fun _ => Some {| publicKey := lit "pub"; privateKey := lit "priv" |};
                  rsaSign := fun _ _ => Ok (lit "c2lnbmF0dXJl");
                  rsaVerify := fun _ _ _ => Ok true |};
       chain := chain Samples.platform;
       entropy := entropy Samples.platform;
       canvas := canvas Samples.platform;
       now := now Samples.platform;
       applyHash := applyHash Samples.platform |} in
  issueCertificate pf
    {| issuerId := Some (lit "univ-1"); issuerName := Some (lit "University");
       recipientName := Some (lit "Ada"); certificateType := Some (lit "Degree");
       noiseDefenseField := None; certificate := Some (Samples.blank 600);
       isPdf := false; authorityName := None |}
  = IssueServerError "Failed to issue certificate" "generateCombinedHash is not a function".
Proof. reflexivity. Qed.

(** ** C10: extraction never throws *)

(** C10, as the code has it: [extractData] always resolves to a value.  It
    is null when the file cannot be read, when it cannot be decoded, when
    no end marker is found or fewer than 32 bits come before it, and when
    [JSON.parse] rejects the text decoded from the bits; in every other
    case it is the value selected from the parsed text. *)
Theorem extractData_total :
  forall file : File,
    (exists v, extractData file = Ok v)
    /\ (contents file = None \/ image file = None -> extractData file = Ok JNull)
    /\ (forall pixels,
          image file = Some pixels ->
          snd (extractLoop pixels []) = false \/ length (fst (extractLoop pixels [])) < 32 ->
          extractData file = Ok JNull)
    /\ (forall pixels text message,
          image file = Some pixels ->
          embeddedText pixels = Some text ->
          Json.parse text = Throw message ->
          extractData file = Ok JNull)
    /\ (forall bytes pixels text extracted,
          contents file = Some bytes ->
          image file = Some pixels ->
          embeddedText pixels = Some text ->
          Json.parse text = Ok extracted ->
          extractData file = Ok (selectResult extracted)).
Proof.
  intros file. rewrite extractData_cases. repeat split.
  - eexists. reflexivity.
  - intros [H|H]; rewrite H; [reflexivity|]. destruct (contents file); reflexivity.
  - intros pixels Hi Hnone. apply embeddedText_none in Hnone.
    rewrite Hi, Hnone. destruct (contents file); reflexivity.
  - intros pixels text m Hi Ht Hp. rewrite Hi, Ht, Hp. destruct (contents file); reflexivity.
  - intros bytes pixels text v Hc Hi Ht Hp. rewrite Hc, Hi, Ht, Hp. reflexivity.
Qed.

Lemma extractData_total_witness :
  extractData Samples.corrupt = Ok JNull /\
  extractData (Samples.blank 4) = Ok JNull /\
  extractData sampleCarrier = Ok (payloadJson Samples.payload).
Proof.
  split; [|split].
  - apply (extractData_total Samples.corrupt). right. reflexivity.
  - apply (proj1 (proj2 (proj2 (extractData_total (Samples.blank 4))))
             (repeat Samples.white 4) eq_refl).
    left. reflexivity.
  - apply (proj2 (proj2 (proj2 (proj2 (extractData_total sampleCarrier))))
             [137; 80; 78; 71]%N
             (embedLoop (repeat Samples.white 600)
                (frame (stringify (buildPayload (payloadJson Samples.payload)
                                     Samples.plainMode Samples.entropyA))))
             (stringify (buildPayload (payloadJson Samples.payload) Samples.plainMode
                           Samples.entropyA))
             (buildPayload (payloadJson Samples.payload) Samples.plainMode Samples.entropyA));
      vm_compute; reflexivity.
Defined.

(** C10, counterexample: a carrier whose embedded bytes hold 0xFF, a byte
    that no UTF-8 text contains, and a carrier whose frame declares 100
    characters and is cut after two: extraction returns an object for
    both, not null. *)
Lemma extractData_returns_data_for_non_utf8_and_truncated :
  let text := stringify (buildPayload latin1Data Samples.plainMode Samples.entropyA) in
  In 255%N (binaryToString (stringToBinary text)) /\
  embedThenExtract Samples.alphaCanvas (Samples.blank 200) latin1Data Samples.plainMode
    Samples.entropyA = Ok latin1Data /\
  binaryToNumber (firstn 32 truncatedFrame) = 100%N /\
  length truncatedFrame = 32 + 8 * 2 + 16 /\
  extractData (Samples.stored (embedLoop (repeat Samples.white 200) truncatedFrame))
    = Ok (JObj []).
Proof.
  repeat split; try (vm_compute; reflexivity).
  vm_compute. tauto.
Qed.

(* ================================================================== *)
(** * Further properties of the code                                    *)
(* ================================================================== *)

Import HashHelpers BlockchainQueries Terms.

(** ** The bit-string helpers of the codec *)

Lemma parseInt2_bound : forall s, (parseInt2 s < 2 ^ N.of_nat (length s))%N.
Proof.
  induction s as [|b s IH] using rev_ind.
  - cbn. lia.
  - rewrite parseInt2_app, length_app. cbn [length].
    replace (N.of_nat (length s + 1)) with (N.succ (N.of_nat (length s))) by lia.
    rewrite N.pow_succ_r'. change (N.of_nat 1) with 1%N. rewrite N.pow_1_r.
    assert (parseInt2 [b] < 2)%N by (destruct b; cbn; lia). lia.
Qed.

Lemma padStart_length_max :
  forall len s, length (padStart len s) = Nat.max len (length s).
Proof.
  intros len s. unfold padStart. rewrite length_app, repeat_length. lia.
Qed.

Lemma toString2_nonempty : forall n, 0 < length (toString2 n).
Proof.
  intros [|p]; cbn; [lia|]. destruct p; cbn; rewrite ?length_app; cbn; lia.
Qed.

Lemma binaryToString_short :
  forall b, 0 < length b < 8 -> binaryToString b = [parseInt2 b].
Proof.
  intros b Hb.
  do 8 (destruct b as [|? b]; [cbn in Hb; try lia; reflexivity|]).
  cbn in Hb. lia.
Qed.

Lemma binaryToString_split :
  forall b, 8 <= length b ->
    binaryToString b = parseInt2 (firstn 8 b) :: binaryToString (skipn 8 b).
Proof.
  intros b Hb.
  do 8 (destruct b as [|? b]; [cbn in Hb; lia|]). reflexivity.
Qed.

(** Every character [binaryToString] writes is a byte value. *)
Lemma binaryToString_below : forall b, isLatin1 (binaryToString b) = true.
Proof.
  intros b. remember (length b) as n eqn:Hn. revert b Hn.
  induction n as [n IH] using lt_wf_ind. intros b Hn.
  destruct (Nat.lt_ge_cases (length b) 8) as [Hlt|Hge].
  - destruct b as [|x b]; [reflexivity|].
    rewrite binaryToString_short by (cbn [length] in *; lia).
    unfold isLatin1, charsBelow. cbn [forallb]. rewrite andb_true_r.
    apply N.ltb_lt. pose proof (parseInt2_bound (x :: b)) as Hb.
    assert (2 ^ N.of_nat (length (x :: b)) <= 2 ^ 8)%N
      by (apply N.pow_le_mono_r; lia).
    change (2 ^ 8)%N with 256%N in *. lia.
  - rewrite binaryToString_split by exact Hge.
    unfold isLatin1, charsBelow. cbn [forallb]. apply andb_true_iff. split.
    + apply N.ltb_lt. pose proof (parseInt2_bound (firstn 8 b)) as Hb.
      rewrite length_firstn, Nat.min_l in Hb by lia. exact Hb.
    + apply (IH (length (skipn 8 b))); [rewrite length_skipn; lia|reflexivity].
Qed.

Lemma binaryToString_length :
  forall b, length (binaryToString b) = (length b + 7) / 8.
Proof.
  intros b. remember (length b) as n eqn:Hn. revert b Hn.
  induction n as [n IH] using lt_wf_ind. intros b Hn.
  destruct (Nat.lt_ge_cases (length b) 8) as [Hlt|Hge].
  - destruct b as [|x b].
    + subst n. reflexivity.
    + rewrite binaryToString_short by (cbn [length] in *; lia).
      cbn [length] in *. subst n.
      apply Nat.div_unique with (r := length b); lia.
  - rewrite binaryToString_split by exact Hge. cbn [length].
    rewrite (IH (length (skipn 8 b))) by (rewrite ?length_skipn; lia).
    rewrite length_skipn. subst n.
    replace (length b + 7) with ((length b - 8 + 7) + 1 * 8) by lia.
    rewrite Nat.div_add by lia. lia.
Qed.

(** ** The embedding loop *)

Lemma sameButLowBits_refl : forall l, Forall2 sameButLowBits l l.
Proof. induction l; constructor; [repeat split|assumption]. Qed.

Lemma embedLoop_sameButLowBits :
  forall pixels data,
    Forall bytePixel pixels ->
    Forall2 sameButLowBits pixels (embedLoop pixels data)
    /\ Forall bytePixel (embedLoop pixels data).
Proof.
  induction pixels as [|p rest IH]; intros data Hb.
  - split; constructor.
  - inversion Hb as [|? ? Hp Hrest]; subst.
    destruct Hp as (Hr & Hg & Hbl & Ha).
    destruct data as [|b0 [|b1 [|b2 data']]]; cbn [embedLoop].
    + split; [apply sameButLowBits_refl|exact Hb].
    + destruct (setLsb_byte (red p) b0 Hr).
      split; constructor; try apply sameButLowBits_refl; try assumption;
        repeat split; cbn; assumption.
    + destruct (setLsb_byte (red p) b0 Hr). destruct (setLsb_byte (green p) b1 Hg).
      split; constructor; try apply sameButLowBits_refl; try assumption;
        repeat split; cbn; assumption.
    + destruct (setLsb_byte (red p) b0 Hr). destruct (setLsb_byte (green p) b1 Hg).
      destruct (setLsb_byte (blue p) b2 Hbl).
      destruct (IH data' Hrest) as [IH1 IH2].
      split; constructor; try assumption; repeat split; cbn; assumption.
Qed.

Lemma embedLoop_skipn :
  forall pixels data n,
    length data <= 3 * n -> skipn n (embedLoop pixels data) = skipn n pixels.
Proof.
  induction pixels as [|p rest IH]; intros data n Hn; [reflexivity|].
  destruct data as [|b0 [|b1 [|b2 data']]]; cbn [embedLoop]; try reflexivity.
  - destruct n; [cbn in Hn; lia|reflexivity].
  - destruct n; [cbn in Hn; lia|reflexivity].
  - destruct n; [cbn in Hn; lia|]. cbn [skipn]. apply IH. cbn [length] in Hn. lia.
Qed.

(** ** The extraction loop *)

Lemma scanBits_found_length :
  forall stream bd out,
    scanBits stream bd = (out, true) -> length out + 16 <= length bd + length stream.
Proof.
  induction stream as [|b rest IH]; intros bd out H; cbn [scanBits] in H.
  - inversion H.
  - cbv zeta in H. destruct (endsWithMarker (bd ++ [b])) eqn:E.
    + inversion H; subst out. unfold endsWithMarker in E.
      apply andb_true_iff in E. destruct E as [E _]. apply Nat.leb_le in E.
      unfold sliceDropLast. rewrite length_firstn.
      rewrite length_app in *. cbn [length] in *. lia.
    + apply IH in H. rewrite length_app in H. cbn [length] in *. lia.
Qed.

Lemma channelBits_length : forall pixels, length (channelBits pixels) = 3 * length pixels.
Proof.
  induction pixels as [|p rest IH]; [reflexivity|].
  unfold channelBits in *. cbn [flat_map length app]. rewrite IH. lia.
Qed.

Lemma channelBits_app :
  forall a b, channelBits (a ++ b) = channelBits a ++ channelBits b.
Proof. intros a b. unfold channelBits. apply flat_map_app. Qed.

Lemma embeddedText_scan :
  forall pixels,
    embeddedText pixels
    = let (binaryData, endMarkerFound) := scanBits (channelBits pixels) [] in
      if negb endMarkerFound || (length binaryData <? 32) then None
      else Some (binaryToString
                   (slice 32 (32 + N.to_nat (binaryToNumber (slice 0 32 binaryData)) * 8)
                      binaryData)).
Proof. intros pixels. unfold embeddedText. now rewrite extractLoop_scan. Qed.

Lemma endsWithMarker_repeat : forall b n, endsWithMarker (repeat b n) = false.
Proof.
  intros b n. destruct (endsWithMarker (repeat b n)) eqn:E; [exfalso|reflexivity].
  apply endsWithMarker_split in E. destruct E as [x Hx].
  assert (Hall : Forall (fun y => y = b) (x ++ endMarker)).
  { rewrite <- Hx. apply Forall_forall. intros y Hy. now apply repeat_spec in Hy. }
  apply Forall_app in Hall. destruct Hall as [_ Hm]. unfold endMarker in Hm.
  apply Forall_app in Hm. destruct Hm as [H1 H2].
  inversion H1 as [|? ? Ht _]. inversion H2 as [|? ? Hf _]. congruence.
Qed.

Lemma scanBits_repeat :
  forall b n m, snd (scanBits (repeat b n) (repeat b m)) = false.
Proof.
  intros b. induction n as [|n IH]; intros m; [reflexivity|].
  cbn [repeat scanBits]. cbv zeta.
  replace (repeat b m ++ [b]) with (repeat b (S m)).
  - rewrite endsWithMarker_repeat. apply IH.
  - replace (S m) with (m + 1) by lia. now rewrite repeat_app.
Qed.

Lemma embedLoop_bits_full :
  forall pixels data,
    3 * length pixels <= length data ->
    channelBits (embedLoop pixels data) = firstn (3 * length pixels) data.
Proof.
  induction pixels as [|p rest IH]; intros data H; [reflexivity|].
  destruct data as [|b0 [|b1 [|b2 data']]]; cbn [length] in H; try lia.
  cbn [embedLoop]. unfold channelBits in *. cbn [flat_map red green blue app].
  rewrite !lsb_setLsb. rewrite IH by lia.
  replace (3 * length (p :: rest)) with (S (S (S (3 * length rest))))
    by (cbn [length]; lia).
  reflexivity.
Qed.

Lemma scanBits_not_found :
  forall xs bd,
    (forall k, 0 < k <= length xs -> endsWithMarker (bd ++ firstn k xs) = false) ->
    snd (scanBits xs bd) = false.
Proof.
  induction xs as [|b rest IH]; intros bd H; [reflexivity|].
  cbn [scanBits]. cbv zeta.
  pose proof (H 1 ltac:(cbn [length]; lia)) as H1. cbn [firstn] in H1. rewrite H1.
  apply IH. intros k Hk. rewrite <- app_assoc. cbn [app].
  apply (H (S k)). cbn [length]. lia.
Qed.

(** ** The whole codec on values that need not be truthy *)

Lemma jsonBelow_mono :
  forall b1 b2, (b1 <= b2)%N ->
    forall v, jsonBelow b1 v = true -> jsonBelow b2 v = true.
Proof.
  intros b1 b2 Hb.
  apply (json_induction (fun v => jsonBelow b1 v = true -> jsonBelow b2 v = true));
    try (cbn; intros; congruence).
  - intros s H. cbn in *. apply (charsBelow_mono b1 b2); [exact Hb|exact H].
  - intros items IH H. cbn [jsonBelow] in *. rewrite forallb_forall in *.
    rewrite Forall_forall in IH. intros x Hx. apply IH; [exact Hx|]. now apply H.
  - intros members IH H. cbn [jsonBelow] in *. rewrite forallb_forall in *.
    rewrite Forall_forall in IH. intros kv Hkv. specialize (H kv Hkv).
    apply andb_true_iff in H. destruct H as [H1 H2]. apply andb_true_iff. split.
    + apply (charsBelow_mono b1 b2); [exact Hb|exact H1].
    + apply (IH kv Hkv). exact H2.
Qed.

Lemma embed_extract_selected :
  forall (cv : Canvas) (data : json) (options : Options) (ent : Entropy) (file : File)
         (bytes : list N) (pixels : list Pixel),
    keepsOpaque cv ->
    contents file = Some bytes ->
    image file = Some pixels ->
    Forall opaquePixel pixels ->
    jsonBelow 128 data = true ->
    let text := stringify (buildPayload data options ent) in
    (N.of_nat (length text) < 32767)%N ->
    requiredBits (length text) <= capacity pixels ->
    exists written,
      embedData cv file data options ent = Ok written
      /\ extractData written = Ok (selectResult (buildPayload data options ent)).
Proof.
  intros cv data options ent file bytes pixels Hcv Hc Hi Hop Hl text Hlen Hcap.
  assert (Hjson : jsonBelow 128 (buildPayload data options ent) = true)
    by (apply buildPayload_below; [lia|exact Hl]).
  assert (Hascii : isAscii text = true) by (apply stringify_below; [lia|exact Hjson]).
  assert (Htext : isLatin1 text = true)
    by (apply (charsBelow_mono 128 256); [lia|exact Hascii]).
  assert (Hlen' : (N.of_nat (length text) < 2 ^ 32)%N)
    by (change (2 ^ 32)%N with 4294967296%N; lia).
  rewrite <- (frame_length text Htext Hlen') in Hcap. unfold capacity in Hcap.
  destruct (embedData_opaque cv file bytes pixels data options ent Hcv Hc Hi Hop)
    as [bytes' Hw]; [fold text; lia|].
  fold text in Hw. eexists. split; [exact Hw|].
  apply extractData_embedded; try assumption.
  - now apply ascii_markerOnlyAtEnd.
  - apply parse_stringify. apply (jsonBelow_mono 128 256); [lia|exact Hjson].
Qed.

Lemma opaquePixel_bytePixel : forall p, opaquePixel p -> bytePixel p.
Proof.
  intros p (Hr & Hg & Hb & Ha). repeat split; try assumption.
  unfold isByte. rewrite Ha. lia.
Qed.

Lemma charBits_length_iff :
  forall c, length (padStart 8 (toString2 c)) = 8 <-> (c < 256)%N.
Proof.
  intros c. rewrite padStart_length_max. split; intros H.
  - assert (Hl : length (toString2 c) <= 8) by lia.
    pose proof (parseInt2_bound (toString2 c)) as Hb. rewrite parseInt2_toString2 in Hb.
    assert (2 ^ N.of_nat (length (toString2 c)) <= 2 ^ 8)%N
      by (apply N.pow_le_mono_r; lia).
    change (2 ^ 8)%N with 256%N in *. lia.
  - assert (length (toString2 c) <= 8) by (apply toString2_length_bound; [exact H|lia]).
    lia.
Qed.

Lemma stringToBinary_length_ge :
  forall s, 8 * length s <= length (stringToBinary s).
Proof.
  induction s as [|c s IH]; [cbn; lia|].
  unfold stringToBinary in *. cbn [flat_map length]. rewrite length_app.
  rewrite padStart_length_max. lia.
Qed.

Lemma stringToBinary_length_iff :
  forall s, length (stringToBinary s) = 8 * length s <-> isLatin1 s = true.
Proof.
  intros s. split; [|apply stringToBinary_length].
  induction s as [|c s IH]; intros H; [reflexivity|].
  unfold stringToBinary in H. cbn [flat_map length] in H. rewrite length_app in H.
  fold (stringToBinary s) in H.
  pose proof (stringToBinary_length_ge s) as Hs.
  pose proof (padStart_length_max 8 (toString2 c)) as Hc.
  unfold isLatin1, charsBelow. cbn [forallb]. apply andb_true_iff. split.
  - apply N.ltb_lt. apply charBits_length_iff. lia.
  - apply IH. lia.
Qed.

(* ------------------------------------------------------------------ *)
(** ** X1 to X4: the four conversion helpers *)

(** X1 ([numberToBinary], [binaryToNumber]): for an integer from 0 to
    [2^53 - 1], the range in which [parseInt] is exact, reading back the
    binary string of the number gives the number, whatever the length
    asked for. *)
Theorem binaryToNumber_numberToBinary :
  forall (num : N) (len : nat),
    (num < 2 ^ 53)%N ->
    binaryToNumber (numberToBinary num len) = num.
Proof. intros num len _. apply parseInt2_padStart. Qed.

Lemma binaryToNumber_numberToBinary_witness :
  binaryToNumber (numberToBinary 185 32) = 185%N
  /\ binaryToNumber (numberToBinary 9007199254740991 8) = 9007199254740991%N.
Proof.
  split.
  - apply (binaryToNumber_numberToBinary 185 32). vm_compute. reflexivity.
  - apply (binaryToNumber_numberToBinary 9007199254740991 8). vm_compute. reflexivity.
Defined.

(** X2 ([numberToBinary]): the string has the length asked for exactly when
    the number fits in that many bits; a larger number is written in full,
    never cut. *)
Theorem numberToBinary_width :
  forall (num : N) (len : nat),
    0 < len ->
    (length (numberToBinary num len) = len <-> (num < 2 ^ N.of_nat len)%N)
    /\ len <= length (numberToBinary num len).
Proof.
  intros num len Hlen. unfold numberToBinary. rewrite padStart_length_max.
  split; [split; intros H|lia].
  - assert (Hl : length (toString2 num) <= len) by lia.
    pose proof (parseInt2_bound (toString2 num)) as Hb.
    rewrite parseInt2_toString2 in Hb.
    assert (2 ^ N.of_nat (length (toString2 num)) <= 2 ^ N.of_nat len)%N
      by (apply N.pow_le_mono_r; lia).
    lia.
  - pose proof (toString2_length_bound num len H Hlen). lia.
Qed.

Lemma numberToBinary_width_witness :
  (length (numberToBinary 185 32) = 32 <-> (185 < 2 ^ N.of_nat 32)%N)
  /\ 32 <= length (numberToBinary 185 32).
Proof. apply (numberToBinary_width 185 32). lia. Defined.

(** X3 ([stringToBinary], [binaryToString]): decoding the bits of a string
    gives the string back exactly when every code unit of the string is
    below 256, and exactly then the string takes eight bits per character. *)
Theorem binaryToString_stringToBinary_iff :
  forall str : jsstring,
    (binaryToString (stringToBinary str) = str <-> isLatin1 str = true)
    /\ (length (stringToBinary str) = 8 * length str <-> isLatin1 str = true).
Proof.
  intros str. split; [split|apply stringToBinary_length_iff].
  - intros H. rewrite <- H. apply binaryToString_below.
  - apply binaryToString_stringToBinary.
Qed.

(** X4 ([binaryToString]): whatever the bits, the decoded string has one
    character per started group of eight bits, and every character is a
    byte value. *)
Theorem binaryToString_shape :
  forall binary : bits,
    length (binaryToString binary) = (length binary + 7) / 8
    /\ isLatin1 (binaryToString binary) = true.
Proof.
  intros binary. split; [apply binaryToString_length|apply binaryToString_below].
Qed.

(* ------------------------------------------------------------------ *)
(** ** X5 and X6: what [embedData] leaves alone *)

(** X5 ([embedData], the write loop): with an opaque carrier and a canvas
    that keeps opaque images, the file written on success decodes to as
    many pixels as the image read; every pixel keeps its alpha byte and,
    of its three colour bytes, everything but the lowest bit. *)
Theorem embedData_changes_low_bits_only :
  forall (cv : Canvas) (file written : File) (data : json) (options : Options)
         (ent : Entropy) (pixels : list Pixel),
    keepsOpaque cv ->
    image file = Some pixels ->
    Forall opaquePixel pixels ->
    embedData cv file data options ent = Ok written ->
    exists embedded,
      image written = Some embedded
      /\ Forall2 sameButLowBits pixels embedded
      /\ Forall opaquePixel embedded.
Proof.
  intros cv file written data options ent pixels Hcv Hi Hop He.
  destruct (embedData_ok cv file data options ent written pixels Hcv Hi Hop He) as [Hw _].
  eexists. split; [exact Hw|]. split.
  - apply embedLoop_sameButLowBits.
    apply (Forall_impl bytePixel opaquePixel_bytePixel Hop).
  - apply embedLoop_opaque, Hop.
Qed.

Lemma embedData_changes_low_bits_only_witness :
  exists embedded,
    image sampleCarrier = Some embedded
    /\ Forall2 sameButLowBits (repeat Samples.white 600) embedded
    /\ Forall opaquePixel embedded.
Proof.
  apply (embedData_changes_low_bits_only Samples.alphaCanvas (Samples.blank 600)
           sampleCarrier (payloadJson Samples.payload) Samples.plainMode Samples.entropyA
           (repeat Samples.white 600)).
  - exact alphaCanvas_keepsOpaque.
  - reflexivity.
  - exact (white_opaque 600).
  - vm_compute. reflexivity.
Defined.

(** X6 ([embedData], the write loop): pixels behind the last bit of the
    frame are written back as they were read: with an opaque carrier, a
    canvas that keeps opaque images and a frame of at most [3 * n] bits,
    the file written decodes, from pixel [n] on, to the pixels of the
    carrier. *)
Theorem embedData_leaves_later_pixels :
  forall (cv : Canvas) (file written : File) (data : json) (options : Options)
         (ent : Entropy) (pixels : list Pixel) (n : nat),
    keepsOpaque cv ->
    image file = Some pixels ->
    Forall opaquePixel pixels ->
    embedData cv file data options ent = Ok written ->
    length (frame (stringify (buildPayload data options ent))) <= 3 * n ->
    exists embedded,
      image written = Some embedded /\ skipn n embedded = skipn n pixels.
Proof.
  intros cv file written data options ent pixels n Hcv Hi Hop He Hn.
  destruct (embedData_ok cv file data options ent written pixels Hcv Hi Hop He) as [Hw _].
  eexists. split; [exact Hw|]. now apply embedLoop_skipn.
Qed.

Lemma embedData_leaves_later_pixels_witness :
  exists embedded,
    image sampleCarrier = Some embedded
    /\ skipn 510 embedded = skipn 510 (repeat Samples.white 600).
Proof.
  apply (embedData_leaves_later_pixels Samples.alphaCanvas (Samples.blank 600)
           sampleCarrier (payloadJson Samples.payload) Samples.plainMode Samples.entropyA).
  - exact alphaCanvas_keepsOpaque.
  - reflexivity.
  - exact (white_opaque 600).
  - vm_compute. reflexivity.
  - apply Nat.leb_le. vm_compute. reflexivity.
Defined.

(* ------------------------------------------------------------------ *)
(** ** X7 to X12: what [extractData] reads *)

(** X7 ([extractData], the read loop): the result depends on the lowest
    bits of the colour bytes only.  Two readable images whose colour bytes
    have the same low bits, pixel by pixel, give the same result, whatever
    their alpha bytes and their other bits are. *)
Theorem extractData_reads_low_bits_only :
  forall (file1 file2 : File) (pixels1 pixels2 : list Pixel),
    imageFile file1 pixels1 ->
    imageFile file2 pixels2 ->
    channelBits pixels1 = channelBits pixels2 ->
    extractData file1 = extractData file2.
Proof.
  intros file1 file2 pixels1 pixels2 [[b1 Hc1] Hi1] [[b2 Hc2] Hi2] Hbits.
  rewrite !extractData_cases. rewrite Hc1, Hc2, Hi1, Hi2.
  now rewrite !embeddedText_scan, Hbits.
Qed.

(** The sample payload written over 600 white pixels and over 600 pixels
    of another colour with odd bytes: the same payload comes out of
    both. *)
Lemma extractData_reads_low_bits_only_witness :
  let full := frame (stringify (buildPayload (payloadJson Samples.payload)
                                  Samples.plainMode Samples.entropyA)) in
  let other := {| red := 201; green := 33; blue := 7; alpha := 255 |} in
  extractData sampleCarrier = extractData (Samples.stored (embedLoop (repeat other 600) full))
  /\ extractData sampleCarrier = Ok (payloadJson Samples.payload)
  /\ image sampleCarrier <> image (Samples.stored (embedLoop (repeat other 600) full)).
Proof.
  intros full other. split; [|split].
  - apply (extractData_reads_low_bits_only sampleCarrier
             (Samples.stored (embedLoop (repeat other 600) full))
             (embedLoop (repeat Samples.white 600) full)
             (embedLoop (repeat other 600) full)).
    + split; [eexists|]; reflexivity.
    + split; [eexists|]; reflexivity.
    + vm_compute. reflexivity.
  - vm_compute. reflexivity.
  - intros H. apply (f_equal (fun o => match o with
                                       | Some (p :: _) => red p
                                       | _ => 0%N
                                       end)) in H.
    vm_compute in H. discriminate.
Defined.

(** X8 ([extractData]): an image of fewer than sixteen pixels yields
    [null]: its 45 low bits at most cannot hold the end marker behind a
    length prefix. *)
Theorem extractData_needs_sixteen_pixels :
  forall (file : File) (pixels : list Pixel),
    image file = Some pixels ->
    length pixels < 16 ->
    extractData file = Ok JNull.
Proof.
  intros file pixels Hi Hlen. rewrite extractData_cases, Hi.
  destruct (contents file); [|reflexivity].
  replace (embeddedText pixels) with (@None jsstring); [reflexivity|].
  symmetry. apply embeddedText_none. rewrite extractLoop_scan.
  destruct (scanBits (channelBits pixels) []) as [out found] eqn:E. cbn [fst snd].
  destruct found; [right|left; reflexivity].
  apply scanBits_found_length in E. rewrite channelBits_length in E. cbn [length] in E.
  lia.
Qed.

Lemma extractData_needs_sixteen_pixels_witness :
  extractData (Samples.blank 15) = Ok JNull.
Proof.
  apply (extractData_needs_sixteen_pixels (Samples.blank 15) (repeat Samples.white 15)).
  - reflexivity.
  - rewrite repeat_length. lia.
Defined.

(** X9 ([extractData]): an image whose colour bytes all have the same low
    bit (all even, or all odd, as in an image of one flat colour) yields
    [null], whatever its size: the end marker needs both bit values. *)
Theorem extractData_flat_low_bits :
  forall (file : File) (pixels : list Pixel) (b : bool),
    image file = Some pixels ->
    channelBits pixels = repeat b (3 * length pixels) ->
    extractData file = Ok JNull.
Proof.
  intros file pixels b Hi Hbits. rewrite extractData_cases, Hi.
  destruct (contents file); [|reflexivity].
  replace (embeddedText pixels) with (@None jsstring); [reflexivity|].
  symmetry. apply embeddedText_none. left. rewrite extractLoop_scan, Hbits.
  apply (scanBits_repeat b (3 * length pixels) 0).
Qed.

Lemma extractData_flat_low_bits_witness :
  extractData (Samples.blank 1000) = Ok JNull.
Proof.
  apply (extractData_flat_low_bits (Samples.blank 1000) (repeat Samples.white 1000) true).
  - reflexivity.
  - vm_compute. reflexivity.
Defined.

(** X10 ([extractData], the read loop): extraction stops at the first end
    marker.  When the marker is found in an image, pixels added behind it
    do not change the result. *)
Theorem extractData_ignores_pixels_after_marker :
  forall (bytes bytes' : list N) (pixels extra : list Pixel),
    snd (extractLoop pixels []) = true ->
    extractData {| contents := Some bytes'; image := Some (pixels ++ extra) |}
    = extractData {| contents := Some bytes; image := Some pixels |}.
Proof.
  intros bytes bytes' pixels extra Hfound.
  rewrite !extractData_cases. cbn [contents image].
  rewrite !embeddedText_scan, channelBits_app, scanBits_app.
  rewrite extractLoop_scan in Hfound.
  destruct (scanBits (channelBits pixels) []) as [out found]. cbn [snd] in Hfound.
  subst found. reflexivity.
Qed.

Lemma extractData_ignores_pixels_after_marker_witness :
  extractData {| contents := Some [1%N];
                 image := Some (embedLoop (repeat Samples.white 40)
                                  (frame (lit "{}")) ++ [Samples.white]) |}
  = extractData {| contents := Some [2%N];
                   image := Some (embedLoop (repeat Samples.white 40) (frame (lit "{}"))) |}.
Proof.
  apply (extractData_ignores_pixels_after_marker [2%N] [1%N]
           (embedLoop (repeat Samples.white 40) (frame (lit "{}"))) [Samples.white]).
  vm_compute. reflexivity.
Defined.

(** X11 ([embedData], [extractData]): a falsy value does not come back.
    For [null], [false] or the empty string as data, an opaque carrier
    that is large enough and a canvas that keeps opaque images, extraction
    from the embedded image returns the whole plain envelope
    [{mode, data}] instead of the data, and [null] in noise mode. *)
Theorem embed_extract_falsy_data :
  forall (cv : Canvas) (data : json) (options : Options) (ent : Entropy) (file : File)
         (bytes : list N) (pixels : list Pixel),
    keepsOpaque cv ->
    contents file = Some bytes ->
    image file = Some pixels ->
    Forall opaquePixel pixels ->
    jsonBelow 256 data = true ->
    truthy data = false ->
    let text := stringify (buildPayload data options ent) in
    (N.of_nat (length text) < 32767)%N ->
    requiredBits (length text) <= capacity pixels ->
    exists written,
      embedData cv file data options ent = Ok written
      /\ extractData written
         = Ok (if noiseDefense options then JNull else buildPayload data options ent).
Proof.
  intros cv data options ent file bytes pixels Hcv Hc Hi Hop Hl Ht text Hlen Hcap.
  assert (Hascii : jsonBelow 128 data = true).
  { destruct data as [ | b | literal | s | items | members ]; try discriminate;
      try reflexivity.
    destruct s; [reflexivity|discriminate]. }
  destruct (embed_extract_selected cv data options ent file bytes pixels Hcv Hc Hi Hop
              Hascii Hlen Hcap) as [written [He Hx]].
  exists written. split; [exact He|]. rewrite Hx. f_equal.
  unfold buildPayload, selectResult. destruct (noiseDefense options).
  - cbn. rewrite Ht.
    assert (Hd : forall l, find isRealEntry (map (decoy ent) l) = None).
    { induction l as [|i l IH]; [reflexivity|]. cbn [map find].
      replace (isRealEntry (decoy ent i)) with false; [exact IH|].
      symmetry. unfold isRealEntry. pose proof (decoy_not_real ent i) as Hn.
      unfold hasTag in Hn. rewrite Hn. now rewrite andb_false_r. }
    now rewrite Hd.
  - cbn. rewrite Ht. reflexivity.
Qed.

Lemma embed_extract_falsy_data_witness :
  exists written,
    embedData Samples.alphaCanvas (Samples.blank 100) JNull Samples.plainMode
      Samples.entropyA = Ok written
    /\ extractData written
       = Ok (JObj [ (lit "mode", JStr (lit "plain")); (lit "data", JNull) ]).
Proof.
  apply (embed_extract_falsy_data Samples.alphaCanvas JNull Samples.plainMode
           Samples.entropyA (Samples.blank 100) [137; 80; 78; 71]%N
           (repeat Samples.white 100)).
  - exact alphaCanvas_keepsOpaque.
  - reflexivity.
  - reflexivity.
  - exact (white_opaque 100).
  - reflexivity.
  - reflexivity.
  - vm_compute. reflexivity.
  - apply Nat.leb_le. vm_compute. reflexivity.
Defined.

(** X12 ([embedData], [extractData]): a frame that is longer than the
    three bits per pixel the write loop has, and not longer than the twelve
    the check allows, is cut without an error, and the data is lost: for an
    ASCII value whose envelope is shorter than 32767 characters, an opaque
    carrier and a canvas that keeps opaque images, [embedData] succeeds
    and [extractData] on the file it returns yields [null]. *)
Theorem embedData_over_capacity_loses_data :
  forall (cv : Canvas) (data : json) (options : Options) (ent : Entropy) (file : File)
         (bytes : list N) (pixels : list Pixel),
    keepsOpaque cv ->
    contents file = Some bytes ->
    image file = Some pixels ->
    Forall opaquePixel pixels ->
    jsonBelow 128 data = true ->
    let text := stringify (buildPayload data options ent) in
    (N.of_nat (length text) < 32767)%N ->
    capacity pixels < requiredBits (length text) <= 12 * length pixels ->
    exists written,
      embedData cv file data options ent = Ok written /\ extractData written = Ok JNull.
Proof.
  intros cv data options ent file bytes pixels Hcv Hc Hi Hop Hl text Hlen Hcap.
  assert (Hjson : jsonBelow 128 (buildPayload data options ent) = true)
    by (apply buildPayload_below; [lia|exact Hl]).
  assert (Hascii : isAscii text = true) by (apply stringify_below; [lia|exact Hjson]).
  assert (Htext : isLatin1 text = true)
    by (apply (charsBelow_mono 128 256); [lia|exact Hascii]).
  assert (Hlen' : (N.of_nat (length text) < 2 ^ 32)%N)
    by (change (2 ^ 32)%N with 4294967296%N; lia).
  rewrite <- (frame_length text Htext Hlen') in Hcap. unfold capacity in Hcap.
  destruct (embedData_opaque cv file bytes pixels data options ent Hcv Hc Hi Hop)
    as [bytes' Hw]; [fold text; lia|].
  fold text in Hw. eexists. split; [exact Hw|].
  rewrite extractData_cases. cbn [contents image].
  replace (embeddedText (embedLoop pixels (frame text))) with (@None jsstring);
    [reflexivity|].
  symmetry. apply embeddedText_none. left. rewrite extractLoop_scan.
  rewrite embedLoop_bits_full by lia.
  apply scanBits_not_found. intros k Hk. rewrite length_firstn in Hk. cbn [app].
  rewrite firstn_firstn. replace (Nat.min k (3 * length pixels)) with k by lia.
  apply markerOnlyAtEnd_early; [now apply ascii_markerOnlyAtEnd|lia].
Qed.

Lemma embedData_over_capacity_loses_data_witness :
  exists written,
    embedData Samples.alphaCanvas (Samples.blank 300) (payloadJson Samples.payload)
      Samples.plainMode Samples.entropyA = Ok written
    /\ extractData written = Ok JNull.
Proof.
  apply (embedData_over_capacity_loses_data Samples.alphaCanvas
           (payloadJson Samples.payload) Samples.plainMode
           Samples.entropyA (Samples.blank 300) [137; 80; 78; 71]%N
           (repeat Samples.white 300)).
  - exact alphaCanvas_keepsOpaque.
  - reflexivity.
  - reflexivity.
  - exact (white_opaque 300).
  - reflexivity.
  - vm_compute. reflexivity.
  - split; [apply Nat.ltb_lt|apply Nat.leb_le]; vm_compute; reflexivity.
Defined.

(* ------------------------------------------------------------------ *)
(** ** X27: the round trip that holds *)

(** X27 ([embedData], [extractData]): for a payload whose fields use code
    units below 256 only, in plain or noise mode, an opaque carrier and a
    canvas that keeps opaque images, when the serialized envelope is
    shorter than 2^32 characters, its frame holds the 16-bit end marker at
    its end only, and the [32 + 8L + 16] bits fit in three bits per pixel,
    [embedData] succeeds and [extractData] on the file it returns gives
    the payload back unchanged. *)
Theorem embed_extract_roundtrip :
  forall (cv : Canvas) (p : CanonicalPayload) (options : Options) (ent : Entropy)
         (file : File) (bytes : list N) (pixels : list Pixel),
    keepsOpaque cv ->
    contents file = Some bytes ->
    image file = Some pixels ->
    Forall opaquePixel pixels ->
    payloadBelow 256 p = true ->
    let text := stringify (buildPayload (payloadJson p) options ent) in
    (N.of_nat (length text) < 2 ^ 32)%N ->
    markerOnlyAtEnd (frame text) = true ->
    requiredBits (length text) <= capacity pixels ->
    exists written,
      embedData cv file (payloadJson p) options ent = Ok written
      /\ extractData written = Ok (payloadJson p).
Proof.
  intros cv p options ent file bytes pixels Hcv Hc Hi Hop Hp text Hlen Honly Hcap.
  apply (embed_extract_value cv (payloadJson p) options ent file bytes pixels Hcv Hc Hi Hop);
    try assumption.
  - apply payloadJson_below; [lia|exact Hp].
  - reflexivity.
Qed.

Lemma embed_extract_roundtrip_witness :
  exists written,
    embedData Samples.alphaCanvas (Samples.blank 1200) (payloadJson Samples.payload)
      {| noiseDefense := true; decoyCount := Some 1 |} Samples.entropyA = Ok written
    /\ extractData written = Ok (payloadJson Samples.payload).
Proof.
  apply (embed_extract_roundtrip Samples.alphaCanvas Samples.payload
           {| noiseDefense := true; decoyCount := Some 1 |} Samples.entropyA
           (Samples.blank 1200) [137; 80; 78; 71]%N (repeat Samples.white 1200)).
  - exact alphaCanvas_keepsOpaque.
  - reflexivity.
  - reflexivity.
  - exact (white_opaque 1200).
  - vm_compute. reflexivity.
  - vm_compute. reflexivity.
  - vm_compute. reflexivity.
  - apply Nat.leb_le. vm_compute. reflexivity.
Defined.

(** ** Strings: equality and order *)

Lemma jsEqb_eq : forall a b, Js.eqb a b = true <-> a = b.
Proof.
  induction a as [|x a IH]; destruct b as [|y b]; cbn; split; intros H;
    try discriminate; try reflexivity.
  - apply andb_true_iff in H. destruct H as [H1 H2].
    apply N.eqb_eq in H1. apply IH in H2. congruence.
  - inversion H; subst. rewrite N.eqb_refl. cbn. now apply IH.
Qed.

Lemma jsEqb_refl : forall a, Js.eqb a a = true.
Proof. intros a. now apply jsEqb_eq. Qed.

Lemma jsEqb_neq : forall a b, Js.eqb a b = false <-> a <> b.
Proof.
  intros a b. split; intros H.
  - intros E. apply jsEqb_eq in E. congruence.
  - destruct (Js.eqb a b) eqn:E; [|reflexivity]. apply jsEqb_eq in E. contradiction.
Qed.

Lemma ltb_total : forall a b, ltb a b = false -> ltb b a = false -> a = b.
Proof.
  induction a as [|x a IH]; destruct b as [|y b]; cbn; intros H1 H2;
    try discriminate; try reflexivity.
  apply orb_false_iff in H1, H2. destruct H1 as [H1 H1'], H2 as [H2 H2'].
  apply N.ltb_ge in H1, H2. assert (x = y) by lia. subst y.
  rewrite N.eqb_refl in *. cbn in *. f_equal. now apply IH.
Qed.

Lemma ltb_between :
  forall k a b, ltb k b = false -> ltb k a = true -> ltb b a = true.
Proof.
  induction k as [|x k IH]; intros a b Hb Ha.
  - destruct b as [|y b]; [exact Ha|discriminate].
  - destruct a as [|z a]; [discriminate|]. destruct b as [|y b]; [reflexivity|].
    cbn in *. apply orb_false_iff in Hb. destruct Hb as [Hxy Hb].
    apply N.ltb_ge in Hxy. apply orb_true_iff in Ha.
    destruct (N.ltb_spec y z) as [Hyz|Hyz]; [reflexivity|]. cbn.
    destruct Ha as [Ha|Ha].
    + apply N.ltb_lt in Ha. lia.
    + apply andb_true_iff in Ha. destruct Ha as [Hxz Ha]. apply N.eqb_eq in Hxz.
      subst z. assert (x = y) by lia. subst y. rewrite N.eqb_refl in *. cbn in *.
      now apply (IH a b).
Qed.

Lemma ltb_asym : forall a b, ltb a b = true -> ltb b a = false.
Proof.
  induction a as [|x a IH]; destruct b as [|y b]; cbn; intros H;
    try discriminate; try reflexivity.
  apply orb_true_iff in H. apply orb_false_iff.
  destruct H as [H|H].
  - apply N.ltb_lt in H. split; [apply N.ltb_ge; lia|].
    replace (y =? x)%N with false; [reflexivity|]. symmetry. apply N.eqb_neq. lia.
  - apply andb_true_iff in H. destruct H as [Hxy H]. apply N.eqb_eq in Hxy. subst y.
    rewrite N.ltb_irrefl, N.eqb_refl. cbn. split; [reflexivity|now apply IH].
Qed.

Lemma insert_pair :
  forall a b tail,
    (if ltb b a then b :: a :: tail else a :: b :: tail)
    = (if ltb a b then a :: b :: tail else b :: a :: tail).
Proof.
  intros a b tail. destruct (ltb b a) eqn:Hba, (ltb a b) eqn:Hab; try reflexivity.
  - apply ltb_asym in Hba. congruence.
  - now rewrite (ltb_total a b Hab Hba).
Qed.

Lemma insert_comm :
  forall a b l, insert a (insert b l) = insert b (insert a l).
Proof.
  intros a b. induction l as [|k l IH].
  - cbn. apply insert_pair.
  - cbn [insert].
    destruct (ltb k b) eqn:Hkb, (ltb k a) eqn:Hka; cbn [insert];
      rewrite ?Hkb, ?Hka.
    + now rewrite IH.
    + rewrite (ltb_between k b a Hka Hkb). reflexivity.
    + rewrite (ltb_between k a b Hkb Hka). reflexivity.
    + apply insert_pair.
Qed.

Lemma sort_Permutation :
  forall l1 l2, Permutation l1 l2 -> sort l1 = sort l2.
Proof.
  unfold sort. induction 1; cbn [fold_right].
  - reflexivity.
  - now rewrite IHPermutation.
  - apply insert_comm.
  - congruence.
Qed.

Lemma In_insert : forall x key l, In x (insert key l) <-> x = key \/ In x l.
Proof.
  intros x key. induction l as [|k l IH]; cbn [insert].
  - cbn. intuition.
  - destruct (ltb k key); cbn [In]; [rewrite IH|]; intuition.
Qed.

Lemma In_sort : forall x l, In x (sort l) <-> In x l.
Proof.
  intros x. unfold sort. induction l as [|k l IH]; cbn [fold_right].
  - reflexivity.
  - rewrite In_insert, IH. cbn. intuition.
Qed.

(** ** Objects *)

Lemma existsb_jsEqb :
  forall k l, existsb (Js.eqb k) l = true <-> In k l.
Proof.
  intros k l. rewrite existsb_exists. split.
  - intros [x [Hx E]]. apply jsEqb_eq in E. now subst.
  - intros H. exists k. split; [exact H|apply jsEqb_refl].
Qed.

Lemma objectKeys_NoDup :
  forall members, NoDup (map fst members) -> objectKeys members = map fst members.
Proof.
  induction members as [|[k v] rest IH]; intros H; [reflexivity|].
  cbn [map fst] in *. inversion H as [|? ? Hk Hrest]; subst.
  cbn [objectKeys]. replace (existsb (Js.eqb k) (map fst rest)) with false.
  - now rewrite IH.
  - symmetry. destruct (existsb (Js.eqb k) (map fst rest)) eqn:E; [|reflexivity].
    apply existsb_jsEqb in E. contradiction.
Qed.

Lemma objectKeys_fst :
  forall m1 m2, map fst m1 = map fst m2 -> objectKeys m1 = objectKeys m2.
Proof.
  induction m1 as [|[k v] m1 IH]; intros [|[k' v'] m2] H; try discriminate;
    [reflexivity|].
  cbn [map fst] in H. inversion H; subst. cbn [objectKeys].
  rewrite (IH m2) by assumption. now replace (map fst m1) with (map fst m2).
Qed.

Lemma In_objectKeys :
  forall k members, In k (objectKeys members) -> In k (map fst members).
Proof.
  intros k. induction members as [|[k' v] rest IH]; intros H; [exact H|].
  cbn [objectKeys] in H. cbn [map fst In].
  destruct (existsb (Js.eqb k') (map fst rest)).
  - right. now apply IH.
  - destruct H as [H|H]; [now left|right; now apply IH].
Qed.

Lemma lookupLast_None :
  forall key members, lookupLast key members = None <-> ~ In key (map fst members).
Proof.
  intros key. induction members as [|[k v] rest IH]; cbn [lookupLast map fst In].
  - tauto.
  - destruct (lookupLast key rest) as [w|] eqn:E.
    + split; [discriminate|]. intros H. exfalso.
      assert (Hn : ~ In key (map fst rest)) by tauto.
      apply IH in Hn. discriminate.
    + destruct (Js.eqb k key) eqn:Ek.
      * apply jsEqb_eq in Ek. split; [discriminate|]. intros H. exfalso. tauto.
      * apply jsEqb_neq in Ek. split; [|reflexivity]. intros _ [H|H]; [contradiction|].
        apply IH in H; [exact H|reflexivity].
Qed.

Lemma lookupLast_In :
  forall key v members,
    NoDup (map fst members) -> (lookupLast key members = Some v <-> In (key, v) members).
Proof.
  intros key v. induction members as [|[k w] rest IH]; intros Hnd;
    cbn [lookupLast map fst In] in *.
  - split; [discriminate|tauto].
  - inversion Hnd as [|? ? Hk Hrest]; subst. specialize (IH Hrest).
    destruct (lookupLast key rest) as [u|] eqn:E.
    + split.
      * intros H. inversion H; subst. right. now apply IH.
      * intros [H|H].
        -- inversion H; subst. exfalso. apply Hk.
           assert (lookupLast key rest <> None) by congruence.
           destruct (in_dec (list_eq_dec N.eq_dec) key (map fst rest)) as [Hin|Hin];
             [exact Hin|]. apply lookupLast_None in Hin. congruence.
        -- apply IH in H. exact H.
    + destruct (Js.eqb k key) eqn:Ek.
      * apply jsEqb_eq in Ek. subst k. split.
        -- intros H. inversion H; subst. now left.
        -- intros [H|H]; [now inversion H|].
           exfalso. apply Hk. apply (in_map fst) in H. exact H.
      * apply jsEqb_neq in Ek. split; [discriminate|].
        intros [H|H]; [inversion H; contradiction|].
        apply IH in H. discriminate.
Qed.

Lemma lookupLast_Permutation :
  forall key m1 m2,
    NoDup (map fst m1) -> Permutation m1 m2 -> lookupLast key m1 = lookupLast key m2.
Proof.
  intros key m1 m2 Hnd Hp.
  assert (Hnd2 : NoDup (map fst m2)).
  { apply (Permutation_NoDup (l := map fst m1)); [|exact Hnd]. now apply Permutation_map. }
  destruct (lookupLast key m1) as [v|] eqn:E1.
  - apply (lookupLast_In key v m1 Hnd) in E1. symmetry.
    apply (lookupLast_In key v m2 Hnd2). now apply (Permutation_in _ Hp).
  - destruct (lookupLast key m2) as [v|] eqn:E2; [|reflexivity].
    apply (lookupLast_In key v m2 Hnd2) in E2.
    apply (Permutation_in _ (Permutation_sym Hp)) in E2.
    apply (lookupLast_In key v m1 Hnd) in E2. congruence.
Qed.

Lemma lookupLast_middle :
  forall key k v1 v2 pre post,
    lookupLast key (pre ++ (k, v1) :: post) = lookupLast key (pre ++ (k, v2) :: post)
    \/ (lookupLast key (pre ++ (k, v1) :: post) = Some v1
        /\ lookupLast key (pre ++ (k, v2) :: post) = Some v2).
Proof.
  intros key k v1 v2. induction pre as [|[k' w] pre IH]; intros post.
  - cbn [app lookupLast]. destruct (lookupLast key post); [now left|].
    destruct (Js.eqb k key); [right; split; reflexivity|now left].
  - cbn [app lookupLast]. destruct (IH post) as [H|[H1 H2]].
    + left. now rewrite H.
    + right. now rewrite H1, H2.
Qed.

(** ** The serializer with a property list *)

Lemma stringifyWith_object :
  forall propertyList members,
    stringifyWith propertyList (JObj members)
    = 123%N :: joinComma (flat_map (propertyText propertyList members) propertyList)
        ++ [125%N].
Proof.
  intros propertyList members. cbn [stringifyWith]. do 3 f_equal.
  apply flat_map_ext. intros key. unfold propertyText.
  replace ((fix get (ms : list (jsstring * json)) : option jsstring :=
              match ms with
              | [] => None
              | (k, x) :: rest =>
                  match get rest with
                  | Some text => Some text
                  | None =>
                      if Js.eqb k key then Some (stringifyWith propertyList x) else None
                  end
              end) members)
    with (option_map (stringifyWith propertyList) (lookupLast key members)).
  - destruct (lookupLast key members); reflexivity.
  - induction members as [|[k x] rest IH]; [reflexivity|].
    cbn [lookupLast]. rewrite <- IH.
    destruct (lookupLast key rest); [reflexivity|]. cbn [option_map].
    destruct (Js.eqb k key); reflexivity.
Qed.

Lemma flat_map_ext_in :
  forall {A B} (f g : A -> list B) l,
    (forall x, In x l -> f x = g x) -> flat_map f l = flat_map g l.
Proof.
  intros A B f g. induction l as [|x l IH]; intros H; [reflexivity|].
  cbn [flat_map]. rewrite (H x) by now left. rewrite IH; [reflexivity|].
  intros y Hy. apply H. now right.
Qed.

(* ------------------------------------------------------------------ *)
(** ** X13 to X17: the helpers of [utils/hash.js] *)

(** X13 ([verifyFileIntegrity]): the call never throws; it reports
    [valid: true] exactly when the file can be read and its digest is the
    expected string, code unit for code unit (so a digest written in upper
    case is not accepted); for a file that cannot be read the actual hash
    is [null]. *)
Theorem verifyFileIntegrity_valid_iff :
  forall (sha256hex : list N -> jsstring) (file : File) (expectedHash : jsstring),
    (integrityValid (verifyFileIntegrity sha256hex file expectedHash) = true
     <-> generateHash sha256hex file = Ok expectedHash)
    /\ (actualHash (verifyFileIntegrity sha256hex file expectedHash) = None
        <-> contents file = None).
Proof.
  intros sha file expected. unfold verifyFileIntegrity, generateHash.
  destruct (contents file) as [bytes|]; cbn.
  - split; split; intros H; try discriminate.
    + apply jsEqb_eq in H. now subst.
    + inversion H. apply jsEqb_refl.
  - split; split; intros H; try discriminate; reflexivity.
Qed.

Lemma patterns_cases :
  forall key,
    (key = lit "sha256" /\ patterns key = Some (HexPattern 64))
    \/ (key = lit "sha1" /\ patterns key = Some (HexPattern 40))
    \/ (key = lit "md5" /\ patterns key = Some (HexPattern 32))
    \/ ((key = lit "constructor" \/ key = lit "__proto__") /\ patterns key = Some Inherited)
    \/ (key <> lit "sha256" /\ key <> lit "sha1" /\ key <> lit "md5"
        /\ key <> lit "constructor" /\ key <> lit "__proto__" /\ patterns key = None).
Proof.
  intros key. unfold patterns.
  destruct (Js.eqb key (lit "sha256")) eqn:E1;
    [apply jsEqb_eq in E1; subst; left; split; reflexivity|].
  destruct (Js.eqb key (lit "sha1")) eqn:E2;
    [apply jsEqb_eq in E2; subst; right; left; split; reflexivity|].
  destruct (Js.eqb key (lit "md5")) eqn:E3;
    [apply jsEqb_eq in E3; subst; right; right; left; split; reflexivity|].
  apply jsEqb_neq in E1, E2, E3.
  destruct (Js.eqb key (lit "constructor")) eqn:E4.
  { apply jsEqb_eq in E4. right; right; right; left. split; [now left|reflexivity]. }
  destruct (Js.eqb key (lit "__proto__")) eqn:E5.
  { apply jsEqb_eq in E5. right; right; right; left. split; [now right|reflexivity]. }
  apply jsEqb_neq in E4, E5. right; right; right; right. repeat split; assumption.
Qed.

Lemma testPattern_true :
  forall count hash,
    testPattern count hash = true <-> length hash = count /\ forallb isHexAnyCase hash = true.
Proof.
  intros count hash. unfold testPattern. rewrite andb_true_iff, Nat.eqb_eq. reflexivity.
Qed.

(** X14 ([validateHashFormat]): a hash is reported valid only for one of
    the three algorithm names, in any letter case, and only when it is
    made of hex digits.  The [expectedLength] reported next to it is
    compared with the name as given: it agrees with the length of the valid
    hash exactly when the name is [sha256] or [sha1] in lower case, or is
    [md5] in any case; for [SHA256] the object says [valid: true],
    [actualLength: 64], [expectedLength: 32]. *)
Theorem validateHashFormat_lengths :
  forall (hash algorithm : jsstring) (r : HashFormat),
    validateHashFormat hash (Some algorithm) = Ok r ->
    formatValid r = true ->
    knownAlgorithm algorithm
    /\ forallb isHexAnyCase hash = true
    /\ (actualLength r = expectedLength r
        <-> algorithm = lit "sha256" \/ algorithm = lit "sha1"
            \/ toLowerCase algorithm = lit "md5").
Proof.
  intros hash algorithm r Hr Hv. unfold validateHashFormat in Hr.
  unfold knownAlgorithm.
  assert (Hexact1 : algorithm = lit "sha256" -> toLowerCase algorithm = lit "sha256")
    by (intros ->; reflexivity).
  assert (Hexact2 : algorithm = lit "sha1" -> toLowerCase algorithm = lit "sha1")
    by (intros ->; reflexivity).
  destruct (patterns_cases (toLowerCase algorithm))
    as [[Hk Hp]|[[Hk Hp]|[[Hk Hp]|[[Hk Hp]|(_ & _ & _ & _ & _ & Hp)]]]];
    rewrite Hp in Hr; cbn [bind] in Hr; try discriminate;
    inversion Hr; subst r; cbn [formatValid actualLength expectedLength] in *;
    try discriminate;
    apply testPattern_true in Hv; destruct Hv as [Hlen Hhex]; rewrite Hlen;
    (split; [tauto|]); (split; [exact Hhex|]).
  - destruct (Js.eqb algorithm (lit "sha256")) eqn:E1.
    + apply jsEqb_eq in E1. tauto.
    + apply jsEqb_neq in E1.
      destruct (Js.eqb algorithm (lit "sha1")) eqn:E2;
        (split; [intros H; discriminate H|]);
        intros [H|[H|H]]; try contradiction; try (apply Hexact2 in H);
        rewrite Hk in H; vm_compute in H; discriminate H.
  - destruct (Js.eqb algorithm (lit "sha256")) eqn:E1.
    + apply jsEqb_eq in E1. apply Hexact1 in E1. rewrite Hk in E1.
      vm_compute in E1. discriminate E1.
    + destruct (Js.eqb algorithm (lit "sha1")) eqn:E2.
      * apply jsEqb_eq in E2. tauto.
      * apply jsEqb_neq in E1, E2. split; [intros H; discriminate H|].
        intros [H|[H|H]]; try contradiction.
        rewrite Hk in H. vm_compute in H. discriminate H.
  - destruct (Js.eqb algorithm (lit "sha256")) eqn:E1.
    + apply jsEqb_eq in E1. apply Hexact1 in E1. rewrite Hk in E1.
      vm_compute in E1. discriminate E1.
    + destruct (Js.eqb algorithm (lit "sha1")) eqn:E2.
      * apply jsEqb_eq in E2. apply Hexact2 in E2. rewrite Hk in E2.
        vm_compute in E2. discriminate E2.
      * tauto.
Qed.

Lemma validateHashFormat_lengths_witness :
  let r := {| formatValid := true; formatHash := repeat 97%N 64;
              formatAlgorithm := lit "SHA256"; expectedLength := 32;
              actualLength := 64 |} in
  knownAlgorithm (lit "SHA256")
  /\ forallb isHexAnyCase (repeat 97%N 64) = true
  /\ (actualLength r = expectedLength r
      <-> lit "SHA256" = lit "sha256" \/ lit "SHA256" = lit "sha1"
          \/ toLowerCase (lit "SHA256") = lit "md5").
Proof.
  apply (validateHashFormat_lengths (repeat 97%N 64) (lit "SHA256")
           {| formatValid := true; formatHash := repeat 97%N 64;
              formatAlgorithm := lit "SHA256"; expectedLength := 32;
              actualLength := 64 |}).
  - vm_compute. reflexivity.
  - reflexivity.
Defined.

(** X15 ([validateHashFormat]): the call throws a [TypeError] exactly when
    the algorithm name, in lower case, is [constructor] or [__proto__]:
    the lookup in the object literal then finds an inherited value, which
    is truthy and has no [test].  For every other name it returns an
    object. *)
Theorem validateHashFormat_throws_iff :
  forall (hash algorithm : jsstring),
    (exists m, validateHashFormat hash (Some algorithm) = Throw m)
    <-> toLowerCase algorithm = lit "constructor"
        \/ toLowerCase algorithm = lit "__proto__".
Proof.
  intros hash algorithm. unfold validateHashFormat.
  destruct (patterns_cases (toLowerCase algorithm))
    as [[Hk Hp]|[[Hk Hp]|[[Hk Hp]|[[Hk Hp]|(N1 & N2 & N3 & N4 & N5 & Hp)]]]];
    rewrite Hp; cbn [bind]; split; try (intros [m Hm]; discriminate Hm);
    try (intros [H|H]; rewrite Hk in H; vm_compute in H; discriminate H);
    try (intros _; eexists; reflexivity); try (intros _; exact Hk).
  intros [H|H]; contradiction.
Qed.

(** X16 ([generateMetadataHash]): the hash does not depend on the order of
    the keys of the metadata object: two objects with the same properties
    in a different order get the same hash. *)
Theorem generateMetadataHash_key_order :
  forall (stringDigest : jsstring -> jsstring) (metadata reordered : list (jsstring * json)),
    NoDup (map fst metadata) ->
    Permutation metadata reordered ->
    generateMetadataHash stringDigest metadata
    = generateMetadataHash stringDigest reordered.
Proof.
  intros stringDigest metadata reordered Hnd Hp.
  unfold generateMetadataHash, generateStringHash, metadataString. f_equal.
  assert (Hnd2 : NoDup (map fst reordered)).
  { apply (Permutation_NoDup (l := map fst metadata)); [|exact Hnd].
    now apply Permutation_map. }
  rewrite !objectKeys_NoDup by assumption.
  rewrite (sort_Permutation (map fst metadata) (map fst reordered))
    by now apply Permutation_map.
  rewrite !stringifyWith_object. do 3 f_equal.
  apply flat_map_ext. intros key. unfold propertyText.
  now rewrite (lookupLast_Permutation key metadata reordered Hnd Hp).
Qed.

Lemma generateMetadataHash_key_order_witness :
  generateMetadataHash (fun text => text)
    [ (lit "recipient", JStr (lit "Ann")); (lit "degree", JStr (lit "BSc")) ]
  = generateMetadataHash (fun text => text)
      [ (lit "degree", JStr (lit "BSc")); (lit "recipient", JStr (lit "Ann")) ].
Proof.
  apply (generateMetadataHash_key_order (fun text => text)
           [ (lit "recipient", JStr (lit "Ann")); (lit "degree", JStr (lit "BSc")) ]
           [ (lit "degree", JStr (lit "BSc")); (lit "recipient", JStr (lit "Ann")) ]).
  - repeat constructor; cbn; intros H; repeat destruct H as [H|H]; try discriminate H;
      exact H.
  - apply perm_swap.
Defined.

(** X17 ([generateMetadataHash]): the sorted key list is passed as the
    property list of [JSON.stringify], which filters the objects at every
    depth.  A nested object therefore loses each property whose name is not
    also a key of the metadata object itself, and two metadata objects that
    differ only in such nested properties get the same hash. *)
Theorem generateMetadataHash_drops_nested_properties :
  forall (stringDigest : jsstring -> jsstring)
         (before after : list (jsstring * json)) (key : jsstring)
         (nested1 nested2 : list (jsstring * json)),
    (forall k, In k (map fst nested1) \/ In k (map fst nested2) ->
               ~ In k (map fst before ++ key :: map fst after)) ->
    generateMetadataHash stringDigest (before ++ (key, JObj nested1) :: after)
    = generateMetadataHash stringDigest (before ++ (key, JObj nested2) :: after).
Proof.
  intros stringDigest before after key nested1 nested2 Hfresh.
  unfold generateMetadataHash, generateStringHash, metadataString. f_equal.
  assert (Hkeys : forall nested,
             map fst (before ++ (key, JObj nested) :: after)
             = map fst before ++ key :: map fst after)
    by (intros nested; now rewrite map_app).
  rewrite (objectKeys_fst (before ++ (key, JObj nested1) :: after)
             (before ++ (key, JObj nested2) :: after))
    by now rewrite !Hkeys.
  set (K := sort (objectKeys (before ++ (key, JObj nested2) :: after))).
  assert (HK : forall k, In k K -> In k (map fst before ++ key :: map fst after)).
  { intros k Hk. unfold K in Hk. apply In_sort, In_objectKeys in Hk.
    now rewrite Hkeys in Hk. }
  assert (Hnested : stringifyWith K (JObj nested1) = stringifyWith K (JObj nested2)).
  { rewrite !stringifyWith_object. do 3 f_equal.
    apply flat_map_ext_in. intros k Hk. apply HK in Hk. unfold propertyText.
    replace (lookupLast k nested1) with (@None json)
      by (symmetry; apply lookupLast_None; intros H; apply (Hfresh k); tauto).
    replace (lookupLast k nested2) with (@None json)
      by (symmetry; apply lookupLast_None; intros H; apply (Hfresh k); tauto).
    reflexivity. }
  rewrite !stringifyWith_object. do 3 f_equal.
  apply flat_map_ext. intros k. unfold propertyText.
  destruct (lookupLast_middle k key (JObj nested1) (JObj nested2) before after)
    as [H|[H1 H2]].
  - now rewrite H.
  - now rewrite H1, H2, Hnested.
Qed.

Lemma generateMetadataHash_drops_nested_properties_witness :
  generateMetadataHash (fun text => text)
    [ (lit "recipient", JObj [ (lit "name", JStr (lit "Ann")) ]) ]
  = generateMetadataHash (fun text => text)
      [ (lit "recipient", JObj [ (lit "name", JStr (lit "Bob")) ]) ].
Proof.
  apply (generateMetadataHash_drops_nested_properties (fun text => text) [] []
           (lit "recipient") [ (lit "name", JStr (lit "Ann")) ]
           [ (lit "name", JStr (lit "Bob")) ]).
  cbn. intros k [[H|[]]|[H|[]]] [H'|[]]; subst k; discriminate H'.
Defined.

(* ------------------------------------------------------------------ *)
(** ** X18 to X20: the anchor lookups of [blockchainService.js] *)

(** X18 ([verifyHash]): the only way to get [valid: false] is a configured
    contract whose two calls both return and whose [verifyHash] answers
    [false].  Without a contract, and whenever a contract call throws, the
    result is the simulation, which says [valid: true]. *)
Theorem verifyHash_invalid_iff :
  forall (ch : Chain) (transactionHash : option json) (expectedHash : jsstring),
    valid (verifyHash ch transactionHash expectedHash) = false
    <-> exists c issuerId,
          contract ch = Some c
          /\ contractVerifyHash c expectedHash = Ok false
          /\ contractGetIssuer c expectedHash = Ok issuerId.
Proof.
  intros ch transactionHash expectedHash. unfold verifyHash, hasContract.
  destruct (contract ch) as [c|]; cbn [negb].
  - destruct (contractVerifyHash c expectedHash) as [isValid|m] eqn:Ev; cbn [bind].
    + destruct (contractGetIssuer c expectedHash) as [issuerId|m] eqn:Ei; cbn [bind valid].
      * split.
        -- intros H. subst isValid. exists c, issuerId. repeat split; assumption.
        -- intros (c' & i' & Hc & Hv & _). inversion Hc; subst c'. congruence.
      * split; [discriminate|]. intros (c' & i' & Hc & _ & Hi).
        inversion Hc; subst c'. congruence.
    + cbn [valid simulateBlockchainVerification]. split; [discriminate|].
      intros (c' & i' & Hc & Hv & _). inversion Hc; subst c'. congruence.
  - cbn [valid simulateBlockchainVerification]. split; [discriminate|].
    intros (c' & i' & Hc & _). discriminate Hc.
Qed.

(** X19 ([router.get('/hash/:hash')], [verifyHashByHash]): without a
    contract the route answers [valid: true], "Hash found on blockchain",
    for every string of 64 characters, hex or not, stored or not; a string
    of any other length gets the 400 answer. *)
Theorem verifyByHash_without_contract :
  forall (ch : Chain) (hash : jsstring),
    contract ch = None ->
    verifyByHash ch hash
    = if Nat.eqb (length hash) 64
      then HashBody true "Hash found on blockchain"
             (Simulated (simulateBlockchainVerification ch (Some JNull) hash))
      else HashBadRequest "Invalid hash format. Hash must be 64 characters long.".
Proof.
  intros ch hash Hc. unfold verifyByHash, verifyHashByHash. rewrite Hc.
  destruct (Nat.eqb (length hash) 64) eqn:E.
  - apply Nat.eqb_eq in E. rewrite E. reflexivity.
  - cbn [negb]. now rewrite orb_true_r.
Qed.

Lemma verifyByHash_without_contract_witness :
  verifyByHash (chain Samples.platform) (repeat 122%N 64)
  = HashBody true "Hash found on blockchain"
      (Simulated (simulateBlockchainVerification (chain Samples.platform) (Some JNull)
                    (repeat 122%N 64))).
Proof.
  apply (verifyByHash_without_contract (chain Samples.platform) (repeat 122%N 64)).
  reflexivity.
Defined.

(** X20 ([verifyHash], [verifyHashByHash]): the two lookups disagree when a
    call of the configured contract throws: [verifyHash] falls back to the
    simulation and says [valid: true], [verifyHashByHash] says
    [valid: false]. *)
Theorem contract_failure_verdicts :
  forall (ch : Chain) (c : Contract) (transactionHash : option json) (hash : jsstring),
    contract ch = Some c ->
    (exists m, contractVerifyHash c hash = Throw m)
    \/ (exists m, contractGetIssuer c hash = Throw m) ->
    valid (verifyHash ch transactionHash hash) = true
    /\ lookupValid (verifyHashByHash ch hash) = false.
Proof.
  intros ch c transactionHash hash Hc Hfail.
  unfold verifyHash, verifyHashByHash, hasContract. rewrite Hc. cbn [negb].
  destruct (contractVerifyHash c hash) as [isValid|m] eqn:Ev; cbn [bind].
  - destruct Hfail as [[m Hm]|[m Hm]]; [discriminate|]. rewrite Hm. cbn. split; reflexivity.
  - cbn. split; reflexivity.
Qed.

Lemma contract_failure_verdicts_witness :
  valid (verifyHash MoreSamples.unreachableChain (Some (JStr (lit "0x5e1f"))) (lit "ab12"))
  = true
  /\ lookupValid (verifyHashByHash MoreSamples.unreachableChain (lit "ab12")) = false.
Proof.
  apply (contract_failure_verdicts MoreSamples.unreachableChain
           MoreSamples.unreachableContract).
  - reflexivity.
  - left. eexists. reflexivity.
Defined.

(* ------------------------------------------------------------------ *)
(** ** X21 and X22: the verification handler *)

(** X21 ([router.post('/certificate')] of [verify.js]): a certificate is
    reported valid only when data was extracted from the upload, a key is
    stored for the issuer named in that data, and the RSA check under that
    key accepts the signature of that data for the digest of the uploaded
    bytes; the anchor check passed on the same digest. *)
Theorem verifyCertificate_valid_means_signed :
  forall (pf : Platform) (file : File) (success : bool) (message : string)
         (details : VerificationDetails) (blockchainDetails : option AnchorResult)
         (signatureDetails : option SignatureResult) (calls : list Call),
    verifyCertificate pf (Some file)
    = (VerifyBody success true message details blockchainDetails signatureDetails, calls) ->
    exists bytes data keyData,
      contents file = Some bytes
      /\ extractData file = Ok data
      /\ truthy data = true
      /\ keyFile (keys pf) (getProp data "issuerId") = Some keyData
      /\ rsaVerify (keys pf) (publicKey keyData) (sha256hex pf bytes)
           (getProp data "signature") = Ok true
      /\ valid (verifyHash (chain pf) (getProp data "transactionHash") (sha256hex pf bytes))
         = true.
Proof.
  intros pf file success message details bd sd calls H.
  unfold verifyCertificate, generateHash in H.
  destruct (contents file) as [bytes|] eqn:Hc; [|discriminate].
  destruct (extractData file) as [data|m] eqn:Hx; [|discriminate].
  destruct (truthy data) eqn:Ht; cbn [negb] in H; [|discriminate].
  exists bytes, data.
  unfold verifySignature, getPublicKey in H.
  destruct (keyFile (keys pf) (getProp data "issuerId")) as [keyData|] eqn:Ek;
    cbn [bind] in H.
  - exists keyData.
    destruct (rsaVerify (keys pf) (publicKey keyData) (sha256hex pf bytes)
                (getProp data "signature")) as [isValid|m] eqn:Ev;
      cbn [sigValid] in H.
    + destruct (valid (verifyHash (chain pf) (getProp data "transactionHash")
                         (sha256hex pf bytes))) eqn:Ea;
        destruct isValid; cbn [andb] in H; try discriminate.
      repeat split; first [reflexivity | assumption].
    + rewrite andb_false_r in H. discriminate.
  - cbn [sigValid] in H. rewrite andb_false_r in H. discriminate.
Qed.

Lemma verifyCertificate_valid_means_signed_witness :
  exists bytes data keyData,
    contents sampleCarrier = Some bytes
    /\ extractData sampleCarrier = Ok data
    /\ truthy data = true
    /\ keyFile (keys MoreSamples.signedPlatform) (getProp data "issuerId") = Some keyData
    /\ rsaVerify (keys MoreSamples.signedPlatform) (publicKey keyData)
         (sha256hex MoreSamples.signedPlatform bytes) (getProp data "signature") = Ok true
    /\ valid (verifyHash (chain MoreSamples.signedPlatform) (getProp data "transactionHash")
                (sha256hex MoreSamples.signedPlatform bytes))
       = true.
Proof.
  eapply (verifyCertificate_valid_means_signed MoreSamples.signedPlatform sampleCarrier).
  vm_compute. reflexivity.
Defined.

(** X22 ([router.post('/certificate')] of [verify.js], [verifyHash]):
    without a contract the anchor check decides nothing: whenever data is
    extracted, [blockchainVerified] is [true] and the overall [valid] is
    the verdict of the signature check alone. *)
Theorem verifyCertificate_without_contract :
  forall (pf : Platform) (file : File) (success isValid : bool) (message : string)
         (details : VerificationDetails) (blockchainDetails : option AnchorResult)
         (signatureDetails : option SignatureResult),
    contract (chain pf) = None ->
    fst (verifyCertificate pf (Some file))
    = VerifyBody success isValid message details blockchainDetails signatureDetails ->
    isValid = signatureVerified details
    /\ (hasEmbeddedData details = true -> blockchainVerified details = true).
Proof.
  intros pf file success isValid message details bd sd Hc H.
  unfold verifyCertificate in H.
  destruct (generateHash (sha256hex pf) file) as [h|m]; [|discriminate].
  destruct (extractData file) as [data|m]; [|discriminate].
  destruct (truthy data); cbn [negb fst] in H.
  - unfold verifyHash, hasContract in H. rewrite Hc in H. cbn [negb valid] in H.
    unfold simulateBlockchainVerification in H. cbn [valid andb] in H.
    inversion H; subst. cbn. split; reflexivity.
  - unfold noEmbeddedData in H. inversion H; subst. cbn. split; [reflexivity|discriminate].
Qed.

Lemma verifyCertificate_without_contract_witness :
  let details :=
    {| detailCertificateHash := Samples.checksum [137; 80; 78; 71]%N;
       detailTransactionHash := Some (JStr (lit "0x5e1f"));
       detailIssuerId := Some (JStr (lit "univ-1"));
       detailIssuedAt := Some (JStr (lit "2024-01-01T00:00:00.000Z"));
       blockchainVerified := true;
       signatureVerified := false;
       hasEmbeddedData := true |} in
  false = signatureVerified details
  /\ (hasEmbeddedData details = true -> blockchainVerified details = true).
Proof.
  eapply (verifyCertificate_without_contract Samples.platform sampleCarrier).
  - reflexivity.
  - vm_compute. reflexivity.
Defined.

(** ** JSON.parse after JSON.stringify, for every string *)

Lemma hex4_surrogate :
  forall c, isHighSurrogate c = true \/ isLowSurrogate c = true ->
    hex4 (hexDigit ((c / 4096) mod 16)) (hexDigit ((c / 256) mod 16))
         (hexDigit ((c / 16) mod 16)) (hexDigit (c mod 16)) = Some c.
Proof.
  intros c Hc.
  assert (Hrange : (55296 <= c < 57344)%N).
  { unfold isHighSurrogate, isLowSurrogate in Hc.
    destruct Hc as [H|H]; apply andb_true_iff in H; destruct H as [H1 H2];
      apply N.leb_le in H1, H2; lia. }
  assert (Hall : forallb (fun i =>
            let x := (55296 + N.of_nat i)%N in
            match hex4 (hexDigit ((x / 4096) mod 16)) (hexDigit ((x / 256) mod 16))
                       (hexDigit ((x / 16) mod 16)) (hexDigit (x mod 16)) with
            | Some u => (u =? x)%N
            | None => false
            end) (seq 0 2048) = true) by (vm_compute; reflexivity).
  rewrite forallb_forall in Hall. specialize (Hall (N.to_nat (c - 55296))).
  cbv zeta in Hall. replace (55296 + N.of_nat (N.to_nat (c - 55296)))%N with c in Hall by lia.
  assert (Hin : In (N.to_nat (c - 55296)) (seq 0 2048)) by (apply in_seq; lia).
  apply Hall in Hin.
  destruct (hex4 _ _ _ _) as [u|]; [|discriminate]. apply N.eqb_eq in Hin. now subst.
Qed.

Lemma parse_unicodeEscape :
  forall c tl, isHighSurrogate c = true \/ isLowSurrogate c = true ->
    parseStringBody (unicodeEscape c ++ tl) = consChar c (parseStringBody tl).
Proof.
  intros c tl Hc. unfold unicodeEscape. cbn [app]. rewrite parseStringBody_cons.
  cbn [N.eqb Pos.eqb]. now rewrite (hex4_surrogate c Hc).
Qed.

Lemma parse_surrogate :
  forall c tl, isHighSurrogate c = true \/ isLowSurrogate c = true ->
    parseStringBody (c :: tl) = consChar c (parseStringBody tl).
Proof.
  intros c tl Hc.
  assert (Hrange : (55296 <= c)%N).
  { unfold isHighSurrogate, isLowSurrogate in Hc.
    destruct Hc as [H|H]; apply andb_true_iff in H; destruct H as [H1 H2];
      apply N.leb_le in H1, H2; lia. }
  rewrite parseStringBody_cons.
  destruct (N.eqb_spec c 34); [lia|]. destruct (N.eqb_spec c 92); [lia|].
  destruct (N.ltb_spec c 32); [lia|reflexivity].
Qed.

(** The parser reads back the body [JSON.stringify] writes for a string,
    whatever its code units. *)
Lemma parseStringBody_quoteBody_any :
  forall s rest, parseStringBody (quoteBody s ++ 34%N :: rest) = Some (s, rest).
Proof.
  intros s. remember (length s) as n eqn:Hn. revert s Hn.
  induction n as [n IH] using lt_wf_ind. intros s Hn rest.
  destruct s as [|c s]; [reflexivity|]. cbn [quoteBody].
  destruct (isHighSurrogate c) eqn:Hh.
  - destruct s as [|d s'].
    + rewrite parse_unicodeEscape by now left. reflexivity.
    + destruct (isLowSurrogate d) eqn:Hl.
      * cbn [app]. rewrite parse_surrogate by now left.
        rewrite parse_surrogate by now right.
        rewrite (IH (length s')) by (cbn [length] in Hn; lia || reflexivity).
        reflexivity.
      * rewrite <- app_assoc, parse_unicodeEscape by now left.
        rewrite (IH (length (d :: s'))) by (cbn [length] in *; lia || reflexivity).
        reflexivity.
  - destruct (isLowSurrogate c) eqn:Hl.
    + rewrite <- app_assoc, parse_unicodeEscape by now right.
      rewrite (IH (length s)) by (cbn [length] in Hn; lia || reflexivity). reflexivity.
    + rewrite <- app_assoc, parse_quoteChar.
      rewrite (IH (length s)) by (cbn [length] in Hn; lia || reflexivity). reflexivity.
Qed.

(** ** The text of a key file *)

(** The members of an object of strings, one per line, are read back. *)
Lemma parseMembers_lines :
  forall (members : list (jsstring * jsstring)),
    members <> [] ->
    forall fuel rest,
      let text :=
        10%N :: lit "  "
          ++ KeyStorage.joinLines (lit "  ")
               (map (fun kv => quote (fst kv) ++ 58%N :: 32%N :: quote (snd kv)) members)
          ++ 10%N :: 125%N :: rest in
      2 * length text + 2 <= fuel ->
      parseMembers fuel text
      = Some (map (fun kv => (fst kv, JStr (snd kv))) members, rest).
Proof.
  induction members as [|[k v] members IH]; intros Hne fuel rest text Hfuel;
    [contradiction|].
  subst text.
  destruct fuel as [|[|fuel]]; [cbn [length] in Hfuel; lia|cbn [length] in Hfuel; lia|].
  assert (Hstep :
    forall tail,
      parseMembers (S (S fuel))
        (10%N :: lit "  " ++ (quote k ++ 58%N :: 32%N :: quote v) ++ tail)
      = match skipWs tail with
        | c3 :: r4 =>
            if (c3 =? 44)%N then
              match parseMembers (S fuel) r4 with
              | Some (ms, r5) => Some ((k, JStr v) :: ms, r5)
              | None => None
              end
            else if (c3 =? 125)%N then Some ([(k, JStr v)], r4)
            else None
        | [] => None
        end).
  { intros tail. rewrite parseMembers_step. unfold membersStep, quote.
    change (lit "  ") with [32%N; 32%N]. cbn [app].
    cbn [skipWs isWhitespace N.eqb Pos.eqb orb].
    rewrite <- !app_assoc. cbn [app].
    rewrite parseStringBody_quoteBody_any.
    cbn [skipWs isWhitespace N.eqb Pos.eqb orb].
    rewrite parseValue_step. unfold valueStep.
    cbn [skipWs isWhitespace N.eqb Pos.eqb orb].
    rewrite <- ?app_assoc. cbn [app].
    rewrite parseStringBody_quoteBody_any. reflexivity. }
  destruct members as [|m members].
  - cbn [map KeyStorage.joinLines fst snd]. rewrite Hstep. reflexivity.
  - remember (m :: members) as ms eqn:Hms.
    assert (Hjoin :
      KeyStorage.joinLines (lit "  ")
        (map (fun kv => quote (fst kv) ++ 58%N :: 32%N :: quote (snd kv)) ((k, v) :: ms))
      = (quote k ++ 58%N :: 32%N :: quote v)
          ++ 44%N :: 10%N :: lit "  "
          ++ KeyStorage.joinLines (lit "  ")
               (map (fun kv => quote (fst kv) ++ 58%N :: 32%N :: quote (snd kv)) ms))
      by (subst ms; reflexivity).
    assert (Htext :
      10%N :: lit "  "
        ++ KeyStorage.joinLines (lit "  ")
             (map (fun kv => quote (fst kv) ++ 58%N :: 32%N :: quote (snd kv))
                ((k, v) :: ms))
        ++ 10%N :: 125%N :: rest
      = 10%N :: lit "  " ++ (quote k ++ 58%N :: 32%N :: quote v)
          ++ 44%N :: (10%N :: lit "  "
                ++ KeyStorage.joinLines (lit "  ")
                     (map (fun kv => quote (fst kv) ++ 58%N :: 32%N :: quote (snd kv)) ms)
                ++ 10%N :: 125%N :: rest)).
    { rewrite Hjoin. change (lit "  ") with [32%N; 32%N]. cbn [app].
      rewrite <- !app_assoc. cbn [app]. rewrite <- ?app_assoc. reflexivity. }
    rewrite Htext in *. rewrite Hstep.
    cbn [skipWs isWhitespace N.eqb Pos.eqb orb].
    rewrite (IH ltac:(subst ms; discriminate) (S fuel) rest).
    + reflexivity.
    + cbv zeta. change (lit "  ") with [32%N; 32%N] in *.
      cbn [length app] in *.
      do 3 (rewrite ?length_app in *; cbn [length] in *). lia.
Qed.

Lemma parse_keyData :
  forall issuerId issuerName publicKey privateKey createdAt,
    Json.parse
      (KeyStorage.stringifyIndented (lit "  ") []
         (KeyStorage.keyDataJson issuerId issuerName publicKey privateKey createdAt))
    = Ok (KeyStorage.keyDataJson issuerId issuerName publicKey privateKey createdAt).
Proof.
  intros a b c d e. unfold Json.parse.
  set (members := [ (lit "issuerId", a); (lit "issuerName", b); (lit "publicKey", c);
                    (lit "privateKey", d); (lit "createdAt", e);
                    (lit "algorithm", lit "RSA-2048") ]).
  assert (Htext :
    KeyStorage.stringifyIndented (lit "  ") [] (KeyStorage.keyDataJson a b c d e)
    = 123%N :: (10%N :: lit "  "
        ++ KeyStorage.joinLines (lit "  ")
             (map (fun kv => quote (fst kv) ++ 58%N :: 32%N :: quote (snd kv)) members)
        ++ 10%N :: 125%N :: [])) by reflexivity.
  rewrite Htext.
  set (body := 10%N :: lit "  "
        ++ KeyStorage.joinLines (lit "  ")
             (map (fun kv => quote (fst kv) ++ 58%N :: 32%N :: quote (snd kv)) members)
        ++ 10%N :: 125%N :: []).
  assert (Hbody : exists tl, skipWs body = 34%N :: tl).
  { eexists. reflexivity. }
  destruct Hbody as [tl Htl].
  replace (2 * length (123%N :: body) + 2) with (S (2 * length body + 3))
    by (cbn [length]; lia).
  rewrite parseValue_step. unfold valueStep.
  cbn [skipWs isWhitespace N.eqb Pos.eqb orb]. rewrite Htl.
  cbn [N.eqb Pos.eqb].
  unfold body. rewrite (parseMembers_lines members ltac:(discriminate)).
  - reflexivity.
  - cbv zeta. lia.
Qed.

(** ** The key directory *)

Lemma readText_new_same :
  forall (disk : KeyStorage.Disk) path text,
    KeyStorage.readText ((path, text) :: disk) path = Some text.
Proof. intros. cbn. now rewrite jsEqb_refl. Qed.

Lemma readText_new_other :
  forall (disk : KeyStorage.Disk) path text other,
    path <> other ->
    KeyStorage.readText ((path, text) :: disk) other = KeyStorage.readText disk other.
Proof.
  intros disk path text other H. cbn. apply jsEqb_neq in H. now rewrite H.
Qed.

Lemma readText_removed_same :
  forall (disk : KeyStorage.Disk) path,
    KeyStorage.readText (filter (fun f => negb (Js.eqb (fst f) path)) disk) path = None.
Proof.
  induction disk as [|[p t] disk IH]; intros path; [reflexivity|].
  cbn [filter fst]. destruct (Js.eqb p path) eqn:E; cbn [negb].
  - apply IH.
  - cbn [KeyStorage.readText]. rewrite E. apply IH.
Qed.

Lemma readText_removed_other :
  forall (disk : KeyStorage.Disk) path other,
    path <> other ->
    KeyStorage.readText (filter (fun f => negb (Js.eqb (fst f) path)) disk) other
    = KeyStorage.readText disk other.
Proof.
  induction disk as [|[p t] disk IH]; intros path other H; [reflexivity|].
  cbn [filter fst]. destruct (Js.eqb p path) eqn:E; cbn [negb].
  - apply jsEqb_eq in E. subst p. cbn [KeyStorage.readText].
    pose proof H as H'. apply jsEqb_neq in H'. rewrite H'. now apply IH.
  - cbn [KeyStorage.readText]. destruct (Js.eqb p other); [reflexivity|]. now apply IH.
Qed.

(** The two outcomes of [unlinkSync] on a file that exists. *)
Lemma unlinkSync_existing :
  forall cr disk path,
    KeyStorage.existsSync disk path = true ->
    KeyStorage.unlinkSync cr disk path
    = if KeyStorage.canUnlink cr path
      then Ok (filter (fun f => negb (Js.eqb (fst f) path)) disk)
      else Throw "EPERM".
Proof. intros cr disk path H. unfold KeyStorage.unlinkSync. now rewrite H. Qed.

Lemma readKey_depends_on_file :
  forall cr disk1 disk2 issuerId key,
    KeyStorage.readText disk1 (KeyStorage.keyFilePath cr issuerId)
    = KeyStorage.readText disk2 (KeyStorage.keyFilePath cr issuerId) ->
    KeyStorage.readKey cr disk1 issuerId key = KeyStorage.readKey cr disk2 issuerId key.
Proof.
  intros cr disk1 disk2 issuerId key H.
  unfold KeyStorage.readKey, KeyStorage.existsSync, KeyStorage.readFileSync.
  now rewrite H.
Qed.

(** The two outcomes of [generateKeyPair] when the keys were generated. *)
Lemma generateKeyPair_cases :
  forall cr disk issuerId issuerName publicKey privateKey,
    KeyStorage.generateKeyPair cr (Ok (publicKey, privateKey)) disk issuerId issuerName
    = if KeyStorage.canWrite cr (KeyStorage.keyFilePath cr issuerId)
      then (Ok {| KeyStorage.generatedIssuerId := issuerId;
                  KeyStorage.generatedIssuerName := issuerName;
                  KeyStorage.generatedPublicKey := publicKey;
                  KeyStorage.keyGeneratedAt := KeyStorage.isoNow cr |},
            (KeyStorage.keyFilePath cr issuerId,
             KeyStorage.stringifyIndented (lit "  ") []
               (KeyStorage.keyDataJson issuerId issuerName publicKey privateKey
                  (KeyStorage.isoNow cr))) :: disk)
      else (Throw "Failed to generate key pair", disk).
Proof.
  intros cr disk id name pub priv.
  unfold KeyStorage.generateKeyPair, KeyStorage.writeFileSync.
  destruct (KeyStorage.canWrite cr (KeyStorage.keyFilePath cr id)); reflexivity.
Qed.

Lemma readKey_written :
  forall cr (disk : KeyStorage.Disk) issuerId issuerName publicKey privateKey key,
    KeyStorage.readKey cr
      ((KeyStorage.keyFilePath cr issuerId,
        KeyStorage.stringifyIndented (lit "  ") []
          (KeyStorage.keyDataJson issuerId issuerName publicKey privateKey
             (KeyStorage.isoNow cr))) :: disk)
      issuerId key
    = KeyStorage.Normal
        (getProp (KeyStorage.keyDataJson issuerId issuerName publicKey privateKey
                    (KeyStorage.isoNow cr)) key).
Proof.
  intros cr disk issuerId issuerName publicKey privateKey key.
  unfold KeyStorage.readKey, KeyStorage.existsSync, KeyStorage.readFileSync.
  rewrite readText_new_same. cbn [negb bind].
  rewrite parse_keyData. reflexivity.
Qed.

Lemma readKey_missing :
  forall cr disk issuerId key,
    KeyStorage.readText disk (KeyStorage.keyFilePath cr issuerId) = None ->
    KeyStorage.readKey cr disk issuerId key
    = KeyStorage.Abrupt (lit "No key pair found for issuer: " ++ issuerId).
Proof.
  intros cr disk issuerId key H. unfold KeyStorage.readKey, KeyStorage.existsSync.
  now rewrite H.
Qed.

(** After the key file of an issuer was written, the getters return the
    keys in it; the getters of an issuer with another file are as
    before. *)
Lemma getters_after_write :
  forall cr (disk : KeyStorage.Disk) issuerId issuerName publicKey privateKey,
    let disk' :=
      (KeyStorage.keyFilePath cr issuerId,
       KeyStorage.stringifyIndented (lit "  ") []
         (KeyStorage.keyDataJson issuerId issuerName publicKey privateKey
            (KeyStorage.isoNow cr))) :: disk in
    KeyStorage.getPublicKey cr disk' issuerId = KeyStorage.Normal (Some (JStr publicKey))
    /\ KeyStorage.getPrivateKey cr disk' issuerId = KeyStorage.Normal (Some (JStr privateKey))
    /\ forall other,
         KeyStorage.keyFilePath cr issuerId <> KeyStorage.keyFilePath cr other ->
         KeyStorage.getPublicKey cr disk' other = KeyStorage.getPublicKey cr disk other.
Proof.
  intros cr disk issuerId issuerName publicKey privateKey disk'. subst disk'.
  unfold KeyStorage.getPublicKey, KeyStorage.getPrivateKey.
  rewrite !readKey_written. repeat split.
  intros other Hother.
  rewrite (readKey_depends_on_file cr _ disk other "publicKey"); [reflexivity|].
  now apply readText_new_other.
Qed.

Lemma getPublicKey_missing :
  forall cr disk issuerId,
    KeyStorage.readText disk (KeyStorage.keyFilePath cr issuerId) = None ->
    KeyStorage.getPublicKey cr disk issuerId
    = KeyStorage.Abrupt (lit "Failed to get public key for issuer: " ++ issuerId).
Proof.
  intros cr disk issuerId H. unfold KeyStorage.getPublicKey.
  now rewrite readKey_missing.
Qed.

(* ------------------------------------------------------------------ *)
(** ** X23 to X26: the key files of [cryptoService.js] and the issuer
       routes of [issue.js] *)

(** X23 ([generateKeyPair], [getPublicKey], [getPrivateKey]): what
    [generateKeyPair] writes is what the two getters read.  When the write
    of the key file goes through, the call returns the public key, and
    afterwards, whatever the directory held before and whatever the
    strings are, [getPublicKey] returns the public key of that call and
    [getPrivateKey] its private key (an earlier pair of the same issuer is
    replaced), while for an issuer whose file has another path the getter
    returns what it returned before.  When the write throws, the call
    throws [Failed to generate key pair] and the directory is as it
    was. *)
Theorem generateKeyPair_then_getters :
  forall (cr : KeyStorage.Crypto) (disk : KeyStorage.Disk)
         (issuerId issuerName publicKey privateKey : jsstring),
    let (result, disk') :=
      KeyStorage.generateKeyPair cr (Ok (publicKey, privateKey)) disk issuerId issuerName in
    if KeyStorage.canWrite cr (KeyStorage.keyFilePath cr issuerId)
    then (exists key, result = Ok key /\ KeyStorage.generatedPublicKey key = publicKey)
         /\ KeyStorage.getPublicKey cr disk' issuerId
            = KeyStorage.Normal (Some (JStr publicKey))
         /\ KeyStorage.getPrivateKey cr disk' issuerId
            = KeyStorage.Normal (Some (JStr privateKey))
         /\ forall other,
              KeyStorage.keyFilePath cr issuerId <> KeyStorage.keyFilePath cr other ->
              KeyStorage.getPublicKey cr disk' other = KeyStorage.getPublicKey cr disk other
    else result = Throw "Failed to generate key pair" /\ disk' = disk.
Proof.
  intros cr disk issuerId issuerName publicKey privateKey.
  rewrite generateKeyPair_cases.
  destruct (KeyStorage.canWrite cr (KeyStorage.keyFilePath cr issuerId));
    [|split; reflexivity].
  split; [eexists; split; reflexivity|].
  apply getters_after_write.
Qed.

(** An issuer id with a slash names a file in a directory that is not
    there: the call throws and nothing is stored. *)
Example generateKeyPair_missing_directory :
  KeyStorage.generateKeyPair MoreSamples.toyCrypto (Ok (lit "PUBLIC", lit "PRIVATE")) []
    (lit "a/b") (lit "University")
  = (Throw "Failed to generate key pair", []).
Proof. reflexivity. Qed.

(** X24 ([deleteIssuer], [getPublicKey], [verifySignature]):
    [deleteIssuer] returns [true] exactly when the key file existed and
    the unlink went through.  Afterwards [getPublicKey] throws
    [Failed to get public key for issuer: <id>] for that issuer and
    [verifySignature] reports every signature of that issuer invalid with
    that message as its error, while an issuer whose file has another path
    keeps its key.  When it returns [false] the directory is as it was. *)
Theorem deleteIssuer_removes_the_key :
  forall (cr : KeyStorage.Crypto) (disk : KeyStorage.Disk) (issuerId : jsstring),
    let (deleted, disk') := KeyStorage.deleteIssuer cr disk issuerId in
    deleted = KeyStorage.existsSync disk (KeyStorage.keyFilePath cr issuerId)
              && KeyStorage.canUnlink cr (KeyStorage.keyFilePath cr issuerId)
    /\ if deleted then
         KeyStorage.getPublicKey cr disk' issuerId
         = KeyStorage.Abrupt (lit "Failed to get public key for issuer: " ++ issuerId)
         /\ (forall data signature,
               KeyStorage.verifySignature cr disk' data signature issuerId
               = {| KeyStorage.checkValid := false;
                    KeyStorage.checkError :=
                      Some (lit "Failed to get public key for issuer: " ++ issuerId) |})
         /\ forall other,
              KeyStorage.keyFilePath cr issuerId <> KeyStorage.keyFilePath cr other ->
              KeyStorage.getPublicKey cr disk' other = KeyStorage.getPublicKey cr disk other
       else disk' = disk.
Proof.
  intros cr disk issuerId. unfold KeyStorage.deleteIssuer.
  destruct (KeyStorage.existsSync disk (KeyStorage.keyFilePath cr issuerId)) eqn:E;
    [|split; reflexivity].
  rewrite (unlinkSync_existing cr disk _ E).
  destruct (KeyStorage.canUnlink cr (KeyStorage.keyFilePath cr issuerId));
    [|split; reflexivity].
  split; [reflexivity|].
  pose proof (getPublicKey_missing cr _ issuerId
                (readText_removed_same disk (KeyStorage.keyFilePath cr issuerId))) as Hget.
  split; [exact Hget|]. split.
  - intros data signature. unfold KeyStorage.verifySignature. now rewrite Hget.
  - intros other Hother. unfold KeyStorage.getPublicKey.
    rewrite (readKey_depends_on_file cr _ disk other "publicKey"); [reflexivity|].
    now apply readText_removed_other.
Qed.

(** X25 ([generateKeyPair], [signData], [verifySignature],
    [verifySignatureWithPublicKey]): with a key pair for which the
    platform's check accepts what its signing produces, a signature that
    [signData] makes for an issuer after [generateKeyPair] stored the pair
    is reported valid by [verifySignature] for the same data and issuer,
    and that result is the one [verifySignatureWithPublicKey] gives for
    the public key of the pair. *)
Theorem signData_then_verifySignature :
  forall (cr : KeyStorage.Crypto) (disk disk' : KeyStorage.Disk)
         (issuerId issuerName publicKey privateKey data signature : jsstring)
         (key : KeyStorage.GeneratedKey),
    keyPairFits cr publicKey privateKey ->
    KeyStorage.generateKeyPair cr (Ok (publicKey, privateKey)) disk issuerId issuerName
    = (Ok key, disk') ->
    KeyStorage.signData cr disk' data issuerId = Ok signature ->
    KeyStorage.checkValid
      (KeyStorage.verifySignature cr disk' data (Some (JStr signature)) issuerId) = true
    /\ KeyStorage.verifySignature cr disk' data (Some (JStr signature)) issuerId
       = KeyStorage.verifySignatureWithPublicKey cr data (Some (JStr signature))
           (Some (JStr publicKey)).
Proof.
  intros cr disk disk' issuerId issuerName publicKey privateKey data signature key
    Hfits Hgen Hsign.
  rewrite generateKeyPair_cases in Hgen.
  destruct (KeyStorage.canWrite cr (KeyStorage.keyFilePath cr issuerId)); [|discriminate].
  pose proof (f_equal snd Hgen) as Hdisk. cbn [snd] in Hdisk. subst disk'. clear Hgen.
  destruct (getters_after_write cr disk issuerId issuerName publicKey privateKey)
    as (Hpub & Hpriv & _).
  unfold KeyStorage.signData in Hsign. rewrite Hpriv in Hsign.
  unfold KeyStorage.verifySignature, KeyStorage.verifySignatureWithPublicKey.
  rewrite Hpub.
  destruct (KeyStorage.signWith cr (Some (JStr privateKey)) data) as [s|m] eqn:Es;
    [|discriminate].
  cbn [tryCatch] in Hsign. inversion Hsign; subst s.
  rewrite (Hfits data signature Es). split; reflexivity.
Qed.

Lemma signData_then_verifySignature_witness :
  let disk' :=
    snd (KeyStorage.generateKeyPair MoreSamples.toyCrypto
           (Ok (lit "PUBLIC", lit "PRIVATE")) [] (lit "univ-1") (lit "University")) in
  KeyStorage.checkValid
    (KeyStorage.verifySignature MoreSamples.toyCrypto disk' (lit "ab12")
       (Some (JStr (lit "PRIVATE:ab12"))) (lit "univ-1")) = true
  /\ KeyStorage.verifySignature MoreSamples.toyCrypto disk' (lit "ab12")
       (Some (JStr (lit "PRIVATE:ab12"))) (lit "univ-1")
     = KeyStorage.verifySignatureWithPublicKey MoreSamples.toyCrypto (lit "ab12")
         (Some (JStr (lit "PRIVATE:ab12"))) (Some (JStr (lit "PUBLIC"))).
Proof.
  eapply (signData_then_verifySignature MoreSamples.toyCrypto [] _ (lit "univ-1")
            (lit "University") (lit "PUBLIC") (lit "PRIVATE") (lit "ab12")
            (lit "PRIVATE:ab12")).
  - intros data signature H. cbn in H. inversion H; subst signature. cbn.
    now rewrite !jsEqb_refl.
  - vm_compute. reflexivity.
  - vm_compute. reflexivity.
Defined.

(** X26 ([router.post('/issuer/generate-keys')],
    [router.get('/issuer/:issuerId/public-key')]): a request that lacks
    the issuer id or the issuer name gets the 400 answer and writes
    nothing.  A request that names both is answered with the public key
    when the key file could be written, and the second route then returns
    that key for that id; when the write throws, the answer is the 500
    with [Failed to generate key pair] and nothing is written. *)
Theorem generateKeys_then_issuerPublicKey :
  forall (cr : KeyStorage.Crypto) (disk : KeyStorage.Disk)
         (issuerId issuerName : option jsstring) (publicKey privateKey : jsstring),
    let (response, disk') :=
      KeyStorage.generateKeys cr (Ok (publicKey, privateKey)) disk issuerId issuerName in
    if missing issuerId || missing issuerName
    then response = KeyStorage.KeysBadRequest "Missing required fields: issuerId, issuerName"
         /\ disk' = disk
    else if KeyStorage.canWrite cr (KeyStorage.keyFilePath cr (fieldText issuerId))
    then response = KeyStorage.KeysGenerated (fieldText issuerId) publicKey
         /\ KeyStorage.issuerPublicKey cr disk' (fieldText issuerId)
            = KeyStorage.PublicKeyFound (fieldText issuerId) (Some (JStr publicKey))
    else response = KeyStorage.KeysServerError "Failed to generate key pair"
                      "Failed to generate key pair"
         /\ disk' = disk.
Proof.
  intros cr disk issuerId issuerName publicKey privateKey.
  unfold KeyStorage.generateKeys.
  destruct (missing issuerId || missing issuerName); [split; reflexivity|].
  rewrite generateKeyPair_cases.
  destruct (KeyStorage.canWrite cr (KeyStorage.keyFilePath cr (fieldText issuerId)));
    [|split; reflexivity].
  cbn [KeyStorage.generatedPublicKey]. split; [reflexivity|].
  unfold KeyStorage.issuerPublicKey.
  destruct (getters_after_write cr disk (fieldText issuerId) (fieldText issuerName)
              publicKey privateKey) as (Hpub & _).
  now rewrite Hpub.
Qed.

(** The request of the issuer [a/b] is answered with the 500, and the
    public-key route has no key for it. *)
Example generateKeys_missing_directory :
  KeyStorage.generateKeys MoreSamples.toyCrypto (Ok (lit "PUBLIC", lit "PRIVATE")) []
    (Some (lit "a/b")) (Some (lit "University"))
  = (KeyStorage.KeysServerError "Failed to generate key pair" "Failed to generate key pair",
     [])
  /\ KeyStorage.issuerPublicKey MoreSamples.toyCrypto [] (lit "a/b")
     = KeyStorage.PublicKeyServerError "Failed to get public key"
         (lit "Failed to get public key for issuer: a/b").
Proof. split; reflexivity. Qed.
